(** * matf64: in-place arithmetic, reductions, transpose and matrix product
    over [[][]float64]

    A shallow embedding of the Go package [matf64] and the properties of it
    that its specification states.

    Conventions of the embedding.
    - [float64] is Rocq's primitive binary64 float, with the IEEE 754
      operations Go uses for [+ - * /] and [==].  Every operation rounds on
      its own: [x*y + z] is not fused, as on amd64.  Equality of floats in
      the statements is identity of the values; Go's [==] is [F64.eqb], which
      is false on a NaN and itself.
    - A [[]float64] is a [list float64], a [[][]float64] a list of rows.  The
      rows of a grid are taken to be pairwise disjoint slices, and a vector
      operand is taken not to share storage with the rows of the left
      operand, as [New], [Clone] and [make] build them.  For the properties
      that depend on what is shared, module [Mem] holds a slice as Go does,
      an array in the store with an offset, a length and a capacity; the
      vector kernels and [AppendCol] over values are proved there to be
      what the code leaves in memory when nothing is shared.
    - Go's [int] is a 64-bit two's complement integer, held in [Z] with the
      wrap-around of [+] written out.
    - A function that mutates its argument is a computation over the mutated
      store; a panic leaves the store as it was when the panic was raised.
    - An allocation that the run time accepts succeeds: memory that runs
      out ends the process, which is no panic, and is not modelled.
    - The functions passed in ([BinaryFn]) are total and touch nothing but
      the cells they are given. *)

From Stdlib Require Import ZArith PrimFloat Uint63 Lia.
From stdpp Require Import base tactics option list strings pretty.

Local Open Scope Z_scope.
Local Open Scope nat_scope.

(** ** Panics and computations over a store *)

(** What a Go panic carries: the run time's bounds or allocation failure, or
    the string the package itself passes to [panic]. *)
Inductive panic : Type :=
| IndexOutOfRange
| MakesliceLenOutOfRange
| Message (s : string).

Inductive outcome (A : Type) : Type :=
| Return (a : A)
| Panicked (p : panic).
Arguments Return {A} a.
Arguments Panicked {A} p.

(** A computation over a store of type [St]. *)
Definition go (St A : Type) : Type := St -> outcome A * St.

Module Go.
Section Ops.
Context {St : Type}.

Definition ret {A} (a : A) : go St A := fun s => (Return a, s).

Definition bind {A B} (c : go St A) (k : A -> go St B) : go St B :=
  fun s =>
    match c s with
    | (Return a, s') => k a s'
    | (Panicked p, s') => (Panicked p, s')
    end.

Definition raise {A} (p : panic) : go St A := fun s => (Panicked p, s).

Definition get : go St St := fun s => (Return s, s).

Definition put (s : St) : go St unit := fun _ => (Return tt, s).

(** The value of a function called from the computation. *)
Definition call {A} (o : outcome A) : go St A := fun s => (o, s).

(** Run a function body whose local variables start as [s]. *)
Definition run {A} (c : go St A) (s : St) : outcome A :=
  match c s with
  | (Return a, _) => Return a
  | (Panicked p, _) => Panicked p
  end.

Definition modify (f : St -> St) : go St unit := fun s => (Return tt, f s).

(** [l[i]] on a slice that is not part of the store, [i] a loop index. *)
Definition index {A} (l : list A) (i : nat) : go St A :=
  match l !! i with
  | Some x => ret x
  | None => raise IndexOutOfRange
  end.

(** [body i; body (i+1); ...], [n] iterations. *)
Fixpoint for_from (body : nat -> go St unit) (i n : nat) : go St unit :=
  match n with
  | O => ret tt
  | S n' => bind (body i) (fun _ => for_from body (S i) n')
  end.

(** [for i := range l { body }] with [n = len(l)], read once. *)
Definition for_range (n : nat) (body : nat -> go St unit) : go St unit :=
  for_from body 0 n.
End Ops.
End Go.

Declare Scope go_scope.
Delimit Scope go_scope with go.
Notation "'do' x <- c ; k" := (Go.bind c (fun x => k))
  (at level 10, x name, c at level 100, k at level 200,
   format "'[v' 'do'  x  <-  c ; '/' k ']'") : go_scope.
Notation "c ;; k" := (Go.bind c (fun _ => k))
  (at level 100, k at level 200, right associativity) : go_scope.
Local Open Scope go_scope.

(** ** Numbers *)

Abbreviation float64 := PrimFloat.float (only parsing).

Module F64.
Definition add : float64 -> float64 -> float64 := PrimFloat.add.
Definition sub : float64 -> float64 -> float64 := PrimFloat.sub.
Definition mul : float64 -> float64 -> float64 := PrimFloat.mul.
Definition div : float64 -> float64 -> float64 := PrimFloat.div.
(** Go's [==] on floats: false on NaN, true on [0 == -0]. *)
Definition eqb : float64 -> float64 -> bool := PrimFloat.eqb.
Definition is_nan : float64 -> bool := PrimFloat.is_nan.
Definition nan : float64 := PrimFloat.nan.
Definition zero : float64 := 0%float.
Definition one : float64 := 1%float.
End F64.

Abbreviation int := Z (only parsing).

Module Int.
Definition min_int : Z := (- 2 ^ 63)%Z.
Definition max_int : Z := (2 ^ 63 - 1)%Z.
Definition in_range (z : Z) : Prop := (min_int <= z <= max_int)%Z.
Definition wrap (z : Z) : int := ((z + 2 ^ 63) mod 2 ^ 64 - 2 ^ 63)%Z.
Definition add (a b : int) : int := wrap (a + b).
(** [len(l)] *)
Definition len {A} (l : list A) : int := Z.of_nat (length l).
(** [float64(n)], rounding to nearest even. *)
Definition to_float64 (n : int) : float64 :=
  if (n <? 0)%Z
  then PrimFloat.opp (PrimFloat.of_uint63 (Uint63.of_Z (- n)))
  else PrimFloat.of_uint63 (Uint63.of_Z n).
End Int.

(** [l[x]] with [x] an [int] computed by the program. *)
Definition index_int {St A} (l : list A) (x : int) : go St A :=
  if (x <? 0)%Z then Go.raise IndexOutOfRange else Go.index l (Z.to_nat x).

(** ** Grids *)

Abbreviation Vector := (list float64) (only parsing).
Abbreviation Grid := (list (list float64)) (only parsing).

(** [m[i]] *)
Definition row_at (i : nat) : go Grid (list float64) :=
  fun m => Go.index m i m.

(** [m[i][j]] as a value. *)
Definition load (i j : nat) : go Grid float64 :=
  do row <- row_at i; Go.index row j.

(** [m[i][j] = x] *)
Definition store (i j : nat) (x : float64) : go Grid unit :=
  do row <- row_at i;
  if decide (j < length row)
  then Go.modify (fun m => <[i := <[j := x]> row]> m)
  else Go.raise IndexOutOfRange.

(** ** arithmatic.go: the twelve element-wise kernels

    The four operator families are the same three loops around [*=], [+=],
    [-=] and [/=]; [op] is that operator. *)
Section Kernels.
Variable op : float64 -> float64 -> float64.

(** for i := range m { for j := range m[i] { m[i][j] op= v } } *)
Definition scalar_kernel (v : float64) : go Grid unit :=
  do m <- Go.get;
  Go.for_range (length m) (fun i =>
    do row <- row_at i;
    Go.for_range (length row) (fun j =>
      do x <- load i j;
      store i j (op x v))).

(** for i := range m { for j := range v { m[i][j] op= v[j] } }, for a [v]
    that shares no storage with [m]: [v[j]] is the value it had at the
    call.  [Mem.vec_kernel] is the kernel for any [v]. *)
Definition vec_kernel (v : Vector) : go Grid unit :=
  do m <- Go.get;
  Go.for_range (length m) (fun i =>
    Go.for_range (length v) (fun j =>
      do x <- load i j;
      do y <- Go.index v j;
      store i j (op x y))).

(** for i := range m { for j := range m[i] { m[i][j] op= v[i][j] } } *)
Definition mat_kernel (v : Grid) : go Grid unit :=
  do m <- Go.get;
  Go.for_range (length m) (fun i =>
    do row <- row_at i;
    Go.for_range (length row) (fun j =>
      do x <- load i j;
      do vi <- Go.index v i;
      do y <- Go.index vi j;
      store i j (op x y))).
End Kernels.

Definition MultScalar := scalar_kernel F64.mul.
Definition MultVec := vec_kernel F64.mul.
Definition MultMat := mat_kernel F64.mul.
Definition AddScalar := scalar_kernel F64.add.
Definition AddVec := vec_kernel F64.add.
Definition AddMat := mat_kernel F64.add.
Definition SubScalar := scalar_kernel F64.sub.
Definition SubVec := vec_kernel F64.sub.
Definition SubMat := mat_kernel F64.sub.
Definition DivScalar := scalar_kernel F64.div.
Definition DivVec := vec_kernel F64.div.
Definition DivMat := mat_kernel F64.div.

(** The dynamic type of an [interface{}] argument; [OOther ty] is a value of
    any other type, [ty] being what [%T] prints for it. *)
Inductive operand : Type :=
| OFloat (v : float64)
| OVec (v : Vector)
| OMat (v : Grid)
| OOther (ty : string).

Definition newline : string := String (Ascii.ascii_of_nat 10) EmptyString.

(** fmt.Sprintf of the dispatchers' message at [name] and [%T]. *)
Definition operand_message (name ty : string) : string :=
  "In matf64." +:+ name +:+
  ", expected float64, []float64, or [][]float64 for the second" +:+ newline +:+
  "argument, but received argument of type: " +:+ ty +:+ ".".

Definition Mult (val : operand) : go Grid unit :=
  match val with
  | OFloat v => MultScalar v
  | OVec v => MultVec v
  | OMat v => MultMat v
  | OOther ty => Go.raise (Message (operand_message "Mult()" ty))
  end.

Definition Add (val : operand) : go Grid unit :=
  match val with
  | OFloat v => AddScalar v
  | OVec v => AddVec v
  | OMat v => AddMat v
  | OOther ty => Go.raise (Message (operand_message "Add()" ty))
  end.

Definition Sub (val : operand) : go Grid unit :=
  match val with
  | OFloat v => SubScalar v
  | OVec v => SubVec v
  | OMat v => SubMat v
  | OOther ty => Go.raise (Message (operand_message "Sub()" ty))
  end.

Definition Div (val : operand) : go Grid unit :=
  match val with
  | OFloat v => DivScalar v
  | OVec v => DivVec v
  | OMat v => DivMat v
  | OOther ty => Go.raise (Message (operand_message "Div()" ty))
  end.

(** ** matf64.go: allocation *)

(** [make([]T, n)], zero-filled, at a count [n] that the run time accepts
    when it is not negative: the length of a slice in memory.
    [Alloc.make] is [make] at any count. *)
Definition make {St A} (zero : A) (n : int) : go St (list A) :=
  if (n <? 0)%Z then Go.raise MakesliceLenOutOfRange
  else Go.ret (replicate (Z.to_nat n) zero).

(** [m[i] = row] *)
Definition set_row (i : nat) (row : list float64) : go Grid unit :=
  do m <- Go.get;
  if decide (i < length m) then Go.put (<[i := row]> m)
  else Go.raise IndexOutOfRange.

Definition New_message (n : nat) : string :=
  "In matf64.New() expected 1 or 2 arguments, but recieved " +:+
  pretty (Z.of_nat n).

(** [New] as [T] and [Dot] call it, at the lengths of slices in memory;
    [Alloc.New] is [New] at any counts.  The store is the local [m], [nil]
    at first. *)
Definition New (dims : list int) : outcome Grid :=
  Go.run
    (match dims with
     | [r] =>
         do m <- make [] r;
         Go.put m;;
         Go.for_range (length m) (fun i =>
           do row <- make F64.zero r;
           set_row i row);;
         Go.get
     | [r; c] =>
         do m <- make [] r;
         Go.put m;;
         Go.for_range (length m) (fun i =>
           do row <- make F64.zero c;
           set_row i row);;
         Go.get
     | _ => Go.raise (Message (New_message (length dims)))
     end) [].

(** ** Allocation of a count that the caller chose

    [make] above is [make([]T, n)] at a count that the run time accepts, as
    the length of a slice in memory is: that is how [T] and [Dot] call
    [New], and how [Col], [Row] and [Clone] call [make].  At a count that
    the caller of the package chose, the run time (runtime.makeslice) raises
    the panic of a negative length also when the [n] cells, of [size] bytes
    each, take more than [maxAlloc] bytes.  Memory that runs out below that
    limit ends the process: that is no panic, and it is not modelled. *)
Module Alloc.

(** The run time's limit on one allocation, on amd64. *)
Definition maxAlloc : Z := 2 ^ 48.

(** unsafe.Sizeof(float64(0)) *)
Definition float64_size : Z := 8.

(** unsafe.Sizeof([]float64(nil)): pointer, length and capacity. *)
Definition slice_size : Z := 24.

(** [make([]T, n)] for a [T] of [size] bytes, zero-filled. *)
Definition make {St A} (size : Z) (zero : A) (n : int) : go St (list A) :=
  if ((n <? 0) || (maxAlloc <? size * n))%Z
  then Go.raise MakesliceLenOutOfRange
  else Go.ret (replicate (Z.to_nat n) zero).

(** [New] at counts that its caller chose.  The store is the local [m],
    [nil] at first. *)
Definition New (dims : list int) : outcome Grid :=
  Go.run
    (match dims with
     | [r] =>
         do m <- make slice_size [] r;
         Go.put m;;
         Go.for_range (length m) (fun i =>
           do row <- make float64_size F64.zero r;
           set_row i row);;
         Go.get
     | [r; c] =>
         do m <- make slice_size [] r;
         Go.put m;;
         Go.for_range (length m) (fun i =>
           do row <- make float64_size F64.zero c;
           set_row i row);;
         Go.get
     | _ => Go.raise (Message (New_message (length dims)))
     end) [].
End Alloc.

(** ** matf64.go: transpose and matrix product *)

(** The store is the result [n]. *)
Definition T (m : Grid) : outcome Grid :=
  Go.run
    (do m0 <- Go.index m 0;
     do n <- Go.call (New [Int.len m0; Int.len m]);
     Go.put n;;
     Go.for_range (length m) (fun i =>
       do mi <- Go.index m i;
       Go.for_range (length mi) (fun j =>
         do x <- Go.index mi j;
         store j i x));;
     Go.get) [].

(** The store is the result [res]. *)
Definition Dot (m n : Grid) : outcome Grid :=
  Go.run
    (do n0 <- Go.index n 0;
     do res <- Go.call (New [Int.len m; Int.len n0]);
     Go.put res;;
     Go.for_range (length m) (fun i =>
       do n0 <- Go.index n 0;
       Go.for_range (length n0) (fun j =>
         do mi <- Go.index m i;
         Go.for_range (length mi) (fun k =>
           do acc <- load i j;
           do x <- Go.index mi k;
           do nk <- Go.index n k;
           do y <- Go.index nk j;
           store i j (F64.add acc (F64.mul x y)))));;
     Go.get) [].

(** ** matf64.go: reductions *)

(** fmt.Sprintf of the message for a trailing-argument count other than 0
    or 2; the same text in [Sum], [Prod] and [Avg]. *)
Definition arity_message (name : string) (n : nat) : string :=
  "In matf64." +:+ name +:+
  " expected 0 or 2 arguments after the [][]float64 " +:+ newline +:+
  "but received " +:+ pretty (Z.of_nat n).

(** fmt.Sprintf of the message for an axis other than 0 or 1; [verb] and
    [sep] are the two places where the three texts differ. *)
Definition axis_message (name verb sep : string) (axis : int) : string :=
  "In matf64." +:+ name +:+
  " the first argument after the [][]float64 " +:+ verb +:+ " the axis." +:+
  newline +:+
  "It must be 0 for row, or 1 for column" +:+ sep +:+ " but " +:+
  pretty axis +:+ " was passed.".

Definition Sum_axis_message := axis_message "Sum()" "determine" ".".
Definition Prod_axis_message := axis_message "Prod()" "determines" ".".
Definition Avg_axis_message := axis_message "Avg()" "determines" ",".

(** [Sum] and [Prod] are one body around [sum += _] from [0.0] and
    [prod *= _] from [1.0]; the store is that accumulator. *)
Section Reduction.
Variable name : string.
Variable axis_msg : int -> string.
Variable op : float64 -> float64 -> float64.

Definition accumulate (v : float64) : go float64 unit :=
  Go.modify (fun acc => op acc v).

Definition reduce_body (m : Grid) (args : list int) : go float64 float64 :=
  match args with
  | [] =>
      Go.for_range (length m) (fun i =>
        do mi <- Go.index m i;
        Go.for_range (length mi) (fun j =>
          do v <- Go.index mi j;
          accumulate v));;
      Go.get
  | [axis; x] =>
      if (axis =? 0)%Z then
        (if (0 <=? x)%Z then
           do mx <- index_int m x;
           Go.for_range (length mx) (fun i =>
             do mx <- index_int m x;
             do v <- Go.index mx i;
             accumulate v)
         else
           do mx <- index_int m (Int.add (Int.len m) x);
           Go.for_range (length mx) (fun i =>
             do mx <- index_int m (Int.add (Int.len m) x);
             do v <- Go.index mx i;
             accumulate v));;
        Go.get
      else if (axis =? 1)%Z then
        (if (0 <=? x)%Z then
           Go.for_range (length m) (fun i =>
             do mi <- Go.index m i;
             do v <- index_int mi x;
             accumulate v)
         else
           Go.for_range (length m) (fun i =>
             do mi <- Go.index m i;
             do m0 <- Go.index m 0;
             do v <- index_int mi (Int.add (Int.len m0) x);
             accumulate v));;
        Go.get
      else Go.raise (Message (axis_msg axis))
  | _ => Go.raise (Message (arity_message name (length args)))
  end.
End Reduction.

Definition Sum (m : Grid) (args : list int) : outcome float64 :=
  Go.run (reduce_body "Sum()" Sum_axis_message F64.add m args) F64.zero.

Definition Prod (m : Grid) (args : list int) : outcome float64 :=
  Go.run (reduce_body "Prod()" Prod_axis_message F64.mul m args) F64.one.

(** The locals of [Avg]. *)
Record avg_vars : Type := AvgVars {
  avg_avg : float64;
  avg_sum : float64;
  avg_numItems : int
}.

Definition avg_accumulate (v : float64) : go avg_vars unit :=
  Go.modify (fun s =>
    AvgVars (avg_avg s) (F64.add (avg_sum s) v) (avg_numItems s)).

Definition avg_count : go avg_vars unit :=
  Go.modify (fun s =>
    AvgVars (avg_avg s) (avg_sum s) (Int.add (avg_numItems s) 1%Z)).

Definition avg_set_numItems (n : int) : go avg_vars unit :=
  Go.modify (fun s => AvgVars (avg_avg s) (avg_sum s) n).

Definition Avg (m : Grid) (args : list int) : outcome float64 :=
  Go.run
    ((match args with
      | [] =>
          Go.for_range (length m) (fun i =>
            do mi <- Go.index m i;
            Go.for_range (length mi) (fun j =>
              do v <- Go.index mi j;
              avg_accumulate v;;
              avg_count))
      | [axis; x] =>
          if (axis =? 0)%Z then
            if (0 <=? x)%Z then
              do mx <- index_int m x;
              Go.for_range (length mx) (fun i =>
                do mx <- index_int m x;
                do v <- Go.index mx i;
                avg_accumulate v);;
              do mx <- index_int m x;
              avg_set_numItems (Int.len mx)
            else
              do mx <- index_int m (Int.add (Int.len m) x);
              Go.for_range (length mx) (fun i =>
                do mx <- index_int m (Int.add (Int.len m) x);
                do v <- Go.index mx i;
                avg_accumulate v);;
              do mx <- index_int m (Int.add (Int.len m) x);
              avg_set_numItems (Int.len mx)
          else if (axis =? 1)%Z then
            (if (0 <=? x)%Z then
               Go.for_range (length m) (fun i =>
                 do mi <- Go.index m i;
                 do v <- index_int mi x;
                 avg_accumulate v)
             else
               Go.for_range (length m) (fun i =>
                 do mi <- Go.index m i;
                 do m0 <- Go.index m 0;
                 do v <- index_int mi (Int.add (Int.len m0) x);
                 avg_accumulate v));;
            avg_set_numItems (Int.len m)
          else Go.raise (Message (Avg_axis_message axis))
      | _ => Go.raise (Message (arity_message "Avg()" (length args)))
      end);;
     do s <- Go.get;
     Go.put (AvgVars (F64.div (avg_sum s) (Int.to_float64 (avg_numItems s)))
                     (avg_sum s) (avg_numItems s));;
     do s <- Go.get;
     Go.ret (avg_avg s))
    (AvgVars F64.zero F64.zero 0%Z).

(** ** The reducer factory

    A [BinaryFn] takes two float64 pointers and returns nothing: it is held
    as what the call leaves in the two cells, from what they held.
    [ReducerFn] is the closure [NewReducer] returns: its code and the
    variable [initialValue] it captured, which lives as long as the closure
    does. *)
Definition BinaryFn : Type := float64 -> float64 -> float64 * float64.

Record ReducerFn : Type := Closure {
  initialValue : float64;
  combiner : BinaryFn
}.

Definition NewReducer (initialValue : float64) (f : BinaryFn) : ReducerFn :=
  Closure initialValue f.

(** The store of one invocation: the captured variable and the grid. *)
Definition reducer_store : Type := float64 * Grid.

(** A computation on the grid, inside an invocation. *)
Definition on_grid {A} (c : go Grid A) : go reducer_store A :=
  fun s =>
    match c (snd s) with
    | (o, m') => (o, (fst s, m'))
    end.

(** f(&initialValue, &m[i][j]) *)
Definition apply_BinaryFn (f : BinaryFn) (i j : nat) : go reducer_store unit :=
  do x <- on_grid (load i j);
  do s <- Go.get;
  Go.put (fst (f (fst s) x), snd s);;
  on_grid (store i j (snd (f (fst s) x))).

Definition reducer_body (f : BinaryFn) : go reducer_store float64 :=
  do s <- Go.get;
  Go.for_range (length (snd s)) (fun i =>
    do row <- on_grid (row_at i);
    Go.for_range (length row) (fun j => apply_BinaryFn f i j));;
  do s <- Go.get;
  Go.ret (fst s).

(** One invocation [r(m)]: what it returns, the closure afterwards and the
    grid afterwards. *)
Definition invoke (r : ReducerFn) (m : Grid)
  : outcome float64 * ReducerFn * Grid :=
  match reducer_body (combiner r) (initialValue r, m) with
  | (o, (a, m')) => (o, Closure a (combiner r), m')
  end.

(** A [BinaryFn] that combines the second cell into the first with [h] and
    leaves the second as it is. *)
Definition into_first (h : float64 -> float64 -> float64) : BinaryFn :=
  fun i j => (h i j, j).

(** func(i *float64, j *float64) { *i += *j } *)
Definition plus_into : BinaryFn := into_first F64.add.

(** s1 := r(m); s2 := r(m): the two values returned. *)
Definition invoke_twice (r : ReducerFn) (m : Grid)
  : outcome float64 * outcome float64 :=
  match invoke r m with
  | (o1, r1, m1) =>
      match invoke r1 m1 with
      | (o2, _, _) => (o1, o2)
      end
  end.

(** ** Composite calls the statements are about *)


(** The four operator families, to speak of them at once. *)
Inductive family : Type := FAdd | FSub | FMult | FDiv.

Definition operator (o : family) : float64 -> float64 -> float64 :=
  match o with
  | FAdd => F64.add
  | FSub => F64.sub
  | FMult => F64.mul
  | FDiv => F64.div
  end.

Definition dispatcher (o : family) : operand -> go Grid unit :=
  match o with
  | FAdd => Add
  | FSub => Sub
  | FMult => Mult
  | FDiv => Div
  end.

Definition vector_kernel (o : family) : Vector -> go Grid unit :=
  match o with
  | FAdd => AddVec
  | FSub => SubVec
  | FMult => MultVec
  | FDiv => DivVec
  end.

Definition dispatcher_name (o : family) : string :=
  match o with
  | FAdd => "Add()"
  | FSub => "Sub()"
  | FMult => "Mult()"
  | FDiv => "Div()"
  end.

(** Column [j] of a grid whose rows all reach it. *)
Definition column (m : Grid) (j : nat) : list float64 :=
  (fun row => default F64.zero (row !! j)) <$> m.

(** A computation that can panic only on an index. *)
Definition only_index {St A} (c : go St A) : Prop :=
  forall s p s', c s = (Panicked p, s') -> p = IndexOutOfRange.

(** ** Cells of a grid, for the statements *)

(** [m[i][j]], when both indices are in range. *)
Definition at2 (m : Grid) (i j : nat) : option float64 :=
  match m !! i with
  | Some row => row !! j
  | None => None
  end.

(** [m] with [m[i][j]] replaced by [y]. *)
Definition upd2 (m : Grid) (i j : nat) (y : float64) : Grid :=
  match m !! i with
  | Some row => <[i := <[j := y]> row]> m
  | None => m
  end.

(** [r] rows of [c] columns each. *)
Definition rect (m : Grid) (r c : nat) : Prop :=
  length m = r /\ Forall (fun row => length row = c) m.

(** The state of a grid in the middle of a sweep that turns the value [x]
    of cell [(a, b)] into [g a b x], the cells in [done] being those swept
    so far. *)
Definition swept (g : nat -> nat -> float64 -> float64)
    (done : nat -> nat -> bool) (m t : Grid) : Prop :=
  length <$> t = length <$> m /\
  forall a b,
    at2 t a b = if done a b then g a b <$> at2 m a b else at2 m a b.

(** Cells before [(i, j)] in a sweep of [w a] cells in row [a]. *)
Definition before (w : nat -> nat) (i j a b : nat) : bool :=
  if a <? i then b <? w a else (a =? i) && (b <? j).

(** The length of row [i], [0] past the last row. *)
Definition width (m : Grid) (i : nat) : nat :=
  match m !! i with
  | Some row => length row
  | None => 0
  end.

(** Iteration [(i, j)] of a sweep with body [body] turns the cell's [x]
    into [g i j x]. *)
Definition cell_step (g : nat -> nat -> float64 -> float64)
    (body : nat -> nat -> go Grid unit) (i j : nat) : Prop :=
  forall t x,
    at2 t i j = Some x -> body i j t = (Return tt, upd2 t i j (g i j x)).

(** What the kernels do to a cell, and their innermost statements. *)
Section KernelCells.
Variable op : float64 -> float64 -> float64.


Definition vec_cell (v : Vector) : nat -> nat -> float64 -> float64 :=
  fun _ j x => op x (default F64.zero (v !! j)).

(** A row at least as long as [v] after [for j := range v { row[j] op= v[j] }]:
    its first [len(v)] cells combined, the others kept. *)
Definition vec_row (v : Vector) (row : list float64) : list float64 :=
  zip_with op (take (length v) row) v ++ drop (length v) row.



Definition vec_body (v : Vector) (i j : nat) : go Grid unit :=
  do x <- load i j; do y <- Go.index v j; store i j (op x y).

End KernelCells.

(** ** The cells of a matrix product *)

(** [m[i][j]], [0.0] out of range. *)
Definition entry (m : Grid) (i j : nat) : float64 :=
  default F64.zero (at2 m i j).

(** [term 0 + term 1 + ... + term (k-1)], added in that order onto [0.0]
    in float64. *)
Fixpoint sum_upto (k : nat) (term : nat -> float64) : float64 :=
  match k with
  | O => F64.zero
  | S k' => F64.add (sum_upto k' term) (term k')
  end.

(** The first [k] terms of the sum over [t] of [m[i][t] * n[t][j]]. *)
Definition dot_cell (m n : Grid) (k i j : nat) : float64 :=
  sum_upto k (fun t => F64.mul (entry m i t) (entry n t j)).

(** What cell [(a, b)] of the result of [Dot] holds when the loops are at
    [(i, j, kk)], for operands of inner dimension [k]. *)
Definition dot_progress (m n : Grid) (k i j kk a b : nat) : float64 :=
  if decide (a < i \/ (a = i /\ b < j)) then dot_cell m n k a b
  else if decide (a = i /\ b = j) then dot_cell m n kk a b
  else F64.zero.

Definition dot_state (m n : Grid) (r k c i j kk : nat) (t : Grid) : Prop :=
  rect t r c /\
  forall a b, a < r -> b < c ->
    at2 t a b = Some (dot_progress m n k i j kk a b).

(** ** Loops that can return from the function

    The body yields [Some r] where the source has [return r] and [None]
    where the iteration falls through. *)
Fixpoint for_from_return {St R} (body : nat -> go St (option R)) (i n : nat)
  : go St (option R) :=
  match n with
  | O => Go.ret None
  | S n' =>
      do r <- body i;
      match r with
      | Some v => Go.ret (Some v)
      | None => for_from_return body (S i) n'
      end
  end.

Definition for_range_return {St R} (n : nat)
    (body : nat -> go St (option R)) : go St (option R) :=
  for_from_return body 0 n.

(** The first [Some] among [f i, ..., f (i + n - 1)]. *)
Fixpoint first_return {R} (f : nat -> option R) (i n : nat) : option R :=
  match n with
  | O => None
  | S n' =>
      match f i with
      | Some v => Some v
      | None => first_return f (S i) n'
      end
  end.

(** A computation on the second component of a store. *)
Definition on_snd {S1 S2 A} (c : go S2 A) : go (S1 * S2) A :=
  fun s =>
    match c (snd s) with
    | (o, s2) => (o, (fst s, s2))
    end.

(** ** matf64.go: the helpers around the core *)

(** [v[i]] as a value, [v] being the store. *)
Definition load_vec (i : nat) : go Vector float64 :=
  fun v => Go.index v i v.

(** [v[i] = x] *)
Definition store_vec (i : nat) (x : float64) : go Vector unit :=
  do v <- Go.get;
  if decide (i < length v) then Go.put (<[i := x]> v)
  else Go.raise IndexOutOfRange.

(** The store is the local [m]. *)
Definition I (x : int) : outcome Grid :=
  Go.run
    (do m <- Go.call (Alloc.New [x]);
     Go.put m;;
     Go.for_range (length m) (fun i => store i i F64.one);;
     Go.get) [].

(** [n = append(n, row...)] *)
Definition append_all (row : list float64) : go Vector unit :=
  Go.modify (fun n => n ++ row).

(** The store is the local [n], [nil] at first. *)
Definition Flatten (m : Grid) : outcome Vector :=
  Go.run
    (Go.for_range (length m) (fun i =>
       do mi <- Go.index m i;
       append_all mi);;
     Go.get) [].

(** The store is the local [v]. *)
Definition Col (m : Grid) (x : int) : outcome Vector :=
  Go.run
    (do v <- make F64.zero (Int.len m);
     Go.put v;;
     (if (0 <=? x)%Z then
        Go.for_range (length m) (fun i =>
          do mi <- Go.index m i;
          do y <- index_int mi x;
          store_vec i y)
      else
        Go.for_range (length m) (fun i =>
          do mi <- Go.index m i;
          do m0 <- Go.index m 0;
          do y <- index_int mi (Int.add (Int.len m0) x);
          store_vec i y));;
     Go.get) [].

(** [copy(dst, src)], [dst] being the store: the first
    [min(len(dst), len(src))] elements are overwritten. *)
Definition copy (src : list float64) : go Vector unit :=
  Go.modify (fun dst =>
    take (min (length dst) (length src)) src
    ++ drop (min (length dst) (length src)) dst).

(** The store is the local [v]. *)
Definition Row (m : Grid) (x : int) : outcome Vector :=
  Go.run
    (do m0 <- Go.index m 0;
     do v <- make F64.zero (Int.len m0);
     Go.put v;;
     (if (0 <=? x)%Z then
        do mx <- index_int m x;
        copy mx
      else
        do mx <- index_int m (Int.add (Int.len m) x);
        copy mx);;
     Go.get) [].

(** [Equal] has no local that it mutates: the store is empty. *)
Definition Equal (m n : Grid) : outcome bool :=
  Go.run
    (if negb (Int.len m =? Int.len n)%Z then Go.ret false
     else
       do r1 <- for_range_return (length m) (fun i =>
         do mi <- Go.index m i;
         do ni <- Go.index n i;
         if negb (Int.len mi =? Int.len ni)%Z then Go.ret (Some false)
         else Go.ret None);
       match r1 with
       | Some b => Go.ret b
       | None =>
           do r2 <- for_range_return (length m) (fun i =>
             do mi <- Go.index m i;
             for_range_return (length mi) (fun j =>
               do x <- Go.index mi j;
               do ni <- Go.index n i;
               do y <- Go.index ni j;
               if negb (F64.eqb x y) then Go.ret (Some false)
               else Go.ret None));
           match r2 with
           | Some b => Go.ret b
           | None => Go.ret true
           end
       end) tt.

(** The store is the local [n]. *)
Definition Clone (m : Grid) : outcome Grid :=
  Go.run
    (do n <- make [] (Int.len m);
     Go.put n;;
     Go.for_range (length m) (fun i =>
       do mi <- Go.index m i;
       do row <- make F64.zero (Int.len mi);
       set_row i row;;
       Go.for_range (length mi) (fun j =>
         do x <- Go.index mi j;
         store i j x));;
     Go.get) [].

(** A [FilterFn] takes a float64 pointer and returns a bool: it is held as
    what the call returns and what it leaves in the cell, from what the
    cell held. *)
Definition FilterFn : Type := float64 -> bool * float64.

(** A [FilterFn] that only reads the cell. *)
Definition reading (p : float64 -> bool) : FilterFn := fun x => (p x, x).

(** f(&m[i][j]) *)
Definition apply_FilterFn (f : FilterFn) (i j : nat) : go Grid bool :=
  do x <- load i j;
  store i j (snd (f x));;
  Go.ret (fst (f x)).

Definition All (f : FilterFn) : go Grid bool :=
  do m <- Go.get;
  do r <- for_range_return (length m) (fun i =>
    do row <- row_at i;
    for_range_return (length row) (fun j =>
      do b <- apply_FilterFn f i j;
      if negb b then Go.ret (Some false) else Go.ret None));
  match r with
  | Some b => Go.ret b
  | None => Go.ret true
  end.

Definition Any (f : FilterFn) : go Grid bool :=
  do m <- Go.get;
  do r <- for_range_return (length m) (fun i =>
    do row <- row_at i;
    for_range_return (length row) (fun j =>
      do b <- apply_FilterFn f i j;
      if b then Go.ret (Some true) else Go.ret None));
  match r with
  | Some b => Go.ret b
  | None => Go.ret false
  end.

(** [m[i] = append(m[i], y)] for each [y = v[i]], for rows whose spare
    capacity is no memory of another row or of [v]: [append] then changes
    the one row.  [Mem.AppendCol] is the function for any rows. *)
Definition AppendCol (v : Vector) : go Grid unit :=
  Go.for_range (length v) (fun i =>
    do mi <- row_at i;
    do y <- Go.index v i;
    set_row i (mi ++ [y])).

(** ** Apply and Set

    A [TransformerFn] takes a float64 pointer and returns nothing: it is
    held as what the call leaves in the cell, from what the cell held. *)
Definition TransformerFn : Type := float64 -> float64.

Definition ApplyVec (f : TransformerFn) : go Vector unit :=
  do v <- Go.get;
  Go.for_range (length v) (fun i =>
    do x <- load_vec i;
    store_vec i (f x)).

Definition ApplyMat (f : TransformerFn) : go Grid unit :=
  do v <- Go.get;
  Go.for_range (length v) (fun i =>
    do row <- row_at i;
    Go.for_range (length row) (fun j =>
      do x <- load i j;
      store i j (f x))).

Definition SetVec (val : float64) : go Vector unit :=
  do v <- Go.get;
  Go.for_range (length v) (fun i => store_vec i val).

Definition SetMat (val : float64) : go Grid unit :=
  do m <- Go.get;
  Go.for_range (length m) (fun i =>
    do row <- row_at i;
    Go.for_range (length row) (fun j => store i j val)).

(** The dynamic type of the [interface{}] argument of [Apply] and [Set],
    which is also what they mutate. *)
Inductive container : Type :=
| CVec (v : Vector)
| CMat (m : Grid)
| COther (ty : string).

(** fmt.Sprintf of the message of [Apply] and [Set] at [name] and [%T]. *)
Definition container_message (name ty : string) : string :=
  "In matf64." +:+ name +:+
  ", expected []float64, or [][]float64 but received type: " +:+ ty +:+ ".".

(** A switch on the dynamic type of the store. *)
Definition on_container (name : string) (on_vec : go Vector unit)
    (on_mat : go Grid unit) : go container unit :=
  fun c =>
    match c with
    | CVec v => match on_vec v with (o, v') => (o, CVec v') end
    | CMat m => match on_mat m with (o, m') => (o, CMat m') end
    | COther ty => (Panicked (Message (container_message name ty)), c)
    end.

Definition Apply (f : TransformerFn) : go container unit :=
  on_container "Apply()" (ApplyVec f) (ApplyMat f).

(** [Set] of the source; [Set] is a keyword here. *)
Definition Set_ (val : float64) : go container unit :=
  on_container "Set()" (SetVec val) (SetMat val).

(** ** matf64.go: random grids and vectors

    [rand.Float64()] reads the package's global source: the source is held
    as the sequence [draws] of the values it gives, and the number of values
    taken so far is part of the store. *)
Section Random.
Variable draws : nat -> float64.

(** rand.Float64() *)
Definition rand_Float64 {St} : go (nat * St) float64 :=
  fun s => (Return (draws (fst s)), (S (fst s), snd s)).

Definition Rand_message (name : string) (n : nat) : string :=
  "In matf64." +:+ name +:+
  " expected 0-2 float64s for the range, but recieved " +:+
  pretty (Z.of_nat n).

(** The switch on [len(args)] that sets [from] and [to]. *)
Definition rand_range {St} (name : string) (args : list float64)
  : go St (float64 * float64) :=
  match args with
  | [] => Go.ret (F64.zero, F64.one)
  | [a] => Go.ret (F64.zero, a)
  | [a; b] => Go.ret (a, b)
  | _ => Go.raise (Message (Rand_message name (length args)))
  end.

(** The store is the source's position and the local [m]. *)
Definition RandMat_body (x y : int) (args : list float64)
  : go (nat * Grid) Grid :=
  do m <- Go.call (Alloc.New [y; y]);
  on_snd (Go.put m);;
  do ft <- rand_range "RandMat()" args;
  Go.for_range (length m) (fun i =>
    do row <- on_snd (row_at i);
    Go.for_range (length row) (fun j =>
      do u <- rand_Float64;
      on_snd (store i j
                (F64.add (F64.mul u (F64.sub (snd ft) (fst ft))) (fst ft)))));;
  do s <- Go.get;
  Go.ret (snd s).

(** What [RandMat] returns and where it leaves the source, from the
    position [pos] of the source. *)
Definition RandMat (x y : int) (args : list float64) (pos : nat)
  : outcome Grid * nat :=
  match RandMat_body x y args (pos, []) with
  | (o, (pos', _)) => (o, pos')
  end.

Definition RandVec_body (size : int) (args : list float64)
  : go (nat * Vector) Vector :=
  do v <- Alloc.make Alloc.float64_size F64.zero size;
  on_snd (Go.put v);;
  do ft <- rand_range "RandVec()" args;
  Go.for_range (length v) (fun i =>
    do u <- rand_Float64;
    on_snd (store_vec i
              (F64.add (F64.mul u (F64.sub (snd ft) (fst ft))) (fst ft))));;
  do s <- Go.get;
  Go.ret (snd s).

Definition RandVec (size : int) (args : list float64) (pos : nat)
  : outcome Vector * nat :=
  match RandVec_body size args (pos, []) with
  | (o, (pos', _)) => (o, pos')
  end.
End Random.

(** The first [Some] that [h] gives along a list. *)
Definition first_of {A R} (h : A -> option R) (l : list A) : option R :=
  fold_right (fun x rest => match h x with Some v => Some v | None => rest end)
    None l.

(** A grid after [AppendCol]: row [i] with [v[i]] appended, where [v] has
    an [i]-th value. *)
Definition append_col_rows (v : Vector) (m : Grid) : Grid :=
  imap (fun i row =>
          match v !! i with
          | Some y => row ++ [y]
          | None => row
          end) m.

(** A computation that leaves the grid with the rows it had: as many, each
    as long, whatever it returns or panics with. *)
Definition keeps_shape {A} (c : go Grid A) : Prop :=
  forall s o s', c s = (o, s') -> length <$> s' = length <$> s.

(** What cell [(b, a)] of the result of [T] holds when the loops are at
    [(i, j)]: the value of [m[a][b]] once that cell has been copied, [0.0]
    before, and [0.0] for good where row [a] of [m] has no such cell. *)
Definition T_progress (m : Grid) (i j a b : nat) : float64 :=
  if decide (a < i \/ (a = i /\ b < j)) then entry m a b else F64.zero.

Definition T_state (m : Grid) (r c i j : nat) (t : Grid) : Prop :=
  rect t c r /\
  forall a b, a < r -> b < c ->
    at2 t b a = Some (T_progress m i j a b).

(** The range [(from, to)] that the switch on [len(args)] of [RandMat] and
    [RandVec] sets for at most two arguments. *)
Definition range_of (args : list float64) : float64 * float64 :=
  match args with
  | [a] => (F64.zero, a)
  | [a; b] => (a, b)
  | _ => (F64.zero, F64.one)
  end.

(** [u*(to-from) + from] *)
Definition scaled (ft : float64 * float64) (u : float64) : float64 :=
  F64.add (F64.mul u (F64.sub (snd ft) (fst ft))) (fst ft).

(** The store of [RandMat] when its loops are at [(i, j)] of an [n] by [n]
    grid: the cells before hold the scaled draws in the order they were
    taken, the others [0.0]. *)
Definition rand_state (draws : nat -> float64) (ft : float64 * float64)
    (pos n i j : nat) (s : nat * Grid) : Prop :=
  fst s = pos + i * n + j /\
  rect (snd s) n n /\
  forall a b, a < n -> b < n ->
    at2 (snd s) a b
    = Some (if decide (a < i \/ (a = i /\ b < j))
            then scaled ft (draws (pos + a * n + b)) else F64.zero).

(** The store of [RandVec] when its loop is at [i]. *)
Definition rand_vec_state (draws : nat -> float64) (ft : float64 * float64)
    (pos n i : nat) (s : nat * Vector) : Prop :=
  fst s = pos + i /\
  length (snd s) = n /\
  forall a, a < n ->
    snd s !! a
    = Some (if decide (a < i) then scaled ft (draws (pos + a))
            else F64.zero).

(** A computation on the first component of a store. *)
Definition on_fst {S1 S2 A} (c : go S1 A) : go (S1 * S2) A :=
  fun s =>
    match c (fst s) with
    | (o, s1) => (o, (s1, snd s))
    end.

(** ** Slices over shared storage

    Where a property depends on what two slices share, a [[]float64] is
    held as Go holds it: a backing array, an offset into it, a length and a
    capacity.  The store is the arrays, numbered in the order of their
    allocation; a [[][]float64] is the list of the headers of its rows.
    The kernels and [AppendCol] are the same loops as above, over that
    store. *)
Module Mem.

(** The arrays, by number. *)
Abbreviation heap := (list (list float64)) (only parsing).

Record slice : Type := Slice { arr : nat; off : nat; len : nat; cap : nat }.

(** The values of [s], read off the arrays [h]. *)
Definition contents (h : heap) (s : slice) : Vector :=
  take (len s) (drop (off s) (default [] (h !! arr s))).

(** The grid that the rows [m] hold. *)
Definition grid_of (h : heap) (m : list slice) : Grid := contents h <$> m.

(** [s[j]] as a value: the bounds check is against the length of [s]. *)
Definition elem (s : slice) (j : nat) : go heap float64 :=
  if decide (j < len s) then load (arr s) (off s + j)
  else Go.raise IndexOutOfRange.

(** [s[j] = x] *)
Definition set_elem (s : slice) (j : nat) (x : float64) : go heap unit :=
  if decide (j < len s) then store (arr s) (off s + j) x
  else Go.raise IndexOutOfRange.

Section Kernels.
Variable op : float64 -> float64 -> float64.

(** for i := range m { for j := range m[i] { m[i][j] op= v } } *)
Definition scalar_kernel (m : list slice) (v : float64) : go heap unit :=
  Go.for_range (length m) (fun i =>
    do mi <- Go.index m i;
    Go.for_range (len mi) (fun j =>
      do mi <- Go.index m i;
      do x <- elem mi j;
      set_elem mi j (op x v))).

(** for i := range m { for j := range v { m[i][j] op= v[j] } } *)
Definition vec_kernel (m : list slice) (v : slice) : go heap unit :=
  Go.for_range (length m) (fun i =>
    Go.for_range (len v) (fun j =>
      do mi <- Go.index m i;
      do x <- elem mi j;
      do y <- elem v j;
      set_elem mi j (op x y))).

(** for i := range m { for j := range m[i] { m[i][j] op= v[i][j] } } *)
Definition mat_kernel (m v : list slice) : go heap unit :=
  Go.for_range (length m) (fun i =>
    do mi <- Go.index m i;
    Go.for_range (len mi) (fun j =>
      do mi <- Go.index m i;
      do x <- elem mi j;
      do vi <- Go.index v i;
      do y <- elem vi j;
      set_elem mi j (op x y))).
End Kernels.

(** AddVec, SubVec, MultVec and DivVec. *)
Definition vector_kernel (o : family) : list slice -> slice -> go heap unit :=
  vec_kernel (operator o).

(** The dynamic type of the [interface{}] argument, slices as headers. *)
Inductive operand : Type :=
| OFloat (v : float64)
| OVec (v : slice)
| OMat (v : list slice)
| OOther (ty : string).

(** Add, Sub, Mult and Div: the type switch hands the operand, a slice as
    its header, to the kernel. *)
Definition dispatcher (o : family) (m : list slice) (val : operand)
  : go heap unit :=
  match val with
  | OFloat v => scalar_kernel (operator o) m v
  | OVec v => vec_kernel (operator o) m v
  | OMat v => mat_kernel (operator o) m v
  | OOther ty =>
      Go.raise (Message (operand_message (dispatcher_name o) ty))
  end.

Section Append.
(** The spare cells that the run time adds when [append] has to move a
    slice of [n] values; their number depends on the version of Go. *)
Variable room : nat -> nat.

(** [append(s, y)]: in place where [s] has spare capacity, into a new
    array otherwise. *)
Definition append (s : slice) (y : float64) : go heap slice :=
  if decide (len s < cap s)
  then store (arr s) (off s + len s) y;;
       Go.ret (Slice (arr s) (off s) (S (len s)) (cap s))
  else
    do h <- Go.get;
    Go.put (h ++ [contents h s ++ y :: replicate (room (len s)) F64.zero]);;
    Go.ret (Slice (length h) 0 (S (len s)) (S (len s) + room (len s))).

(** [m[i]], the header of row [i]. *)
Definition header (i : nat) : go (list slice) slice :=
  fun m => Go.index m i m.

(** [m[i] = s] *)
Definition set_header (i : nat) (s : slice) : go (list slice) unit :=
  do m <- Go.get;
  if decide (i < length m) then Go.put (<[i := s]> m)
  else Go.raise IndexOutOfRange.

(** for i := range v { m[i] = append(m[i], v[i]) }; the store is the
    arrays and the headers of the rows of [m]. *)
Definition AppendCol (v : slice) : go (heap * list slice) unit :=
  Go.for_range (len v) (fun i =>
    do mi <- on_snd (header i);
    do y <- on_fst (elem v i);
    do s <- on_fst (append mi y);
    on_snd (set_header i s)).
End Append.

(** [s] lies within its array. *)
Definition fits (h : heap) (s : slice) : Prop :=
  len s <= cap s /\ off s + cap s <= length (default [] (h !! arr s)).

(** The first [n] cells of [s] and the first [k] cells of [t] are not the
    same memory. *)
Definition apart (s : slice) (n : nat) (t : slice) (k : nat) : Prop :=
  n = 0 \/ k = 0 \/ arr s <> arr t \/
  off s + n <= off t \/ off t + k <= off s.

(** The rows of [m] and the vector [v] lie within their arrays, and no two
    of them share memory, each row taken up to [extent]: its length where
    it is only written in place, its capacity where it is appended to. *)
Definition separate (extent : slice -> nat) (h : heap) (m : list slice)
    (v : slice) : Prop :=
  fits h v /\
  (forall i s, m !! i = Some s -> fits h s /\ apart s (extent s) v (len v)) /\
  forall i j s t,
    i <> j -> m !! i = Some s -> m !! j = Some t ->
    apart s (extent s) t (extent t).
End Mem.

(** The arrays [h] hold the grid [g] in the rows [m] and the vector [vv] in
    [v], nothing shared up to [extent]: how a run over the arrays and a
    run over the values stay in step. *)
Definition held_in (extent : Mem.slice -> nat) (v : Mem.slice) (vv : Vector)
    (s : Mem.heap * list Mem.slice) (g : Grid) : Prop :=
  Mem.separate extent (fst s) (snd s) v /\
  Mem.grid_of (fst s) (snd s) = g /\
  Mem.contents (fst s) v = vv.

(** * Properties *)

Example AddVec_run :
  AddVec [2; 3]%float [[1; 2]; [3; 4]]%float
  = (Return tt, [[3; 5]; [5; 7]]%float).
Proof. vm_compute. reflexivity. Qed.

Example T_run :
  T [[1; 2; 3]; [4; 5; 6]]%float = Return [[1; 4]; [2; 5]; [3; 6]]%float.
Proof. vm_compute. reflexivity. Qed.

Example Dot_run :
  Dot [[1; 0]; [0; 1]]%float [[5; 6]; [7; 8]]%float
  = Return [[5; 6]; [7; 8]]%float.
Proof. vm_compute. reflexivity. Qed.

Example Sum_run :
  Sum [[1; 1; 1]; [1; 1; 1]]%float [1; -1]%Z = Return 2%float.
Proof. vm_compute. reflexivity. Qed.

Example Avg_run : Avg [[1; 2]; [3; 6]]%float [] = Return 3%float.
Proof. vm_compute. reflexivity. Qed.

Example invoke_run :
  invoke (NewReducer 0%float plus_into) [[2; 2]; [2; 2]]%float
  = (Return 8%float, Closure 8%float plus_into, [[2; 2]; [2; 2]]%float).
Proof. vm_compute. reflexivity. Qed.

(** ** Rules for binds and loops *)

Section Rules.
Context {St : Type}.

Lemma bind_Return {A B} (c : go St A) (k : A -> go St B) s a s' :
  c s = (Return a, s') -> Go.bind c k s = k a s'.
Proof. unfold Go.bind. intros ->. reflexivity. Qed.

Lemma bind_Panicked {A B} (c : go St A) (k : A -> go St B) s p s' :
  c s = (Panicked p, s') -> Go.bind c k s = (Panicked p, s').
Proof. unfold Go.bind. intros ->. reflexivity. Qed.

Lemma index_Some {A} (l : list A) i x (s : St) :
  l !! i = Some x -> Go.index l i s = (Return x, s).
Proof. unfold Go.index. intros ->. reflexivity. Qed.

Lemma index_None {A} (l : list A) i (s : St) :
  l !! i = None -> Go.index (St:=St) l i s = (Panicked IndexOutOfRange, s).
Proof. unfold Go.index. intros ->. reflexivity. Qed.

(** A loop whose every iteration returns and keeps [Inv] returns. *)
Lemma for_from_invariant (Inv : nat -> St -> Prop) body n :
  forall i s,
    Inv i s ->
    (forall k t, i <= k < i + n -> Inv k t ->
       exists t', body k t = (Return tt, t') /\ Inv (S k) t') ->
    exists t, Go.for_from body i n s = (Return tt, t) /\ Inv (i + n) t.
Proof.
  induction n as [|n IH]; intros i s Hi Hstep.
  - exists s. rewrite Nat.add_0_r. split; [reflexivity | exact Hi].
  - destruct (Hstep i s ltac:(lia) Hi) as (t1 & Hb & Hi1).
    destruct (IH (S i) t1 Hi1) as (t & Hrun & Hend).
    { intros k t Hk. apply Hstep. lia. }
    exists t. split.
    + simpl. rewrite (bind_Return _ _ _ _ _ Hb). exact Hrun.
    + replace (i + S n) with (S i + n) by lia. exact Hend.
Qed.

(** A loop whose iteration [k] panics, the earlier ones returning and
    keeping [Inv], panics with the store iteration [k] left. *)
Lemma for_from_panics (Inv : nat -> St -> Prop) (Q : St -> Prop)
    body p n :
  forall i k s,
    i <= k < i + n ->
    Inv i s ->
    (forall j t, i <= j < k -> Inv j t ->
       exists t', body j t = (Return tt, t') /\ Inv (S j) t') ->
    (forall t, Inv k t -> exists t', body k t = (Panicked p, t') /\ Q t') ->
    exists t, Go.for_from body i n s = (Panicked p, t) /\ Q t.
Proof.
  induction n as [|n IH]; intros i k s Hk Hi Hstep Hbad; [lia|].
  destruct (decide (i = k)) as [->|Hne].
  - destruct (Hbad s Hi) as (t & Hb & HQ).
    exists t. split; [|exact HQ].
    simpl. apply bind_Panicked. exact Hb.
  - destruct (Hstep i s ltac:(lia) Hi) as (t1 & Hb & Hi1).
    destruct (IH (S i) k t1 ltac:(lia) Hi1) as (t & Hrun & HQ).
    { intros j t Hj. apply Hstep. lia. }
    { exact Hbad. }
    exists t. split; [|exact HQ].
    simpl. rewrite (bind_Return _ _ _ _ _ Hb). exact Hrun.
Qed.
End Rules.

(** ** Rules for cells *)

Lemma at2_Some m i j x :
  at2 m i j = Some x <-> exists row, m !! i = Some row /\ row !! j = Some x.
Proof.
  unfold at2. destruct (m !! i) as [row|]; split.
  - intros H. exists row. auto.
  - intros (row' & [= <-] & H). exact H.
  - discriminate.
  - intros (row' & [=] & _).
Qed.

Lemma load_Some t i j x : at2 t i j = Some x -> load i j t = (Return x, t).
Proof.
  intros (row & Hr & Hx)%at2_Some. unfold load, row_at.
  rewrite (bind_Return _ _ _ row t); [|apply index_Some, Hr].
  apply index_Some, Hx.
Qed.

Lemma load_None t i j :
  at2 t i j = None -> load i j t = (Panicked IndexOutOfRange, t).
Proof.
  unfold at2, load, row_at. destruct (t !! i) as [row|] eqn:Hr; intros H.
  - rewrite (bind_Return _ _ _ row t); [|apply index_Some, Hr].
    apply index_None, H.
  - apply bind_Panicked, index_None, Hr.
Qed.

Lemma store_Some t i j x y :
  at2 t i j = Some x -> store i j y t = (Return tt, upd2 t i j y).
Proof.
  intros (row & Hr & Hx)%at2_Some. unfold store, row_at, upd2.
  rewrite (bind_Return _ _ _ row t); [|apply index_Some, Hr].
  rewrite Hr. apply lookup_lt_Some in Hx.
  destruct (decide (j < length row)); [reflexivity | lia].
Qed.

Lemma store_None t i j y :
  at2 t i j = None -> store i j y t = (Panicked IndexOutOfRange, t).
Proof.
  unfold at2, store, row_at. destruct (t !! i) as [row|] eqn:Hr; intros H.
  - rewrite (bind_Return _ _ _ row t); [|apply index_Some, Hr].
    apply lookup_ge_None in H.
    destruct (decide (j < length row)); [lia | reflexivity].
  - apply bind_Panicked, index_None, Hr.
Qed.

Lemma at2_upd2 t i j x y a b :
  at2 t i j = Some x ->
  at2 (upd2 t i j y) a b
  = if decide (a = i /\ b = j) then Some y else at2 t a b.
Proof.
  intros (row & Hr & Hx)%at2_Some. unfold upd2. rewrite Hr. unfold at2.
  pose proof (lookup_lt_Some _ _ _ Hr) as Hi.
  pose proof (lookup_lt_Some _ _ _ Hx) as Hj.
  destruct (decide (a = i)) as [->|Ha].
  - rewrite list_lookup_insert_eq by exact Hi. cbv beta iota.
    destruct (decide (b = j)) as [->|Hb].
    + rewrite list_lookup_insert_eq by exact Hj.
      destruct (decide (i = i /\ j = j)) as [_|n]; [reflexivity|].
      exfalso. apply n. auto.
    + rewrite list_lookup_insert_ne by auto. rewrite Hr.
      destruct (decide (i = i /\ b = j)) as [[_ ?]|_]; [contradiction|].
      reflexivity.
  - rewrite list_lookup_insert_ne by auto.
    destruct (decide (a = i /\ b = j)) as [[? _]|_]; [contradiction|].
    reflexivity.
Qed.

Lemma lengths_upd2 t i j y : length <$> upd2 t i j y = length <$> t.
Proof.
  unfold upd2. destruct (t !! i) as [row|] eqn:Hr; [|reflexivity].
  rewrite list_fmap_insert, length_insert.
  apply list_insert_id. rewrite list_lookup_fmap, Hr. reflexivity.
Qed.

Lemma lengths_lookup (t m : Grid) i row :
  length <$> t = length <$> m -> m !! i = Some row ->
  exists row', t !! i = Some row' /\ length row' = length row.
Proof.
  intros Hl Hr.
  assert (H : (length <$> t) !! i = Some (length row))
    by (rewrite Hl, list_lookup_fmap, Hr; reflexivity).
  rewrite list_lookup_fmap in H.
  destruct (t !! i) as [row'|]; [|discriminate].
  exists row'. split; [reflexivity|]. simpl in H. congruence.
Qed.


(** Two grids with the same rows count and the same cells are equal. *)
Lemma grid_ext (t u : Grid) :
  length <$> t = length <$> u ->
  (forall a b, at2 t a b = at2 u a b) ->
  t = u.
Proof.
  intros Hl Hc. apply list_eq. intros a.
  assert (Ha : (length <$> t) !! a = (length <$> u) !! a)
    by (rewrite Hl; reflexivity).
  rewrite !list_lookup_fmap in Ha.
  specialize (Hc a). unfold at2 in Hc.
  destruct (t !! a) as [r1|], (u !! a) as [r2|]; simpl in Ha;
    try discriminate; [|reflexivity].
  f_equal. apply list_eq. exact Hc.
Qed.

(** Grids that differ in a cell under Go's [==] are different grids. *)
Lemma grid_neq (t u : Grid) i j x :
  at2 t i j = Some x -> F64.eqb x x = true ->
  F64.eqb x (default x (at2 u i j)) = false ->
  t <> u.
Proof. intros Ht Hx Hu ->. rewrite Ht in Hu. simpl in Hu. congruence. Qed.

(** ** Sweeps: the shape shared by the twelve kernels *)

Section Sweep.
Variable g : nat -> nat -> float64 -> float64.
Variable w : nat -> nat.
Variable m : Grid.
Variable body : nat -> nat -> go Grid unit.

Lemma swept_start : swept g (before w 0 0) m m.
Proof.
  split; [reflexivity|]. intros a b. unfold before.
  destruct (a <? 0) eqn:E; [apply Nat.ltb_lt in E; lia|].
  replace (b <? 0) with false by (symmetry; apply Nat.ltb_ge; lia).
  rewrite andb_false_r. reflexivity.
Qed.

Lemma swept_cell i j t x :
  swept g (before w i j) m t -> at2 m i j = Some x -> at2 t i j = Some x.
Proof.
  intros [_ Hc] Hx. rewrite Hc. unfold before.
  rewrite !Nat.ltb_irrefl, Nat.eqb_refl. simpl. exact Hx.
Qed.

Lemma swept_step i j t x :
  swept g (before w i j) m t ->
  at2 m i j = Some x ->
  swept g (before w i (S j)) m (upd2 t i j (g i j x)).
Proof.
  intros Hs Hx. pose proof (swept_cell _ _ _ _ Hs Hx) as Ht.
  destruct Hs as [Hl Hc]. split.
  - rewrite lengths_upd2. exact Hl.
  - intros a b. rewrite (at2_upd2 _ _ _ _ _ _ _ Ht).
    destruct (decide (a = i /\ b = j)) as [[-> ->]|Hne].
    + unfold before. rewrite Nat.ltb_irrefl, Nat.eqb_refl.
      replace (j <? S j) with true by (symmetry; apply Nat.ltb_lt; lia).
      simpl. rewrite Hx. reflexivity.
    + rewrite Hc. unfold before.
      destruct (a <? i) eqn:Eai; [reflexivity|].
      destruct (a =? i) eqn:Ea; [|reflexivity].
      apply Nat.eqb_eq in Ea. simpl.
      assert (Hb : b <> j) by (intros ->; apply Hne; auto).
      destruct (b <? j) eqn:E1, (b <? S j) eqn:E2; try reflexivity.
      * apply Nat.ltb_lt in E1. apply Nat.ltb_ge in E2. lia.
      * apply Nat.ltb_ge in E1. apply Nat.ltb_lt in E2. lia.
Qed.

Lemma swept_next_row i t :
  swept g (before w i (w i)) m t -> swept g (before w (S i) 0) m t.
Proof.
  intros [Hl Hc]. split; [exact Hl|]. intros a b. rewrite Hc.
  unfold before.
  destruct (a <? i) eqn:E1, (a <? S i) eqn:E2; try reflexivity.
  - apply Nat.ltb_lt in E1. apply Nat.ltb_ge in E2. lia.
  - apply Nat.ltb_ge in E1. apply Nat.ltb_lt in E2.
    assert (a = i) as -> by lia. rewrite Nat.eqb_refl. reflexivity.
  - apply Nat.ltb_ge in E1. apply Nat.ltb_ge in E2.
    replace (a =? i) with false by (symmetry; apply Nat.eqb_neq; lia).
    replace (b <? 0) with false by (symmetry; apply Nat.ltb_ge; lia).
    rewrite andb_false_r. reflexivity.
Qed.

Lemma swept_end t :
  swept g (before w (length m) 0) m t ->
  swept g (fun a b => b <? w a) m t.
Proof.
  intros [Hl Hc]. split; [exact Hl|]. intros a b. rewrite Hc.
  unfold before. destruct (a <? length m) eqn:E; [reflexivity|].
  apply Nat.ltb_ge in E.
  replace (b <? 0) with false by (symmetry; apply Nat.ltb_ge; lia).
  rewrite andb_false_r. unfold at2.
  rewrite (lookup_ge_None_2 m a) by exact E.
  destruct (b <? w a); reflexivity.
Qed.

(** The first [k] cells of row [i]. *)
Lemma sweep_cells i k t :
  k <= w i ->
  swept g (before w i 0) m t ->
  (forall j, j < k -> is_Some (at2 m i j) /\ cell_step g body i j) ->
  exists t',
    Go.for_from (body i) 0 k t = (Return tt, t') /\
    swept g (before w i k) m t'.
Proof.
  intros Hk Hs Hcells.
  apply (for_from_invariant
           (fun j t => swept g (before w i j) m t) (body i) k 0 t Hs).
  intros j u Hj Hu.
  destruct (Hcells j ltac:(lia)) as [[x Hx] Hstep].
  exists (upd2 u i j (g i j x)). split.
  - apply Hstep. eapply swept_cell; eauto.
  - apply swept_step; assumption.
Qed.

Variable inner : nat -> go Grid unit.
Hypothesis inner_is_loop :
  forall i t,
    i < length m -> length <$> t = length <$> m ->
    inner i t = Go.for_from (body i) 0 (w i) t.

(** The first [k] rows. *)
Lemma sweep_rows k :
  k <= length m ->
  (forall i j, i < k -> j < w i ->
     is_Some (at2 m i j) /\ cell_step g body i j) ->
  exists t,
    Go.for_from inner 0 k m = (Return tt, t) /\
    swept g (before w k 0) m t.
Proof.
  intros Hk Hcells.
  apply (for_from_invariant
           (fun i t => swept g (before w i 0) m t) inner k 0 m swept_start).
  intros i u Hi Hu.
  destruct (sweep_cells i (w i) u (le_n _) Hu) as (t' & Hrun & Ht').
  { intros j Hj. apply Hcells; lia. }
  exists t'. split.
  - rewrite inner_is_loop; [exact Hrun | lia | apply Hu].
  - apply swept_next_row. exact Ht'.
Qed.

(** Every cell in range: the kernel returns. *)
Lemma sweep_returns :
  (forall i j, i < length m -> j < w i ->
     is_Some (at2 m i j) /\ cell_step g body i j) ->
  exists t,
    Go.for_from inner 0 (length m) m = (Return tt, t) /\
    swept g (fun a b => b <? w a) m t.
Proof.
  intros Hcells.
  destruct (sweep_rows (length m) (le_n _) Hcells) as (t & Hrun & Ht).
  exists t. split; [exact Hrun | apply swept_end, Ht].
Qed.

End Sweep.

(** ** The kernels as sweeps *)

Lemma width_cell (m : Grid) i j : j < width m i -> is_Some (at2 m i j).
Proof.
  unfold width, at2. destruct (m !! i) as [row|]; [|lia].
  apply lookup_lt_is_Some.
Qed.

Lemma rect_lookup (m : Grid) r c i row :
  rect m r c -> m !! i = Some row -> length row = c.
Proof.
  intros [_ Hall] Hr. rewrite Forall_lookup in Hall. exact (Hall i row Hr).
Qed.


Lemma rect_at2 (m : Grid) r c i j :
  rect m r c -> is_Some (at2 m i j) <-> i < r /\ j < c.
Proof.
  intros Hm. unfold at2. destruct (m !! i) as [row|] eqn:Hr.
  - rewrite lookup_lt_is_Some, (rect_lookup _ _ _ _ _ Hm Hr).
    apply lookup_lt_Some in Hr. destruct Hm as [Hlen _]. intuition lia.
  - apply lookup_ge_None in Hr. destruct Hm as [Hlen _].
    split; [intros [? [=]] | lia].
Qed.

(** [for j := range m[i] { ... }] on a grid of the shape of [m]. *)
Lemma range_row (m t : Grid) (body : nat -> go Grid unit) i :
  i < length m -> length <$> t = length <$> m ->
  (do row <- row_at i; Go.for_range (length row) body) t
  = Go.for_from body 0 (width m i) t.
Proof.
  intros Hi Hl. destruct (lookup_lt_is_Some_2 m i Hi) as [row Hr].
  destruct (lengths_lookup _ _ _ _ Hl Hr) as (row' & Hr' & Hlen).
  unfold width. rewrite Hr.
  rewrite (bind_Return _ _ _ row' t) by (apply index_Some, Hr').
  unfold Go.for_range. rewrite Hlen. reflexivity.
Qed.

Section KernelFacts.
Variable op : float64 -> float64 -> float64.


Lemma vec_step v i j :
  j < length v -> cell_step (vec_cell op v) (vec_body op v) i j.
Proof.
  intros Hj t x Hx. destruct (lookup_lt_is_Some_2 v j Hj) as [y Hy].
  unfold vec_body, vec_cell.
  rewrite (bind_Return _ _ _ _ _ (load_Some _ _ _ _ Hx)).
  rewrite (bind_Return _ _ _ _ _ (index_Some _ _ _ _ Hy)).
  rewrite Hy. eapply store_Some, Hx.
Qed.





Lemma vec_kernel_sweep v m :
  vec_kernel op v m
  = Go.for_from (fun i => Go.for_range (length v) (vec_body op v i))
      0 (length m) m.
Proof. reflexivity. Qed.


End KernelFacts.

(** ** The vector kernels *)

Section VecKernel.
Variable op : float64 -> float64 -> float64.

Lemma length_vec_row (v : Vector) (row : list float64) :
  length v <= length row -> length (vec_row op v row) = length row.
Proof.
  intros H. unfold vec_row.
  rewrite length_app, length_zip_with, length_take, length_drop. lia.
Qed.

Lemma lookup_vec_row (v : Vector) (row : list float64) b :
  length v <= length row ->
  vec_row op v row !! b
  = if b <? length v then vec_cell op v 0 b <$> row !! b else row !! b.
Proof.
  intros H. unfold vec_row, vec_cell.
  destruct (b <? length v) eqn:E.
  - apply Nat.ltb_lt in E.
    rewrite lookup_app_l
      by (rewrite length_zip_with, length_take; lia).
    rewrite lookup_zip_with, lookup_take_lt by exact E.
    destruct (lookup_lt_is_Some_2 v b E) as [y ->].
    destruct (row !! b); reflexivity.
  - apply Nat.ltb_ge in E.
    rewrite lookup_app_r
      by (rewrite length_zip_with, length_take; lia).
    rewrite length_zip_with, length_take, lookup_drop. f_equal. lia.
Qed.

(** A vector no longer than any row: no panic, whatever the lengths. *)
Lemma vec_kernel_short (v : Vector) (m : Grid) :
  Forall (fun row => length v <= length row) m ->
  vec_kernel op v m = (Return tt, vec_row op v <$> m).
Proof.
  intros Hall. rewrite Forall_lookup in Hall. rewrite vec_kernel_sweep.
  destruct (sweep_returns (vec_cell op v) (fun _ => length v) m
              (vec_body op v)
              (fun i => Go.for_range (length v) (vec_body op v i)))
    as (t & Hrun & Hl & Hc).
  { reflexivity. }
  { intros i j Hi Hj. split; [|apply vec_step, Hj].
    destruct (lookup_lt_is_Some_2 m i Hi) as [row Hr].
    unfold at2. rewrite Hr. apply lookup_lt_is_Some.
    specialize (Hall i row Hr). simpl in Hall. lia. }
  rewrite Hrun. f_equal. apply grid_ext.
  - rewrite Hl, <- list_fmap_compose. apply list_fmap_ext.
    intros i row Hr. simpl. symmetry. apply length_vec_row.
    exact (Hall i row Hr).
  - intros a b. rewrite Hc. unfold at2. rewrite list_lookup_fmap.
    destruct (m !! a) as [row|] eqn:Hr; simpl;
      [|destruct (b <? length v); reflexivity].
    rewrite lookup_vec_row by exact (Hall a row Hr). reflexivity.
Qed.

(** A vector of exactly the row length: every row is zipped with it. *)
Lemma vec_kernel_exact (v : Vector) (m : Grid) r :
  rect m r (length v) ->
  vec_kernel op v m = (Return tt, (fun row => zip_with op row v) <$> m).
Proof.
  intros Hm. rewrite vec_kernel_short.
  - f_equal. apply list_fmap_ext. intros i row Hr. unfold vec_row.
    pose proof (rect_lookup _ _ _ _ _ Hm Hr) as Hlen.
    rewrite take_ge, drop_ge, app_nil_r by lia. reflexivity.
  - destruct Hm as [_ Hall]. eapply Forall_impl; [exact Hall|].
    simpl. intros row ->. reflexivity.
Qed.

End VecKernel.

(** ** The grid kernels *)

Lemma rect_lengths (m : Grid) r c : rect m r c <-> length <$> m = replicate r c.
Proof.
  split.
  - intros [Hlen Hall]. apply list_eq. intros i.
    rewrite list_lookup_fmap. destruct (m !! i) as [row|] eqn:Hr; simpl.
    + pose proof (lookup_lt_Some _ _ _ Hr).
      rewrite lookup_replicate_2 by lia.
      rewrite Forall_lookup in Hall. rewrite (Hall i row Hr). reflexivity.
    + apply lookup_ge_None in Hr. symmetry.
      apply lookup_replicate_None. lia.
  - intros H. split.
    + rewrite <- (length_fmap length m), H. apply length_replicate.
    + apply Forall_lookup. intros i row Hr.
      assert (E : (length <$> m) !! i = Some (length row))
        by (rewrite list_lookup_fmap, Hr; reflexivity).
      rewrite H in E. apply lookup_replicate in E. apply E.
Qed.

Lemma rect_same_lengths (t m : Grid) r c :
  rect t r c -> rect m r c -> length <$> t = length <$> m.
Proof. rewrite !rect_lengths. congruence. Qed.


Lemma at2_app (t u : Grid) a b :
  at2 (t ++ u) a b
  = if a <? length t then at2 t a b else at2 u (a - length t) b.
Proof.
  unfold at2. destruct (a <? length t) eqn:E.
  - apply Nat.ltb_lt in E. rewrite lookup_app_l by exact E. reflexivity.
  - apply Nat.ltb_ge in E. rewrite lookup_app_r by exact E. reflexivity.
Qed.


Lemma rect_take (m : Grid) r c k : rect m r c -> rect (take k m) (min k r) c.
Proof.
  intros [H1 H2]. split.
  - rewrite length_take. lia.
  - apply Forall_take, H2.
Qed.



Section MatKernel.
Variable op : float64 -> float64 -> float64.




End MatKernel.

(** ** Broadcasting a vector or a grid *)

Lemma vector_kernel_op o : vector_kernel o = vec_kernel (operator o).
Proof. destruct o; reflexivity. Qed.

Lemma dispatcher_OVec o v : dispatcher o (OVec v) = vec_kernel (operator o) v.
Proof. destruct o; reflexivity. Qed.



(** On a rectangular grid [m] of [c] columns and a vector [v] of [c]
    values, held as values, each of AddVec, SubVec, MultVec and DivVec, and
    each of Add, Sub, Mult and Div called with [v], returns without a panic
    and leaves every row zipped with [v] under the operator. *)
Lemma vector_kernels_zip (o : family) (m : Grid) (r c : nat)
    (v : Vector) :
  rect m r c -> length v = c ->
  exists m',
    vector_kernel o v m = (Return tt, m') /\
    dispatcher o (OVec v) m = (Return tt, m') /\
    m' = (fun row => zip_with (operator o) row v) <$> m /\
    rect m' r c /\
    forall i j x,
      at2 m i j = Some x ->
      exists y, v !! j = Some y /\ at2 m' i j = Some (operator o x y).
Proof.
  intros Hm Hv. subst c.
  exists ((fun row => zip_with (operator o) row v) <$> m).
  rewrite vector_kernel_op, dispatcher_OVec.
  rewrite (vec_kernel_exact _ _ _ _ Hm).
  do 3 (split; [reflexivity|]). split.
  - destruct Hm as [Hlen Hall]. split; [rewrite length_fmap; exact Hlen|].
    apply Forall_fmap. eapply Forall_impl; [exact Hall|].
    simpl. intros row Hrow. rewrite length_zip_with. lia.
  - intros i j x (row & Hr & Hx)%at2_Some.
    pose proof (rect_lookup _ _ _ _ _ Hm Hr) as Hlen.
    destruct (lookup_lt_is_Some_2 v j) as [y Hy].
    { apply lookup_lt_Some in Hx. lia. }
    exists y. split; [exact Hy|].
    unfold at2. rewrite list_lookup_fmap, Hr. simpl.
    rewrite lookup_zip_with, Hx, Hy. reflexivity.
Qed.




(** ** Scalar addition followed by scalar subtraction *)



(** ** Which panics a computation can raise *)

Section OnlyIndex.
Context {St : Type}.

Lemma only_index_ret {A} (a : A) : only_index (St:=St) (Go.ret a).
Proof. intros s p s' [=]. Qed.

Lemma only_index_get : only_index (St:=St) Go.get.
Proof. intros s p s' [=]. Qed.

Lemma only_index_put (t : St) : only_index (Go.put t).
Proof. intros s p s' [=]. Qed.

Lemma only_index_modify (f : St -> St) : only_index (Go.modify f).
Proof. intros s p s' [=]. Qed.

Lemma only_index_index {A} (l : list A) i : only_index (St:=St) (Go.index l i).
Proof.
  unfold Go.index. intros s p s'. destruct (l !! i); intros [=]; auto.
Qed.

Lemma only_index_index_int {A} (l : list A) x :
  only_index (St:=St) (index_int l x).
Proof.
  unfold index_int. destruct (x <? 0)%Z; [|apply only_index_index].
  intros s p s' [=]; auto.
Qed.

Lemma only_index_bind {A B} (c : go St A) (k : A -> go St B) :
  only_index c -> (forall a, only_index (k a)) -> only_index (Go.bind c k).
Proof.
  intros Hc Hk s p s'. unfold Go.bind.
  destruct (c s) as [[a|q] t] eqn:E.
  - apply Hk.
  - intros [= <- <-]. eapply Hc, E.
Qed.

Lemma only_index_for_from (body : nat -> go St unit) n :
  (forall i, only_index (body i)) ->
  forall i, only_index (Go.for_from body i n).
Proof.
  intros Hb. induction n as [|n IH]; intros i; simpl.
  - apply only_index_ret.
  - apply only_index_bind; [apply Hb | intros _; apply IH].
Qed.

Lemma only_index_for_range (body : nat -> go St unit) n :
  (forall i, only_index (body i)) -> only_index (Go.for_range n body).
Proof. intros Hb. apply only_index_for_from, Hb. Qed.

Lemma only_index_run {A} (c : go St A) s p :
  only_index c -> Go.run c s = Panicked p -> p = IndexOutOfRange.
Proof.
  intros Hc. unfold Go.run. destruct (c s) as [[a|q] t] eqn:E; [discriminate|].
  intros [= <-]. eapply Hc, E.
Qed.
End OnlyIndex.

Ltac prove_only_index :=
  repeat first
    [ apply only_index_ret | apply only_index_get | apply only_index_put
    | apply only_index_modify | apply only_index_index
    | apply only_index_index_int
    | apply only_index_for_range; intros ?
    | apply only_index_bind; [|intros ?] ].

Lemma only_index_reduce_body name axis_msg op m args :
  args = [] \/ (exists x, args = [0%Z; x]) \/ (exists x, args = [1%Z; x]) ->
  only_index (reduce_body name axis_msg op m args).
Proof.
  intros [->|[[x ->]|[x ->]]]; simpl.
  - unfold accumulate. prove_only_index.
  - unfold accumulate. destruct (0 <=? x)%Z; prove_only_index.
  - unfold accumulate. destruct (0 <=? x)%Z; prove_only_index.
Qed.

Lemma only_index_Avg m args p :
  args = [] \/ (exists x, args = [0%Z; x]) \/ (exists x, args = [1%Z; x]) ->
  Avg m args = Panicked p -> p = IndexOutOfRange.
Proof.
  intros Hargs. unfold Avg. apply only_index_run.
  unfold avg_accumulate, avg_count, avg_set_numItems.
  destruct Hargs as [->|[[x ->]|[x ->]]]; simpl.
  - prove_only_index.
  - destruct (0 <=? x)%Z; prove_only_index.
  - destruct (0 <=? x)%Z; prove_only_index.
Qed.

(** ** The usage errors of the reductions *)

(** C9: [Sum], [Prod] and [Avg], on every grid, panic with a message that
    holds the operation's name and the received count when the trailing
    arguments are not 0 or 2 in number, and with a message that holds the
    operation's name and the received axis when they are two and the axis
    is neither 0 nor 1; with no trailing argument, or two and an axis of 0
    or 1, they raise no panic of their own (the only panic left is the run
    time's, on an index). *)
Theorem reductions_usage_errors (m : Grid) (args : list int) :
  (length args <> 0 -> length args <> 2 ->
   Sum m args = Panicked (Message (arity_message "Sum()" (length args))) /\
   Prod m args = Panicked (Message (arity_message "Prod()" (length args))) /\
   Avg m args = Panicked (Message (arity_message "Avg()" (length args)))) /\
  (forall axis x,
     args = [axis; x] -> axis <> 0%Z -> axis <> 1%Z ->
     Sum m args = Panicked (Message (Sum_axis_message axis)) /\
     Prod m args = Panicked (Message (Prod_axis_message axis)) /\
     Avg m args = Panicked (Message (Avg_axis_message axis))) /\
  (args = [] \/ (exists x, args = [0%Z; x]) \/ (exists x, args = [1%Z; x]) ->
   forall s,
     Sum m args <> Panicked (Message s) /\
     Prod m args <> Panicked (Message s) /\
     Avg m args <> Panicked (Message s)) /\
  (forall name n,
     exists mid,
       arity_message name n
       = "In matf64." +:+ name +:+ mid +:+ pretty (Z.of_nat n)) /\
  (forall axis,
     exists mid1 mid2 mid3 post,
       Sum_axis_message axis
       = "In matf64." +:+ "Sum()" +:+ mid1 +:+ pretty axis +:+ post /\
       Prod_axis_message axis
       = "In matf64." +:+ "Prod()" +:+ mid2 +:+ pretty axis +:+ post /\
       Avg_axis_message axis
       = "In matf64." +:+ "Avg()" +:+ mid3 +:+ pretty axis +:+ post).
Proof.
  split; [|split; [|split; [|split]]].
  - intros H0 H2.
    destruct args as [|a [|b [|c l]]]; simpl in H0, H2; try lia;
      repeat split; reflexivity.
  - intros axis x -> H0 H1. unfold Sum, Prod, Avg. simpl.
    destruct (Z.eqb_spec axis 0); [contradiction|].
    destruct (Z.eqb_spec axis 1); [contradiction|].
    repeat split; reflexivity.
  - intros Hargs s. repeat split; intros H.
    + apply only_index_run in H; [discriminate|].
      apply only_index_reduce_body, Hargs.
    + apply only_index_run in H; [discriminate|].
      apply only_index_reduce_body, Hargs.
    + apply only_index_Avg in H; [discriminate | exact Hargs].
  - intros name n.
    exists (" expected 0 or 2 arguments after the [][]float64 "
            +:+ newline +:+ "but received ").
    reflexivity.
  - intros axis.
    unfold Sum_axis_message, Prod_axis_message, Avg_axis_message,
      axis_message.
    exists (" the first argument after the [][]float64 determine the axis."
            +:+ newline +:+ "It must be 0 for row, or 1 for column. but ").
    exists (" the first argument after the [][]float64 determines the axis."
            +:+ newline +:+ "It must be 0 for row, or 1 for column. but ").
    exists (" the first argument after the [][]float64 determines the axis."
            +:+ newline +:+ "It must be 0 for row, or 1 for column, but ").
    exists " was passed.". repeat split; reflexivity.
Qed.

Lemma reductions_usage_errors_witness :
  (Sum [[1]]%float [5%Z] = Panicked (Message (arity_message "Sum()" 1)) /\
   Prod [[1]]%float [5%Z] = Panicked (Message (arity_message "Prod()" 1)) /\
   Avg [[1]]%float [5%Z] = Panicked (Message (arity_message "Avg()" 1))) /\
  (Sum [[1]]%float [2%Z; 0%Z] = Panicked (Message (Sum_axis_message 2)) /\
   Prod [[1]]%float [2%Z; 0%Z] = Panicked (Message (Prod_axis_message 2)) /\
   Avg [[1]]%float [2%Z; 0%Z] = Panicked (Message (Avg_axis_message 2))) /\
  (Sum [[1]]%float [] <> Panicked (Message "") /\
   Prod [[1]]%float [] <> Panicked (Message "") /\
   Avg [[1]]%float [] <> Panicked (Message "")).
Proof.
  split; [|split].
  - destruct (reductions_usage_errors [[1]]%float [5%Z]) as (H & _).
    apply H; simpl; lia.
  - destruct (reductions_usage_errors [[1]]%float [2%Z; 0%Z]) as (_ & H & _).
    apply (H 2%Z 0%Z); [reflexivity | lia | lia].
  - destruct (reductions_usage_errors [[1]]%float []) as (_ & _ & H & _).
    apply H. left. reflexivity.
Defined.

(** ** Reductions along a row or a column *)

Lemma wrap_in_range (z : Z) : Int.in_range z -> Int.wrap z = z.
Proof.
  unfold Int.in_range, Int.min_int, Int.max_int, Int.wrap. intros H.
  rewrite Z.mod_small; lia.
Qed.

(** [len(l) + x] for a negative index [x = i - len(l)] is [i]. *)
Lemma add_len_negative {A} (l : list A) (i : int) :
  (Int.len l <= Int.max_int)%Z -> (0 <= i < Int.len l)%Z ->
  Int.add (Int.len l) (i - Int.len l) = i.
Proof.
  intros Hl Hi. unfold Int.add.
  replace (Int.len l + (i - Int.len l))%Z with i by lia.
  apply wrap_in_range. unfold Int.in_range, Int.min_int, Int.max_int in *. lia.
Qed.

Lemma index_int_Some {St A} (l : list A) (x : int) a (s : St) :
  (0 <= x)%Z -> l !! Z.to_nat x = Some a -> index_int l x s = (Return a, s).
Proof.
  intros Hx Ha. unfold index_int.
  destruct (Z.ltb_spec x 0); [lia|]. apply index_Some, Ha.
Qed.

Lemma for_from_ext {St} (body1 body2 : nat -> go St unit) n :
  forall i s,
    (forall k t, i <= k < i + n -> body1 k t = body2 k t) ->
    Go.for_from body1 i n s = Go.for_from body2 i n s.
Proof.
  induction n as [|n IH]; intros i s H; [reflexivity|].
  simpl. unfold Go.bind. rewrite H by lia.
  destruct (body2 i s) as [[[]|p] t]; [|reflexivity].
  apply IH. intros k u Hk. apply H. lia.
Qed.

Lemma run_then_get {St} (c : go St unit) (s s' : St) :
  c s = (Return tt, s') -> Go.run (c;; Go.get) s = Return s'.
Proof.
  intros H. unfold Go.run. rewrite (bind_Return _ _ _ _ _ H). reflexivity.
Qed.

Section ReductionLoops.
Variable op : float64 -> float64 -> float64.

(** for i := range m[x] { acc = acc op m[x][i] } *)
Lemma row_loop (m : Grid) (x : int) (row : list float64) (acc : float64) :
  (0 <= x)%Z -> m !! Z.to_nat x = Some row ->
  Go.for_range (length row) (fun i =>
    do mx <- index_int m x;
    do v <- Go.index mx i;
    accumulate op v) acc
  = (Return tt, fold_left op row acc).
Proof.
  intros Hx Hrow. unfold Go.for_range.
  destruct (for_from_invariant
              (fun k a => a = fold_left op (take k row) acc)
              (fun i => do mx <- index_int m x;
                        do v <- Go.index mx i;
                        accumulate op v)
              (length row) 0 acc eq_refl)
    as (t & Hrun & Ht).
  { intros k a Hk ->. destruct (lookup_lt_is_Some_2 row k) as [v Hv]; [lia|].
    eexists. split.
    - rewrite (bind_Return _ _ _ _ _ (index_int_Some _ _ _ _ Hx Hrow)).
      rewrite (bind_Return _ _ _ _ _ (index_Some _ _ _ _ Hv)).
      reflexivity.
    - rewrite (take_S_r _ _ _ Hv), fold_left_app. reflexivity. }
  rewrite Hrun, Ht. simpl. rewrite firstn_all. reflexivity.
Qed.

(** for i := range m { acc = acc op m[i][x] } *)
Lemma column_loop (m : Grid) r c (x : int) (acc : float64) :
  rect m r c -> (0 <= x < Z.of_nat c)%Z ->
  Go.for_range (length m) (fun i =>
    do mi <- Go.index m i;
    do v <- index_int mi x;
    accumulate op v) acc
  = (Return tt, fold_left op (column m (Z.to_nat x)) acc).
Proof.
  intros Hm Hx. unfold Go.for_range.
  destruct (for_from_invariant
              (fun k a => a = fold_left op (take k (column m (Z.to_nat x))) acc)
              (fun i => do mi <- Go.index m i;
                        do v <- index_int mi x;
                        accumulate op v)
              (length m) 0 acc eq_refl)
    as (t & Hrun & Ht).
  { intros k a Hk ->. destruct (lookup_lt_is_Some_2 m k) as [mi Hmi]; [lia|].
    destruct (lookup_lt_is_Some_2 mi (Z.to_nat x)) as [v Hv].
    { rewrite (rect_lookup _ _ _ _ _ Hm Hmi). lia. }
    eexists. split.
    - rewrite (bind_Return _ _ _ _ _ (index_Some _ _ _ _ Hmi)).
      rewrite (bind_Return _ _ _ _ _
                 (index_int_Some _ _ _ _ (proj1 Hx) Hv)).
      reflexivity.
    - assert (Hc : column m (Z.to_nat x) !! k = Some v)
        by (unfold column; rewrite list_lookup_fmap, Hmi; simpl;
            rewrite Hv; reflexivity).
      rewrite (take_S_r _ _ _ Hc), fold_left_app. reflexivity. }
  rewrite Hrun, Ht. simpl.
  replace (length m) with (length (column m (Z.to_nat x)))
    by (unfold column; apply length_fmap).
  rewrite firstn_all. reflexivity.
Qed.

(** The column loop of a negative index [x - c] runs as that of [x]. *)
Lemma column_loop_negative (m : Grid) r c (x : int) (acc : float64) :
  rect m r c -> (Z.of_nat c <= Int.max_int)%Z -> (0 <= x < Z.of_nat c)%Z ->
  Go.for_range (length m) (fun i =>
    do mi <- Go.index m i;
    do m0 <- Go.index m 0;
    do v <- index_int mi (Int.add (Int.len m0) (x - Z.of_nat c));
    accumulate op v) acc
  = Go.for_range (length m) (fun i =>
      do mi <- Go.index m i;
      do v <- index_int mi x;
      accumulate op v) acc.
Proof.
  intros Hm Hc Hx. apply for_from_ext. intros k t Hk.
  destruct (lookup_lt_is_Some_2 m k) as [mi Hmi]; [lia|].
  destruct (lookup_lt_is_Some_2 m 0) as [m0 Hm0]; [lia|].
  rewrite !(bind_Return _ _ _ _ _ (index_Some _ _ _ _ Hmi)).
  rewrite (bind_Return _ _ _ _ _ (index_Some _ _ _ _ Hm0)).
  pose proof (rect_lookup _ _ _ _ _ Hm Hm0) as Hlen.
  replace (Z.of_nat c) with (Int.len m0) by (unfold Int.len; lia).
  rewrite add_len_negative; [reflexivity | |]; unfold Int.len; lia.
Qed.
End ReductionLoops.

(** C8: on a rectangular grid of [r] rows and [c] columns, [r] and [c]
    fitting Go's [int] as every slice length does, the sum of row [i],
    [0 <= i < r], is the sum of row [i - r], and the sum of column [j],
    [0 <= j < c], is the sum of column [j - c]; each is returned without a
    panic and is the left-to-right float64 sum of that row or column from
    [0.0]. *)
Theorem Sum_negative_index (m : Grid) (r c : nat) :
  rect m r c ->
  (Z.of_nat r <= Int.max_int)%Z -> (Z.of_nat c <= Int.max_int)%Z ->
  (forall i : int,
     (0 <= i < Z.of_nat r)%Z ->
     Sum m [0%Z; i] = Sum m [0%Z; (i - Z.of_nat r)%Z] /\
     exists row,
       m !! Z.to_nat i = Some row /\
       Sum m [0%Z; i] = Return (fold_left F64.add row F64.zero)) /\
  (forall j : int,
     (0 <= j < Z.of_nat c)%Z ->
     Sum m [1%Z; j] = Sum m [1%Z; (j - Z.of_nat c)%Z] /\
     Sum m [1%Z; j]
     = Return (fold_left F64.add (column m (Z.to_nat j)) F64.zero)).
Proof.
  intros Hm Hr Hc. pose proof Hm as [Hlen _]. split.
  - intros i Hi. destruct (lookup_lt_is_Some_2 m (Z.to_nat i)) as [row Hrow];
      [lia|].
    assert (Hpos : Sum m [0%Z; i] = Return (fold_left F64.add row F64.zero)).
    { unfold Sum. simpl. destruct (Z.leb_spec 0 i); [|lia].
      apply run_then_get.
      rewrite (bind_Return _ _ _ _ _ (index_int_Some _ _ _ _ (proj1 Hi) Hrow)).
      apply row_loop; [lia | exact Hrow]. }
    split; [|exists row; split; [exact Hrow | exact Hpos]].
    rewrite Hpos. unfold Sum. simpl.
    destruct (Z.leb_spec 0 (i - Z.of_nat r)); [lia|].
    replace (Z.of_nat r) with (Int.len m) by (unfold Int.len; lia).
    rewrite add_len_negative by (unfold Int.len; lia).
    symmetry. apply run_then_get.
    rewrite (bind_Return _ _ _ _ _ (index_int_Some _ _ _ _ (proj1 Hi) Hrow)).
    apply row_loop; [lia | exact Hrow].
  - intros j Hj.
    assert (Hpos : Sum m [1%Z; j]
                   = Return (fold_left F64.add (column m (Z.to_nat j))
                               F64.zero)).
    { unfold Sum. simpl. destruct (Z.leb_spec 0 j); [|lia].
      apply run_then_get. eapply column_loop; eauto. }
    split; [|exact Hpos].
    rewrite Hpos. unfold Sum. simpl.
    destruct (Z.leb_spec 0 (j - Z.of_nat c)); [lia|].
    symmetry. apply run_then_get.
    rewrite (column_loop_negative _ _ _ _ _ _ Hm Hc Hj).
    eapply column_loop; eauto.
Qed.

Lemma Sum_negative_index_witness :
  (Sum [[1; 2]; [3; 4]]%float [0%Z; 1%Z]
   = Sum [[1; 2]; [3; 4]]%float [0%Z; (1 - Z.of_nat 2)%Z] /\
   exists row,
     [[1; 2]; [3; 4]]%float !! Z.to_nat 1 = Some row /\
     Sum [[1; 2]; [3; 4]]%float [0%Z; 1%Z]
     = Return (fold_left F64.add row F64.zero)) /\
  (Sum [[1; 2]; [3; 4]]%float [1%Z; 0%Z]
   = Sum [[1; 2]; [3; 4]]%float [1%Z; (0 - Z.of_nat 2)%Z] /\
   Sum [[1; 2]; [3; 4]]%float [1%Z; 0%Z]
   = Return (fold_left F64.add (column [[1; 2]; [3; 4]]%float (Z.to_nat 0))
               F64.zero)).
Proof.
  destruct (Sum_negative_index [[1; 2]; [3; 4]]%float 2 2) as [Hrow Hcol].
  - split; [reflexivity | repeat constructor].
  - unfold Int.max_int. lia.
  - unfold Int.max_int. lia.
  - split; [apply Hrow | apply Hcol]; lia.
Defined.

(** ** The average of nothing *)

(** C2, as stated, fails: [Avg] of the grid with no row, of the empty row of
    a grid, and of a column of the grid with no row all return NaN. *)
Lemma Avg_empty_returns_NaN :
  Avg [] [] = Return F64.nan /\
  Avg [[]] [0%Z; 0%Z] = Return F64.nan /\
  Avg [] [1%Z; 0%Z] = Return F64.nan /\
  F64.is_nan F64.nan = true.
Proof. repeat split; vm_compute; reflexivity. Qed.

Lemma Avg_finish (c : go avg_vars unit) (s : avg_vars) sum :
  c (AvgVars F64.zero F64.zero 0%Z) = (Return tt, AvgVars F64.zero sum 0%Z) ->
  F64.div sum (Int.to_float64 0%Z) = F64.nan ->
  Go.run
    (c;;
     do s <- Go.get;
     Go.put (AvgVars (F64.div (avg_sum s) (Int.to_float64 (avg_numItems s)))
                     (avg_sum s) (avg_numItems s));;
     do s <- Go.get;
     Go.ret (avg_avg s))
    (AvgVars F64.zero F64.zero 0%Z)
  = Return F64.nan.
Proof.
  intros Hc Hnan. unfold Go.run. rewrite (bind_Return _ _ _ _ _ Hc).
  simpl. rewrite Hnan. reflexivity.
Qed.

(** C2, amended: [Avg] has no guard for a zero count.  It returns NaN, the
    float64 quotient [0.0 / 0.0], and raises nothing: with no trailing
    argument on a grid without any element; along a row of length zero,
    selected by its index [x >= 0] or by the negative index [x - len(m)];
    along any column of the grid with no row.  It stops with the run
    time's index panic, not with a failure of its own: along any row of
    the grid with no row, and along any column of a grid whose first row
    has length zero. *)
Theorem Avg_of_nothing (m : Grid) :
  F64.is_nan F64.nan = true /\
  (Forall (fun row => row = []) m -> Avg m [] = Return F64.nan) /\
  (forall x : int,
     (0 <= x)%Z -> m !! Z.to_nat x = Some [] ->
     Avg m [0%Z; x] = Return F64.nan) /\
  (forall x : int,
     (Int.len m <= Int.max_int)%Z -> (0 <= x < Int.len m)%Z ->
     m !! Z.to_nat x = Some [] ->
     Avg m [0%Z; (x - Int.len m)%Z] = Return F64.nan) /\
  (forall x : int, m = [] -> Avg m [1%Z; x] = Return F64.nan) /\
  (forall x : int, m = [] -> Avg m [0%Z; x] = Panicked IndexOutOfRange) /\
  (forall x : int,
     m !! 0 = Some [] -> Avg m [1%Z; x] = Panicked IndexOutOfRange).
Proof.
  split; [reflexivity|]. split; [|split; [|split; [|split; [|split]]]].
  - intros Hall. rewrite Forall_lookup in Hall. unfold Avg.
    apply (Avg_finish _ (AvgVars F64.zero F64.zero 0%Z) F64.zero);
      [|reflexivity].
    destruct (for_from_invariant
                (fun _ s => s = AvgVars F64.zero F64.zero 0%Z)
                (fun i => do mi <- Go.index m i;
                          Go.for_range (length mi) (fun j =>
                            do v <- Go.index mi j;
                            avg_accumulate v;;
                            avg_count))
                (length m) 0 _ eq_refl)
      as (t & Hrun & ->); [|exact Hrun].
    intros k t Hk ->. destruct (lookup_lt_is_Some_2 m k) as [mi Hmi]; [lia|].
    eexists. split; [|reflexivity].
    rewrite (bind_Return _ _ _ _ _ (index_Some _ _ _ _ Hmi)).
    rewrite (Hall k mi Hmi). reflexivity.
  - intros x Hx Hrow. unfold Avg. simpl.
    destruct (Z.leb_spec 0 x) as [_|]; [|lia].
    apply (Avg_finish _ (AvgVars F64.zero F64.zero 0%Z) F64.zero);
      [|reflexivity].
    rewrite (bind_Return _ _ _ _ _ (index_int_Some _ _ _ _ Hx Hrow)).
    unfold Go.for_range. cbn [length Go.for_from].
    rewrite (bind_Return (Go.ret tt) _ _ tt _ eq_refl).
    rewrite (bind_Return _ _ _ _ _ (index_int_Some _ _ _ _ Hx Hrow)).
    reflexivity.
  - intros x Hlen Hx Hrow. unfold Avg. simpl.
    destruct (Z.leb_spec 0 (x - Int.len m)) as [|_]; [lia|].
    rewrite (add_len_negative m x Hlen Hx).
    apply (Avg_finish _ (AvgVars F64.zero F64.zero 0%Z) F64.zero);
      [|reflexivity].
    rewrite (bind_Return _ _ _ _ _
               (index_int_Some _ _ _ _ (proj1 Hx) Hrow)).
    unfold Go.for_range. cbn [length Go.for_from].
    rewrite (bind_Return (Go.ret tt) _ _ tt _ eq_refl).
    rewrite (bind_Return _ _ _ _ _
               (index_int_Some _ _ _ _ (proj1 Hx) Hrow)).
    reflexivity.
  - intros x ->. unfold Avg. simpl.
    destruct (0 <=? x)%Z; vm_compute; reflexivity.
  - intros x ->. unfold Avg. simpl.
    destruct (0 <=? x)%Z; unfold Go.run, Go.bind, index_int.
    + destruct (x <? 0)%Z; reflexivity.
    + destruct (Int.add (Int.len []) x <? 0)%Z; reflexivity.
  - intros x Hm0. pose proof (lookup_lt_Some _ _ _ Hm0) as Hlen.
    destruct (length m) as [|n] eqn:En; [lia|].
    assert (forall (y : int) (s : avg_vars),
              index_int (A:=float64) [] y s = (Panicked IndexOutOfRange, s))
      as Hout.
    { intros y s. unfold index_int.
      destruct (y <? 0)%Z; [reflexivity|]. apply index_None. reflexivity. }
    unfold Avg. simpl. rewrite En. unfold Go.run, Go.for_range.
    destruct (0 <=? x)%Z.
    + erewrite bind_Panicked; [reflexivity|].
      apply bind_Panicked. cbn [Go.for_from]. apply bind_Panicked.
      rewrite (bind_Return _ _ _ _ _ (index_Some _ _ _ _ Hm0)).
      apply bind_Panicked, Hout.
    + erewrite bind_Panicked; [reflexivity|].
      apply bind_Panicked. cbn [Go.for_from]. apply bind_Panicked.
      rewrite (bind_Return _ _ _ _ _ (index_Some _ _ _ _ Hm0)).
      rewrite (bind_Return _ _ _ _ _ (index_Some _ _ _ _ Hm0)).
      apply bind_Panicked, Hout.
Qed.

Lemma Avg_of_nothing_witness :
  Avg [[]; []] [] = Return F64.nan /\
  Avg [[1]%float; []] [0%Z; 1%Z] = Return F64.nan /\
  Avg [[1]%float; []] [0%Z; (1 - Int.len [[1]%float; []])%Z]
  = Return F64.nan /\
  Avg [] [1%Z; 3%Z] = Return F64.nan /\
  Avg [] [0%Z; 3%Z] = Panicked IndexOutOfRange /\
  Avg [[]] [1%Z; 0%Z] = Panicked IndexOutOfRange.
Proof.
  split; [|split; [|split; [|split; [|split]]]].
  - destruct (Avg_of_nothing [[]; []]) as (_ & H & _).
    apply H. repeat constructor.
  - destruct (Avg_of_nothing [[1]%float; []]) as (_ & _ & H & _).
    apply H; [lia | reflexivity].
  - destruct (Avg_of_nothing [[1]%float; []]) as (_ & _ & _ & H & _).
    apply H; [unfold Int.len, Int.max_int; simpl; lia
             | unfold Int.len; simpl; lia | reflexivity].
  - destruct (Avg_of_nothing []) as (_ & _ & _ & _ & H & _).
    apply H. reflexivity.
  - destruct (Avg_of_nothing []) as (_ & _ & _ & _ & _ & H & _).
    apply H. reflexivity.
  - destruct (Avg_of_nothing [[]]) as (_ & _ & _ & _ & _ & _ & H).
    apply H. reflexivity.
Defined.

(** ** Allocation *)

Lemma make_nonneg {St A} (zero : A) (n : nat) (s : St) :
  make zero (Z.of_nat n) s = (Return (replicate n zero), s).
Proof.
  unfold make. destruct (Z.ltb_spec (Z.of_nat n) 0); [lia|].
  rewrite Nat2Z.id. reflexivity.
Qed.

Lemma set_row_lt (t : Grid) i row :
  i < length t -> set_row i row t = (Return tt, <[i := row]> t).
Proof.
  intros Hi. unfold set_row, Go.bind, Go.get.
  destruct (decide (i < length t)); [reflexivity | lia].
Qed.

(** [New(r, c)] is the grid of [r] rows of [c] zeros. *)
Lemma New_rows_columns (r c : nat) :
  New [Z.of_nat r; Z.of_nat c] = Return (replicate r (replicate c F64.zero)).
Proof.
  unfold New, Go.run.
  rewrite (bind_Return _ _ _ _ _ (make_nonneg _ _ _)).
  rewrite (bind_Return (Go.put _) _ _ tt (replicate r []) eq_refl).
  rewrite length_replicate.
  destruct (for_from_invariant
              (fun k (t : Grid) =>
                 length t = r /\
                 forall a, a < k -> t !! a = Some (replicate c F64.zero))
              (fun i => do row <- make F64.zero (Z.of_nat c); set_row i row)
              r 0 (replicate r []))
    as (t & Hrun & Hlen & Hrows).
  { split; [apply length_replicate | intros a Ha; lia]. }
  { intros k t Hk [Hlen Hrows]. eexists. split.
    - rewrite (bind_Return _ _ _ _ _ (make_nonneg _ _ _)).
      apply set_row_lt. lia.
    - split; [rewrite length_insert; exact Hlen|].
      intros a Ha. destruct (decide (a = k)) as [->|Hne].
      + apply list_lookup_insert_eq. lia.
      + rewrite list_lookup_insert_ne by auto. apply Hrows. lia. }
  unfold Go.for_range. rewrite (bind_Return _ _ _ _ _ Hrun). simpl.
  f_equal. apply list_eq. intros a.
  destruct (decide (a < r)) as [Ha|Ha].
  - rewrite lookup_replicate_2 by exact Ha. apply Hrows. exact Ha.
  - rewrite !lookup_ge_None_2; [reflexivity | |];
      rewrite ?length_replicate; lia.
Qed.

Lemma rect_replicate (r c : nat) (x : float64) :
  rect (replicate r (replicate c x)) r c.
Proof.
  apply rect_lengths. rewrite fmap_replicate, length_replicate. reflexivity.
Qed.

Lemma rect_upd2 (t : Grid) r c i j y : rect t r c -> rect (upd2 t i j y) r c.
Proof. rewrite !rect_lengths, lengths_upd2. auto. Qed.

(** Two rectangular grids of the same counts and cells are equal. *)
Lemma rect_ext (t u : Grid) r c :
  rect t r c -> rect u r c ->
  (forall a b, a < r -> b < c -> at2 t a b = at2 u a b) ->
  t = u.
Proof.
  intros Ht Hu Hc. apply grid_ext; [eapply rect_same_lengths; eauto|].
  intros a b. destruct (decide (a < r /\ b < c)) as [[Ha Hb]|Hn]; [auto|].
  assert (Ht' : at2 t a b = None)
    by (apply eq_None_not_Some; rewrite (rect_at2 _ _ _ _ _ Ht); exact Hn).
  assert (Hu' : at2 u a b = None)
    by (apply eq_None_not_Some; rewrite (rect_at2 _ _ _ _ _ Hu); exact Hn).
  congruence.
Qed.

(** ** Transpose *)

(** [T] of a grid with a row and rectangular: the cells of [m], swapped. *)
Lemma T_rect (m : Grid) (r c : nat) :
  rect m r c -> 0 < r ->
  exists n,
    T m = Return n /\ rect n c r /\
    forall a b, a < r -> b < c -> at2 n b a = at2 m a b.
Proof.
  intros Hm Hr. pose proof Hm as [Hlen _].
  destruct (lookup_lt_is_Some_2 m 0) as [m0 Hm0]; [lia|].
  pose proof (rect_lookup _ _ _ _ _ Hm Hm0) as Hm0len.
  set (inner := fun i j : nat =>
         fun mi : list float64 => do x <- Go.index mi j; store j i x).
  set (P := fun (i j : nat) (t : Grid) =>
         rect t c r /\
         forall a b, (a < i /\ b < c) \/ (a = i /\ b < j) ->
                     at2 t b a = at2 m a b).
  destruct (for_from_invariant (fun i t => P i 0 t)
              (fun i => do mi <- Go.index m i;
                        Go.for_range (length mi) (fun j => inner i j mi))
              (length m) 0 (replicate c (replicate r F64.zero)))
    as (n & Hrun & Hn & Hcells).
  { split; [apply rect_replicate | intros a b [[? _]|[_ ?]]; lia]. }
  { intros i t Hi Ht.
    destruct (lookup_lt_is_Some_2 m i) as [mi Hmi]; [lia|].
    pose proof (rect_lookup _ _ _ _ _ Hm Hmi) as Hmilen.
    destruct (for_from_invariant (fun j t => P i j t)
                (fun j => inner i j mi) (length mi) 0 t Ht)
      as (t' & Hrun' & Ht' & Hcells').
    { intros j u Hj [Hu Hcu].
      destruct (lookup_lt_is_Some_2 mi j) as [x Hx]; [lia|].
      assert (Hux : is_Some (at2 u j i))
        by (apply (rect_at2 _ _ _ _ _ Hu); lia).
      destruct Hux as [x0 Hx0].
      exists (upd2 u j i x). split.
      - unfold inner. rewrite (bind_Return _ _ _ _ _ (index_Some _ _ _ _ Hx)).
        eapply store_Some, Hx0.
      - split; [apply rect_upd2, Hu|].
        intros a b Hab. rewrite (at2_upd2 _ _ _ _ _ _ _ Hx0).
        destruct (decide (b = j /\ a = i)) as [[-> ->]|Hne].
        + unfold at2. rewrite Hmi. symmetry. exact Hx.
        + apply Hcu. destruct Hab as [Hab|[-> Hb]]; [left; exact Hab|].
          right. split; [reflexivity|].
          destruct (decide (b = j)) as [->|]; [|lia].
          exfalso. apply Hne. auto. }
    exists t'. split.
    - rewrite (bind_Return _ _ _ _ _ (index_Some _ _ _ _ Hmi)). exact Hrun'.
    - split; [exact Ht'|]. intros a b [[Ha Hb]|[_ Hb]]; [|lia].
      apply Hcells'. destruct (decide (a = i)) as [->|].
      + right. split; [reflexivity | lia].
      + left. lia. }
  exists n. split; [|split; [exact Hn|]].
  - subst inner. cbv beta in Hrun. unfold T, Go.run.
    rewrite (bind_Return _ _ _ _ _ (index_Some _ _ _ _ Hm0)).
    unfold Int.len. rewrite Hm0len, Hlen, New_rows_columns.
    rewrite (bind_Return (Go.call _) _ _ _ [] eq_refl).
    rewrite (bind_Return (Go.put _) _ _ tt
               (replicate c (replicate r F64.zero)) eq_refl).
    rewrite Hlen in Hrun. unfold Go.for_range.
    rewrite (bind_Return _ _ _ _ _ Hrun). reflexivity.
  - intros a b Ha Hb. apply Hcells. left. lia.
Qed.

(** C6, as stated, fails: [T] panics on the grid with no row, and on a
    grid with a row but no column it returns the grid with no row, so that
    the second [T] panics. *)
Lemma T_of_empty_panics :
  T [] = Panicked IndexOutOfRange /\
  T [[]] = Return [] /\
  T [[]; []] = Return [].
Proof. repeat split; vm_compute; reflexivity. Qed.

(** C6, amended: for every rectangular grid [m] with at least one row and
    at least one column, [T(m)] is defined, has the counts of [m] swapped,
    and [T(T(m))] is defined and is [m]: the same row and column counts, the
    same cells. *)
Theorem T_involutive (m : Grid) (r c : nat) :
  rect m r c -> 0 < r -> 0 < c ->
  exists n, T m = Return n /\ rect n c r /\ T n = Return m.
Proof.
  intros Hm Hr Hc.
  destruct (T_rect m r c Hm Hr) as (n & HT & Hn & Hcells).
  exists n. split; [exact HT|]. split; [exact Hn|].
  destruct (T_rect n c r Hn Hc) as (m' & HT' & Hm' & Hcells').
  rewrite HT'. f_equal. apply (rect_ext _ _ r c Hm' Hm).
  intros a b Ha Hb. rewrite Hcells' by assumption. apply Hcells; assumption.
Qed.

Lemma T_involutive_witness :
  exists n,
    T [[1; 2; 3]; [4; 5; 6]]%float = Return n /\
    rect n 3 2 /\
    T n = Return [[1; 2; 3]; [4; 5; 6]]%float.
Proof.
  apply (T_involutive [[1; 2; 3]; [4; 5; 6]]%float 2 3).
  - split; [reflexivity | repeat constructor].
  - lia.
  - lia.
Defined.

(** ** Matrix product *)

Section DotLoops.
Variables (m n : Grid) (r k c : nat).
Hypothesis Hm : rect m r k.
Hypothesis Hn : rect n k c.

Lemma dot_state_start :
  dot_state m n r k c 0 0 0 (replicate r (replicate c F64.zero)).
Proof.
  split; [apply rect_replicate|]. intros a b Ha Hb.
  unfold at2. rewrite lookup_replicate_2 by exact Ha.
  rewrite lookup_replicate_2 by exact Hb. f_equal.
  unfold dot_progress. repeat case_decide; try lia; reflexivity.
Qed.

Lemma dot_state_next_cell i j t :
  dot_state m n r k c i j k t -> dot_state m n r k c i (S j) 0 t.
Proof.
  intros [Ht Hc]. split; [exact Ht|]. intros a b Ha Hb.
  rewrite (Hc a b Ha Hb). f_equal. unfold dot_progress.
  repeat case_decide; try lia; reflexivity.
Qed.

Lemma dot_state_next_row i t :
  dot_state m n r k c i c 0 t -> dot_state m n r k c (S i) 0 0 t.
Proof.
  intros [Ht Hc]. split; [exact Ht|]. intros a b Ha Hb.
  rewrite (Hc a b Ha Hb). f_equal. unfold dot_progress.
  repeat case_decide; try lia; reflexivity.
Qed.

Lemma dot_state_step i j kk t mi :
  i < r -> j < c -> kk < k -> m !! i = Some mi ->
  dot_state m n r k c i j kk t ->
  exists t',
    (do acc <- load i j;
     do x <- Go.index mi kk;
     do nk <- Go.index n kk;
     do y <- Go.index nk j;
     store i j (F64.add acc (F64.mul x y))) t = (Return tt, t') /\
    dot_state m n r k c i j (S kk) t'.
Proof.
  intros Hi Hj Hkk Hmi [Ht Hc].
  pose proof (Hc i j Hi Hj) as Hacc.
  destruct (lookup_lt_is_Some_2 mi kk) as [x Hx].
  { rewrite (rect_lookup _ _ _ _ _ Hm Hmi). exact Hkk. }
  destruct (lookup_lt_is_Some_2 n kk) as [nk Hnk].
  { destruct Hn as [-> _]. exact Hkk. }
  destruct (lookup_lt_is_Some_2 nk j) as [y Hy].
  { rewrite (rect_lookup _ _ _ _ _ Hn Hnk). exact Hj. }
  eexists. split.
  - rewrite (bind_Return _ _ _ _ _ (load_Some _ _ _ _ Hacc)).
    rewrite (bind_Return _ _ _ _ _ (index_Some _ _ _ _ Hx)).
    rewrite (bind_Return _ _ _ _ _ (index_Some _ _ _ _ Hnk)).
    rewrite (bind_Return _ _ _ _ _ (index_Some _ _ _ _ Hy)).
    eapply store_Some, Hacc.
  - split; [apply rect_upd2, Ht|]. intros a b Ha Hb.
    rewrite (at2_upd2 _ _ _ _ _ _ _ Hacc).
    destruct (decide (a = i /\ b = j)) as [[-> ->]|Hne].
    + f_equal. unfold dot_progress.
      repeat case_decide; try lia.
      unfold dot_cell. simpl. f_equal. unfold entry, at2.
      rewrite Hmi, Hx, Hnk, Hy. reflexivity.
    + rewrite (Hc a b Ha Hb). f_equal. unfold dot_progress.
      repeat case_decide; try lia; try reflexivity; tauto.
Qed.

(** The three loops of [Dot], from the zero grid. *)
Lemma Dot_loops :
  0 < k ->
  exists t,
    Go.for_from
      (fun i =>
         do n0 <- Go.index n 0;
         Go.for_range (length n0) (fun j =>
           do mi <- Go.index m i;
           Go.for_range (length mi) (fun kk =>
             do acc <- load i j;
             do x <- Go.index mi kk;
             do nk <- Go.index n kk;
             do y <- Go.index nk j;
             store i j (F64.add acc (F64.mul x y)))))
      0 r (replicate r (replicate c F64.zero))
    = (Return tt, t) /\
    dot_state m n r k c r 0 0 t.
Proof.
  intros Hk.
  destruct (lookup_lt_is_Some_2 n 0) as [n0 Hn0].
  { destruct Hn as [-> _]. exact Hk. }
  pose proof (rect_lookup _ _ _ _ _ Hn Hn0) as Hn0len.
  apply (for_from_invariant (fun i t => dot_state m n r k c i 0 0 t)
           _ r 0 _ dot_state_start).
  intros i t Hi Ht.
  destruct (lookup_lt_is_Some_2 m i) as [mi Hmi].
  { destruct Hm as [-> _]. lia. }
  pose proof (rect_lookup _ _ _ _ _ Hm Hmi) as Hmilen.
  rewrite (bind_Return _ _ _ _ _ (index_Some _ _ _ _ Hn0)).
  unfold Go.for_range. rewrite Hn0len.
  destruct (for_from_invariant (fun j t => dot_state m n r k c i j 0 t)
              (fun j =>
                 do mi <- Go.index m i;
                 Go.for_from (fun kk =>
                   do acc <- load i j;
                   do x <- Go.index mi kk;
                   do nk <- Go.index n kk;
                   do y <- Go.index nk j;
                   store i j (F64.add acc (F64.mul x y))) 0 (length mi))
              c 0 t Ht)
    as (t' & Hrun & Ht').
  { intros j u Hj Hu.
    rewrite (bind_Return _ _ _ _ _ (index_Some _ _ _ _ Hmi)).
    rewrite Hmilen.
    destruct (for_from_invariant
                (fun kk t => dot_state m n r k c i j kk t)
                (fun kk =>
                   do acc <- load i j;
                   do x <- Go.index mi kk;
                   do nk <- Go.index n kk;
                   do y <- Go.index nk j;
                   store i j (F64.add acc (F64.mul x y)))
                k 0 u Hu)
      as (u' & Hrun' & Hu').
    { intros kk v Hkk Hv. apply dot_state_step; auto; lia. }
    exists u'. split; [exact Hrun' | apply dot_state_next_cell, Hu']. }
  exists t'. split; [exact Hrun | apply dot_state_next_row, Ht'].
Qed.
End DotLoops.

(** C7, as stated, fails at [k = 0]: the operand with no row has no first
    row to take the column count from, and [Dot] panics. *)
Lemma Dot_inner_zero_panics :
  rect [[]; []] 2 0 /\ rect [] 0 3 /\
  Dot [[]; []] [] = Panicked IndexOutOfRange.
Proof.
  split; [split; [reflexivity | repeat constructor]|].
  split; [split; [reflexivity | constructor]|].
  vm_compute. reflexivity.
Qed.

(** C7, amended: for rectangular grids [A] of [r] rows and [k] columns and
    [B] of [k] rows and [c] columns with [k >= 1], [Dot(A, B)] returns,
    without a panic, a grid of [r] rows and [c] columns whose cell [(i, j)] is
    the float64 sum over [t = 0 .. k-1], added in that order onto [0.0], of
    [A[i][t] * B[t][j]].  [Dot] writes to the grid it allocates only: [A] and
    [B] are read. *)
Theorem Dot_cells (A B : Grid) (r k c : nat) :
  rect A r k -> rect B k c -> 0 < k ->
  exists C,
    Dot A B = Return C /\
    rect C r c /\
    forall i j, i < r -> j < c -> at2 C i j = Some (dot_cell A B k i j).
Proof.
  intros HA HB Hk.
  destruct (Dot_loops A B r k c HA HB Hk) as (t & Hrun & Ht & Hcells).
  exists t. split; [|split; [exact Ht|]].
  - destruct (lookup_lt_is_Some_2 B 0) as [n0 Hn0].
    { destruct HB as [-> _]. exact Hk. }
    pose proof (rect_lookup _ _ _ _ _ HB Hn0) as Hn0len.
    pose proof HA as [Hlen _].
    unfold Dot, Go.run.
    rewrite (bind_Return _ _ _ _ _ (index_Some _ _ _ _ Hn0)).
    unfold Int.len. rewrite Hn0len, Hlen, New_rows_columns.
    rewrite (bind_Return (Go.call _) _ _ _ [] eq_refl).
    rewrite (bind_Return (Go.put _) _ _ tt
               (replicate r (replicate c F64.zero)) eq_refl).
    unfold Go.for_range.
    rewrite (bind_Return _ _ _ _ _ Hrun). reflexivity.
  - intros i j Hi Hj. rewrite (Hcells i j Hi Hj). f_equal.
    unfold dot_progress. repeat case_decide; try lia; reflexivity.
Qed.

Lemma Dot_cells_witness :
  exists C,
    Dot [[1; 2]; [3; 4]]%float [[5; 6]; [7; 8]]%float = Return C /\
    rect C 2 2 /\
    forall i j, i < 2 -> j < 2 ->
      at2 C i j
      = Some (dot_cell [[1; 2]; [3; 4]]%float [[5; 6]; [7; 8]]%float 2 i j).
Proof.
  apply (Dot_cells [[1; 2]; [3; 4]]%float [[5; 6]; [7; 8]]%float 2 2 2).
  - split; [reflexivity | repeat constructor].
  - split; [reflexivity | repeat constructor].
  - lia.
Defined.

(** ** The reducer factory *)

Lemma upd2_same (m : Grid) i j x : at2 m i j = Some x -> upd2 m i j x = m.
Proof.
  intros (row & Hr & Hx)%at2_Some. unfold upd2. rewrite Hr.
  rewrite (list_insert_id row j x Hx). apply list_insert_id, Hr.
Qed.

Lemma on_grid_Return {A} (c : go Grid A) (a : float64) (m m' : Grid) x :
  c m = (Return x, m') -> on_grid c (a, m) = (Return x, (a, m')).
Proof. unfold on_grid. simpl. intros ->. reflexivity. Qed.

Section ReducerLoops.
Variable h : float64 -> float64 -> float64.

Lemma apply_into_first (m : Grid) (acc : float64) i j x :
  at2 m i j = Some x ->
  apply_BinaryFn (into_first h) i j (acc, m) = (Return tt, (h acc x, m)).
Proof.
  intros Hx. unfold apply_BinaryFn.
  rewrite (bind_Return _ _ _ _ _
             (on_grid_Return _ _ _ _ _ (load_Some _ _ _ _ Hx))).
  rewrite (bind_Return Go.get _ _ _ _ eq_refl).
  rewrite (bind_Return (Go.put _) _ _ tt (h acc x, m) eq_refl).
  simpl. erewrite on_grid_Return by (eapply store_Some, Hx).
  rewrite (upd2_same _ _ _ _ Hx). reflexivity.
Qed.

(** One invocation folds the cells, row after row, onto the captured
    variable, and leaves the result in it. *)
Lemma invoke_into_first (a : float64) (m : Grid) :
  invoke (Closure a (into_first h)) m
  = (Return (fold_left h (concat m) a),
     Closure (fold_left h (concat m) a) (into_first h), m).
Proof.
  unfold invoke, reducer_body. simpl.
  rewrite (bind_Return Go.get _ _ _ _ eq_refl). simpl.
  destruct (for_from_invariant
              (fun i (s : reducer_store) =>
                 s = (fold_left h (concat (take i m)) a, m))
              (fun i =>
                 do row <- on_grid (row_at i);
                 Go.for_range (length row) (fun j =>
                   apply_BinaryFn (into_first h) i j))
              (length m) 0 (a, m) eq_refl)
    as (t & Hrun & ->).
  { intros i s Hi ->.
    destruct (lookup_lt_is_Some_2 m i) as [mi Hmi]; [lia|].
    eexists. split.
    - rewrite (bind_Return _ _ _ _ _
                 (on_grid_Return (row_at i) _ _ _ _
                    (index_Some _ _ _ _ Hmi))).
      destruct (for_from_invariant
                  (fun j (s : reducer_store) =>
                     s = (fold_left h (take j mi)
                            (fold_left h (concat (take i m)) a), m))
                  (fun j => apply_BinaryFn (into_first h) i j)
                  (length mi) 0 _ eq_refl)
        as (u & Hrun & ->); [|exact Hrun].
      intros j s Hj ->.
      destruct (lookup_lt_is_Some_2 mi j) as [x Hx]; [lia|].
      eexists. split.
      + apply apply_into_first. unfold at2. rewrite Hmi. exact Hx.
      + rewrite (take_S_r _ _ _ Hx), fold_left_app. reflexivity.
    - simpl. rewrite firstn_all.
      rewrite (take_S_r _ _ _ Hmi), concat_app, fold_left_app. simpl.
      rewrite app_nil_r. reflexivity. }
  unfold Go.for_range. rewrite (bind_Return _ _ _ _ _ Hrun).
  simpl. rewrite firstn_all. reflexivity.
Qed.
End ReducerLoops.

(** C1 does not hold of the code.  The closure folds onto the variable
    [initialValue] it captured and never resets it: a first invocation
    returns the row-major fold of [m] from [a], a second one the fold of
    [m] from that result.  For the sum reducer of the documentation, from 0,
    on the 1x1 grid [[1]], the two successive invocations return 1 and then
    2. *)
Theorem NewReducer_second_call_accumulates :
  (forall (a : float64) (h : float64 -> float64 -> float64) (m : Grid),
     invoke_twice (NewReducer a (into_first h)) m
     = (Return (fold_left h (concat m) a),
        Return (fold_left h (concat m) (fold_left h (concat m) a)))) /\
  invoke_twice (NewReducer 0%float plus_into) [[1%float]]
  = (Return 1%float, Return 2%float) /\
  F64.eqb 1%float 2%float = false.
Proof.
  split; [|split; vm_compute; reflexivity].
  intros a h m. unfold invoke_twice, NewReducer.
  rewrite invoke_into_first, invoke_into_first. reflexivity.
Qed.

(** * Further properties of the package *)

(** ** Computations that agree *)

Lemma bind_ext {St A B} (c c' : go St A) (k k' : A -> go St B) s :
  c s = c' s ->
  (forall a s', c' s = (Return a, s') -> k a s' = k' a s') ->
  Go.bind c k s = Go.bind c' k' s.
Proof.
  intros Hc Hk. unfold Go.bind. rewrite Hc.
  destruct (c' s) as [[a|p] s']; [apply Hk|]; reflexivity.
Qed.

Lemma run_ext {St A} (c c' : go St A) s :
  c s = c' s -> Go.run c s = Go.run c' s.
Proof. intros H. unfold Go.run. rewrite H. reflexivity. Qed.

Lemma index_inv {St A} (l : list A) i a (s s' : St) :
  Go.index l i s = (Return a, s') -> l !! i = Some a.
Proof.
  unfold Go.index. destruct (l !! i); [|discriminate].
  unfold Go.ret. intros [= ->]. reflexivity.
Qed.

(** ** New and I *)

Lemma alloc_make_within {St A} (size : Z) (zero : A) (n : nat) (s : St) :
  (size * Z.of_nat n <= Alloc.maxAlloc)%Z ->
  Alloc.make size zero (Z.of_nat n) s = (Return (replicate n zero), s).
Proof.
  intros H. unfold Alloc.make.
  destruct (Z.ltb_spec (Z.of_nat n) 0); [lia|].
  destruct (Z.ltb_spec Alloc.maxAlloc (size * Z.of_nat n)); [lia|].
  simpl. rewrite Nat2Z.id. reflexivity.
Qed.

Lemma alloc_make_refused {St A} (size : Z) (zero : A) (n : int) (s : St) :
  (n < 0 \/ Alloc.maxAlloc < size * n)%Z ->
  Alloc.make size zero n s = (Panicked MakesliceLenOutOfRange, s).
Proof.
  intros H. unfold Alloc.make.
  destruct (Z.ltb_spec n 0); [reflexivity|].
  destruct (Z.ltb_spec Alloc.maxAlloc (size * n)); [reflexivity | lia].
Qed.

(** Under the run time's limit, [New] at counts that the caller chose is
    [New] at the lengths of slices. *)
Lemma alloc_New_within (r c : nat) :
  (Alloc.slice_size * Z.of_nat r <= Alloc.maxAlloc)%Z ->
  (Alloc.float64_size * Z.of_nat c <= Alloc.maxAlloc)%Z ->
  Alloc.New [Z.of_nat r; Z.of_nat c] = New [Z.of_nat r; Z.of_nat c].
Proof.
  intros Hr Hc. unfold Alloc.New, New. apply run_ext.
  apply bind_ext.
  { rewrite alloc_make_within by exact Hr. symmetry. apply make_nonneg. }
  intros m s _. apply bind_ext; [reflexivity|]. intros [] s1 _.
  apply bind_ext; [|reflexivity].
  unfold Go.for_range. apply for_from_ext. intros k t _.
  apply bind_ext; [|reflexivity].
  rewrite alloc_make_within by exact Hc. symmetry. apply make_nonneg.
Qed.

Lemma alloc_New_rows_columns (r c : nat) :
  (Alloc.slice_size * Z.of_nat r <= Alloc.maxAlloc)%Z ->
  (Alloc.float64_size * Z.of_nat c <= Alloc.maxAlloc)%Z ->
  Alloc.New [Z.of_nat r; Z.of_nat c]
  = Return (replicate r (replicate c F64.zero)).
Proof.
  intros Hr Hc. rewrite (alloc_New_within r c Hr Hc).
  apply New_rows_columns.
Qed.

(** [New(r)] runs the code of [New(r, r)]. *)
Lemma alloc_New_square (r : nat) :
  (Alloc.slice_size * Z.of_nat r <= Alloc.maxAlloc)%Z ->
  Alloc.New [Z.of_nat r] = Return (replicate r (replicate r F64.zero)).
Proof.
  intros Hr.
  change (Alloc.New [Z.of_nat r])
    with (Alloc.New [Z.of_nat r; Z.of_nat r]).
  apply alloc_New_rows_columns; [exact Hr|].
  unfold Alloc.slice_size, Alloc.float64_size in *. lia.
Qed.

Lemma alloc_New_refused_rows (r c : int) :
  (r < 0 \/ Alloc.maxAlloc < Alloc.slice_size * r)%Z ->
  Alloc.New [r; c] = Panicked MakesliceLenOutOfRange.
Proof.
  intros Hr. unfold Alloc.New, Go.run.
  rewrite (bind_Panicked _ _ _ _ _ (alloc_make_refused _ _ _ _ Hr)).
  reflexivity.
Qed.

Lemma alloc_New_refused_columns (r c : int) :
  (0 < r)%Z -> (Alloc.slice_size * r <= Alloc.maxAlloc)%Z ->
  (c < 0 \/ Alloc.maxAlloc < Alloc.float64_size * c)%Z ->
  Alloc.New [r; c] = Panicked MakesliceLenOutOfRange.
Proof.
  intros Hr Hfit Hc. unfold Alloc.New, Go.run.
  replace r with (Z.of_nat (S (Z.to_nat (r - 1)))) in * by lia.
  rewrite (bind_Return _ _ _ _ _ (alloc_make_within _ _ _ _ Hfit)).
  rewrite (bind_Return (Go.put _) _ _ tt _ eq_refl).
  rewrite length_replicate. unfold Go.for_range. cbn [Go.for_from].
  rewrite (bind_Panicked _ _ _ MakesliceLenOutOfRange
             (replicate (S (Z.to_nat (r - 1))) [])); [reflexivity|].
  apply bind_Panicked, bind_Panicked, alloc_make_refused, Hc.
Qed.

(** X1: [New] with one count [r >= 0] returns the [r] by [r] grid of zeros
    and with two counts [r, c >= 0] the [r] by [c] one, when the run time
    accepts the counts: [r] slice headers of 24 bytes, and [c] values of 8
    bytes, within its limit of [2^48] bytes, where it is the same grid as
    [T] and [Dot] get from [New].  With no count or more than two, [New]
    panics with its own message, which holds the number received.  A row
    count that is negative or over the limit, or such a column count when
    there is a row to allocate, is the run time's allocation panic; with no
    row to allocate the column count is never looked at. *)
Theorem New_behaviour :
  (forall r : nat,
     (Alloc.slice_size * Z.of_nat r <= Alloc.maxAlloc)%Z ->
     Alloc.New [Z.of_nat r] = Return (replicate r (replicate r F64.zero))) /\
  (forall r c : nat,
     (Alloc.slice_size * Z.of_nat r <= Alloc.maxAlloc)%Z ->
     (Alloc.float64_size * Z.of_nat c <= Alloc.maxAlloc)%Z ->
     Alloc.New [Z.of_nat r; Z.of_nat c]
     = Return (replicate r (replicate c F64.zero)) /\
     Alloc.New [Z.of_nat r; Z.of_nat c] = New [Z.of_nat r; Z.of_nat c]) /\
  (forall dims : list int,
     length dims <> 1 -> length dims <> 2 ->
     Alloc.New dims = Panicked (Message (New_message (length dims)))) /\
  (forall r : int,
     (r < 0 \/ Alloc.maxAlloc < Alloc.slice_size * r)%Z ->
     Alloc.New [r] = Panicked MakesliceLenOutOfRange) /\
  (forall r c : int,
     (r < 0 \/ Alloc.maxAlloc < Alloc.slice_size * r)%Z \/
     (0 < r /\ (c < 0 \/ Alloc.maxAlloc < Alloc.float64_size * c))%Z ->
     Alloc.New [r; c] = Panicked MakesliceLenOutOfRange) /\
  (forall c : int, Alloc.New [0%Z; c] = Return []).
Proof.
  split; [exact alloc_New_square|]. split; [|split; [|split; [|split]]].
  - intros r c Hr Hc. split.
    + apply alloc_New_rows_columns; assumption.
    + apply alloc_New_within; assumption.
  - intros dims H1 H2.
    destruct dims as [|a [|b [|c l]]]; simpl in H1, H2; try lia; reflexivity.
  - intros r Hr. change (Alloc.New [r]) with (Alloc.New [r; r]).
    apply alloc_New_refused_rows, Hr.
  - intros r c [Hr|[Hr Hc]]; [apply alloc_New_refused_rows, Hr|].
    destruct (Z.le_gt_cases (Alloc.slice_size * r) Alloc.maxAlloc)
      as [Hfit|Hbig].
    + apply alloc_New_refused_columns; assumption.
    + apply alloc_New_refused_rows. right. lia.
  - intros c. reflexivity.
Qed.

Lemma New_behaviour_witness :
  Alloc.New [Z.of_nat 2; Z.of_nat 3]
  = Return (replicate 2 (replicate 3 F64.zero)) /\
  Alloc.New [3%Z; 4%Z; 5%Z] = Panicked (Message (New_message 3)) /\
  Alloc.New [(-1)%Z] = Panicked MakesliceLenOutOfRange /\
  Alloc.New [(2 ^ 62)%Z] = Panicked MakesliceLenOutOfRange /\
  Alloc.New [1%Z; (2 ^ 62)%Z] = Panicked MakesliceLenOutOfRange.
Proof.
  destruct New_behaviour as (_ & H0 & Hn & H1 & H2 & _).
  split; [apply H0; vm_compute; discriminate|].
  split; [apply Hn; simpl; lia|].
  split; [apply H1; lia|].
  split; [apply H1; right; vm_compute; reflexivity|].
  apply H2. right. split; [lia|]. right. vm_compute. reflexivity.
Defined.

(** X2: [I(n)], for a count [n >= 0] that the run time accepts, [n] slice
    headers of 24 bytes within its limit of [2^48] bytes, is the [n] by [n]
    grid with [1.0] on the diagonal and [0.0] elsewhere; for an [n] that is
    negative or over that limit it is the run time's allocation panic. *)
Theorem I_cells :
  (forall n : nat,
     (Alloc.slice_size * Z.of_nat n <= Alloc.maxAlloc)%Z ->
     exists g,
       I (Z.of_nat n) = Return g /\ rect g n n /\
       forall i j, i < n -> j < n ->
         at2 g i j = Some (if decide (i = j) then F64.one else F64.zero)) /\
  (forall x : int,
     (x < 0 \/ Alloc.maxAlloc < Alloc.slice_size * x)%Z ->
     I x = Panicked MakesliceLenOutOfRange).
Proof.
  split.
  - intros n Hn.
    destruct (for_from_invariant
                (fun k (t : Grid) =>
                   rect t n n /\
                   forall i j, i < n -> j < n ->
                     at2 t i j
                     = Some (if decide (i = j /\ i < k)
                             then F64.one else F64.zero))
                (fun i => store i i F64.one)
                n 0 (replicate n (replicate n F64.zero)))
      as (g & Hrun & Hg & Hcells).
    { split; [apply rect_replicate|]. intros i j Hi Hj.
      unfold at2. rewrite !lookup_replicate_2 by assumption.
      case_decide; [lia | reflexivity]. }
    { intros k t Hk [Ht Hc].
      pose proof (Hc k k ltac:(lia) ltac:(lia)) as Hkk.
      exists (upd2 t k k F64.one). split; [eapply store_Some, Hkk|].
      split; [apply rect_upd2, Ht|]. intros i j Hi Hj.
      rewrite (at2_upd2 _ _ _ _ _ _ _ Hkk), (Hc i j Hi Hj).
      repeat case_decide; try lia; reflexivity. }
    exists g. split; [|split; [exact Hg|]].
    + unfold I, Go.run. rewrite (alloc_New_square n Hn).
      rewrite (bind_Return (Go.call _) _ _ _ [] eq_refl).
      rewrite (bind_Return (Go.put _) _ _ tt
                 (replicate n (replicate n F64.zero)) eq_refl).
      rewrite length_replicate. unfold Go.for_range.
      rewrite (bind_Return _ _ _ _ _ Hrun). reflexivity.
    + intros i j Hi Hj. rewrite (Hcells i j Hi Hj).
      repeat case_decide; try lia; reflexivity.
  - intros x Hx. unfold I.
    change (Alloc.New [x]) with (Alloc.New [x; x]).
    rewrite (alloc_New_refused_rows x x Hx). reflexivity.
Qed.

Lemma I_cells_witness :
  (exists g, I (Z.of_nat 2) = Return g /\ rect g 2 2) /\
  I (-2)%Z = Panicked MakesliceLenOutOfRange /\
  I (2 ^ 62)%Z = Panicked MakesliceLenOutOfRange.
Proof.
  destruct I_cells as [H0 H]. split; [|split].
  - destruct (H0 2) as (g & Hg & Hr & _); [vm_compute; discriminate|].
    exists g. split; [exact Hg | exact Hr].
  - apply H. lia.
  - apply H. right. vm_compute. reflexivity.
Defined.

(** ** Flatten *)

Lemma Flatten_returns (m : Grid) : Flatten m = Return (concat m).
Proof.
  unfold Flatten.
  destruct (for_from_invariant
              (fun k (n : Vector) => n = concat (take k m))
              (fun i => do mi <- Go.index m i; append_all mi)
              (length m) 0 [] eq_refl)
    as (t & Hrun & ->).
  { intros k t Hk ->. destruct (lookup_lt_is_Some_2 m k) as [mi Hmi]; [lia|].
    eexists. split.
    - rewrite (bind_Return _ _ _ _ _ (index_Some _ _ _ _ Hmi)). reflexivity.
    - rewrite (take_S_r _ _ _ Hmi), concat_app. simpl.
      rewrite app_nil_r. reflexivity. }
  unfold Go.run, Go.for_range. rewrite (bind_Return _ _ _ _ _ Hrun).
  simpl. rewrite firstn_all. reflexivity.
Qed.

(** X3: [Flatten] never panics, on a jagged grid either: it returns the rows
    one after the other, so that a grid of [r] rows of [c] values gives
    [r * c] values. *)
Theorem Flatten_concat (m : Grid) :
  Flatten m = Return (concat m) /\
  forall r c, rect m r c -> length (concat m) = r * c.
Proof.
  split; [apply Flatten_returns|].
  - intros r c [<- Hall]. induction Hall as [|row m Hrow Hall IH].
    + reflexivity.
    + simpl. rewrite length_app, IH, Hrow. reflexivity.
Qed.

(** ** Col and Row *)

Lemma store_vec_lt (v : Vector) i y :
  i < length v -> store_vec i y v = (Return tt, <[i := y]> v).
Proof.
  intros Hi. unfold store_vec, Go.bind, Go.get.
  destruct (decide (i < length v)); [reflexivity | lia].
Qed.

Lemma length_column (m : Grid) j : length (column m j) = length m.
Proof. unfold column. apply length_fmap. Qed.

(** The loop of [Col] at a column every row reaches. *)
Lemma Col_loop (m : Grid) r c (x : int) :
  rect m r c -> (0 <= x < Z.of_nat c)%Z ->
  Go.for_range (length m) (fun i =>
    do mi <- Go.index m i;
    do y <- index_int mi x;
    store_vec i y) (replicate r F64.zero)
  = (Return tt, column m (Z.to_nat x)).
Proof.
  intros Hm Hx. pose proof Hm as [Hlen _]. unfold Go.for_range.
  destruct (for_from_invariant
              (fun k (t : Vector) =>
                 length t = r /\
                 forall a, a < k -> t !! a = column m (Z.to_nat x) !! a)
              (fun i => do mi <- Go.index m i;
                        do y <- index_int mi x;
                        store_vec i y)
              (length m) 0 (replicate r F64.zero))
    as (t & Hrun & Ht & Hcells).
  { split; [apply length_replicate | intros a Ha; lia]. }
  { intros k t Hk [Ht Hc].
    destruct (lookup_lt_is_Some_2 m k) as [mi Hmi]; [lia|].
    destruct (lookup_lt_is_Some_2 mi (Z.to_nat x)) as [y Hy].
    { rewrite (rect_lookup _ _ _ _ _ Hm Hmi). lia. }
    exists (<[k := y]> t). split.
    - rewrite (bind_Return _ _ _ _ _ (index_Some _ _ _ _ Hmi)).
      rewrite (bind_Return _ _ _ _ _
                 (index_int_Some _ _ _ _ (proj1 Hx) Hy)).
      apply store_vec_lt. lia.
    - split; [rewrite length_insert; exact Ht|]. intros a Ha.
      destruct (decide (a = k)) as [->|Hne].
      + rewrite list_lookup_insert_eq by lia.
        unfold column. rewrite list_lookup_fmap, Hmi. simpl.
        rewrite Hy. reflexivity.
      + rewrite list_lookup_insert_ne by auto. apply Hc. lia. }
  rewrite Hrun. f_equal. apply list_eq. intros a.
  destruct (decide (a < length m)) as [Ha|Ha]; [apply Hcells; lia|].
  rewrite !lookup_ge_None_2; [reflexivity | rewrite length_column | ]; lia.
Qed.

Lemma Col_returns (m : Grid) (r c : nat) (j : int) :
  rect m r c -> (Z.of_nat c <= Int.max_int)%Z -> (0 <= j < Z.of_nat c)%Z ->
  Col m j = Return (column m (Z.to_nat j)) /\
  Col m (j - Z.of_nat c) = Return (column m (Z.to_nat j)).
Proof.
  intros Hm Hc Hj. pose proof Hm as [Hlen _].
  assert (Hmake : forall s : Vector,
            make F64.zero (Int.len m) s = (Return (replicate r F64.zero), s)).
  { intros s. unfold Int.len. rewrite Hlen. apply make_nonneg. }
  split.
  - unfold Col, Go.run. rewrite (bind_Return _ _ _ _ _ (Hmake _)).
    rewrite (bind_Return (Go.put _) _ _ tt (replicate r F64.zero) eq_refl).
    destruct (Z.leb_spec 0 j); [|lia].
    rewrite (bind_Return _ _ _ _ _ (Col_loop _ _ _ _ Hm Hj)). reflexivity.
  - unfold Col, Go.run. rewrite (bind_Return _ _ _ _ _ (Hmake _)).
    rewrite (bind_Return (Go.put _) _ _ tt (replicate r F64.zero) eq_refl).
    destruct (Z.leb_spec 0 (j - Z.of_nat c)); [lia|].
    assert (Hloop :
      Go.for_range (length m) (fun i =>
        do mi <- Go.index m i;
        do m0 <- Go.index m 0;
        do y <- index_int mi (Int.add (Int.len m0) (j - Z.of_nat c));
        store_vec i y) (replicate r F64.zero)
      = (Return tt, column m (Z.to_nat j))).
    { rewrite <- (Col_loop _ _ _ _ Hm Hj). apply for_from_ext.
      intros k t Hk.
      destruct (lookup_lt_is_Some_2 m k) as [mi Hmi]; [lia|].
      destruct (lookup_lt_is_Some_2 m 0) as [m0 Hm0]; [lia|].
      rewrite !(bind_Return _ _ _ _ _ (index_Some _ _ _ _ Hmi)).
      rewrite (bind_Return _ _ _ _ _ (index_Some _ _ _ _ Hm0)).
      pose proof (rect_lookup _ _ _ _ _ Hm Hm0) as Hl0.
      replace (Z.of_nat c) with (Int.len m0) by (unfold Int.len; lia).
      rewrite add_len_negative; [reflexivity | |]; unfold Int.len; lia. }
    rewrite (bind_Return _ _ _ _ _ Hloop). reflexivity.
Qed.

(** X4: on a rectangular grid of [c] columns, [c] fitting Go's [int],
    [Col(m, j)] for [0 <= j < c] returns column [j], one value per row, and
    [Col(m, j - c)] returns the same column. *)
Theorem Col_rect (m : Grid) (r c : nat) (j : int) :
  rect m r c -> (Z.of_nat c <= Int.max_int)%Z -> (0 <= j < Z.of_nat c)%Z ->
  Col m j = Return (column m (Z.to_nat j)) /\
  Col m (j - Z.of_nat c) = Return (column m (Z.to_nat j)) /\
  length (column m (Z.to_nat j)) = r /\
  forall i x, at2 m i (Z.to_nat j) = Some x ->
    column m (Z.to_nat j) !! i = Some x.
Proof.
  intros Hm Hc Hj. pose proof Hm as [Hlen _].
  destruct (Col_returns m r c j Hm Hc Hj) as [H1 H2].
  split; [exact H1|]. split; [exact H2|]. split.
  - rewrite length_column. exact Hlen.
  - intros i x (row & Hr & Hx)%at2_Some. unfold column.
    rewrite list_lookup_fmap, Hr. simpl. rewrite Hx. reflexivity.
Qed.

Lemma Col_rect_witness :
  Col [[1; 2]; [3; 4]]%float 1%Z
  = Return (column [[1; 2]; [3; 4]]%float (Z.to_nat 1)) /\
  Col [[1; 2]; [3; 4]]%float (1 - Z.of_nat 2)%Z
  = Return (column [[1; 2]; [3; 4]]%float (Z.to_nat 1)).
Proof.
  destruct (Col_rect [[1; 2]; [3; 4]]%float 2 2 1%Z) as (H1 & H2 & _).
  - split; [reflexivity | repeat constructor].
  - unfold Int.max_int. lia.
  - lia.
  - split; assumption.
Defined.

(** X5: [Col] on the grid with no row returns the empty vector whatever the
    index; on a rectangular grid with a row, an index of [c] or more, or
    below [-c], is the run time's index panic. *)
Theorem Col_edges :
  (forall x : int, Col [] x = Return []) /\
  (forall (m : Grid) (r c : nat) (x : int),
     rect m r c -> 0 < r ->
     (Z.of_nat c <= x \/ Int.min_int <= x < - Z.of_nat c)%Z ->
     Col m x = Panicked IndexOutOfRange).
Proof.
  split.
  - intros x. unfold Col. destruct (0 <=? x)%Z; reflexivity.
  - intros m r c x Hm Hr Hx. pose proof Hm as [Hlen _].
    destruct m as [|m0 rest]; [simpl in Hlen; lia|].
    assert (Hm0 : length m0 = c)
      by (eapply (rect_lookup _ _ _ 0); [exact Hm | reflexivity]).
    unfold Col, Go.run, Int.len.
    rewrite (bind_Return _ _ _ _ _ (make_nonneg _ _ _)).
    rewrite (bind_Return (Go.put _) _ _ tt _ eq_refl).
    unfold Go.for_range. cbn [length Go.for_from].
    destruct (Z.leb_spec 0 x) as [H0|H0].
    + assert (Hc : (Z.of_nat c <= x)%Z) by lia.
      rewrite (bind_Panicked _ _ _ IndexOutOfRange
                 (replicate (S (length rest)) F64.zero)); [reflexivity|].
      apply bind_Panicked.
      rewrite (bind_Return _ _ _ _ _
                 (index_Some (m0 :: rest) 0 m0 _ eq_refl)).
      apply bind_Panicked. unfold index_int.
      destruct (Z.ltb_spec x 0); [reflexivity|].
      apply index_None, lookup_ge_None_2. lia.
    + assert (Hc : (Int.min_int <= x < - Z.of_nat c)%Z) by lia.
      rewrite (bind_Panicked _ _ _ IndexOutOfRange
                 (replicate (S (length rest)) F64.zero)); [reflexivity|].
      apply bind_Panicked.
      rewrite !(bind_Return _ _ _ _ _
                  (index_Some (m0 :: rest) 0 m0 _ eq_refl)).
      apply bind_Panicked. unfold index_int, Int.add, Int.len.
      rewrite wrap_in_range.
      * destruct (Z.ltb_spec (Z.of_nat (length m0) + x) 0);
          [reflexivity | lia].
      * unfold Int.in_range, Int.min_int, Int.max_int in *. lia.
Qed.

Lemma Col_edges_witness :
  Col [[1; 2]]%float 2%Z = Panicked IndexOutOfRange /\
  Col [[1; 2]]%float (-3)%Z = Panicked IndexOutOfRange.
Proof.
  destruct Col_edges as [_ H].
  split; apply (H [[1; 2]]%float 1 2);
    try (split; [reflexivity | repeat constructor]); try lia;
    unfold Int.min_int; lia.
Defined.

(** [copy] into a vector of zeros. *)
Lemma copy_into_zeros (a : nat) (src : list float64) :
  copy src (replicate a F64.zero)
  = (Return tt,
     take a src ++ replicate (a - length src) F64.zero).
Proof.
  unfold copy, Go.modify. f_equal. rewrite length_replicate, drop_replicate.
  f_equal.
  - destruct (decide (a <= length src)).
    + rewrite Nat.min_l by lia. reflexivity.
    + rewrite Nat.min_r by lia. rewrite !take_ge by lia. reflexivity.
  - f_equal. lia.
Qed.

(** X6: [Row(m, x)] for a row index [0 <= x < len(m)] returns a vector as
    long as the first row of [m]: row [x] cut to that length, or filled up to
    it with [0.0].  On a rectangular grid that is row [x] itself.  The
    index [x - len(m)] gives the same vector. *)
Theorem Row_value (m : Grid) (m0 mx : list float64) (x : int) :
  m !! 0 = Some m0 -> (0 <= x)%Z -> m !! Z.to_nat x = Some mx ->
  (Int.len m <= Int.max_int)%Z ->
  Row m x
  = Return (take (length m0) mx
            ++ replicate (length m0 - length mx) F64.zero) /\
  Row m (x - Int.len m) = Row m x /\
  (length mx = length m0 -> Row m x = Return mx).
Proof.
  intros Hm0 Hx Hmx Hmax.
  assert (Hcopy : forall a,
            (do mx <- index_int m x; copy mx) (replicate a F64.zero)
            = (Return tt,
               take a mx ++ replicate (a - length mx) F64.zero)).
  { intros a.
    rewrite (bind_Return _ _ _ _ _ (index_int_Some _ _ _ _ Hx Hmx)).
    apply copy_into_zeros. }
  assert (Hrow : Row m x
                 = Return (take (length m0) mx
                           ++ replicate (length m0 - length mx) F64.zero)).
  { unfold Row, Go.run.
    rewrite (bind_Return _ _ _ _ _ (index_Some _ _ _ _ Hm0)).
    unfold Int.len at 1. rewrite (bind_Return _ _ _ _ _ (make_nonneg _ _ _)).
    rewrite (bind_Return (Go.put _) _ _ tt _ eq_refl).
    destruct (Z.leb_spec 0 x); [|lia].
    rewrite (bind_Return _ _ _ _ _ (Hcopy _)). reflexivity. }
  split; [exact Hrow|]. split.
  - rewrite Hrow. unfold Row, Go.run.
    rewrite (bind_Return _ _ _ _ _ (index_Some _ _ _ _ Hm0)).
    unfold Int.len at 1. rewrite (bind_Return _ _ _ _ _ (make_nonneg _ _ _)).
    rewrite (bind_Return (Go.put _) _ _ tt _ eq_refl).
    pose proof (lookup_lt_Some _ _ _ Hmx) as Hlt.
    destruct (Z.leb_spec 0 (x - Int.len m)); [unfold Int.len in *; lia|].
    rewrite add_len_negative by (unfold Int.len in *; lia).
    rewrite (bind_Return _ _ _ _ _ (Hcopy _)). reflexivity.
  - intros Hlen. rewrite Hrow, <- Hlen, Nat.sub_diag, firstn_all. simpl.
    rewrite app_nil_r. reflexivity.
Qed.

Lemma Row_value_witness :
  Row [[1; 2; 3]; [4]]%float 1%Z
  = Return (take (length [1; 2; 3]%float) [4]%float
            ++ replicate (length [1; 2; 3]%float - length [4]%float)
                 F64.zero) /\
  Row [[1; 2; 3]; [4]]%float (1 - Int.len [[1; 2; 3]; [4]]%float)%Z
  = Row [[1; 2; 3]; [4]]%float 1%Z.
Proof.
  destruct (Row_value [[1; 2; 3]; [4]]%float [1; 2; 3]%float [4]%float 1%Z)
    as (H1 & H2 & _).
  - reflexivity.
  - lia.
  - reflexivity.
  - unfold Int.len, Int.max_int. simpl. lia.
  - split; assumption.
Defined.

(** X7: [Row] on the grid with no row is the run time's index panic,
    whatever the index: the length of the result is read off the first
    row.  On a grid with a row, an index of [len(m)] or more is that
    panic too. *)
Theorem Row_edges :
  (forall x : int, Row [] x = Panicked IndexOutOfRange) /\
  (forall (m : Grid) (x : int),
     m <> [] -> (Int.len m <= x)%Z -> Row m x = Panicked IndexOutOfRange).
Proof.
  split; [reflexivity|].
  intros m x Hm Hx. destruct m as [|m0 rest]; [contradiction|].
  unfold Row, Go.run.
  rewrite (bind_Return _ _ _ _ _ (index_Some (m0 :: rest) 0 m0 _ eq_refl)).
  unfold Int.len at 1. rewrite (bind_Return _ _ _ _ _ (make_nonneg _ _ _)).
  rewrite (bind_Return (Go.put _) _ _ tt _ eq_refl).
  unfold Int.len in Hx. destruct (Z.leb_spec 0 x); [|lia].
  rewrite (bind_Panicked _ _ _ IndexOutOfRange
             (replicate (length m0) F64.zero)); [reflexivity|].
  apply bind_Panicked. unfold index_int.
  destruct (Z.ltb_spec x 0); [lia|].
  apply index_None, lookup_ge_None_2. lia.
Qed.

Lemma Row_edges_witness : Row [[1]]%float 1%Z = Panicked IndexOutOfRange.
Proof.
  destruct Row_edges as [_ H].
  apply H; [discriminate | unfold Int.len; simpl; lia].
Defined.

(** ** Rules for loops that can return *)

Section ReturnRules.
Context {St R : Type}.

(** A loop whose iterations leave the store alone is a search for the
    first iteration that returns. *)
Lemma for_from_return_pure (body : nat -> go St (option R))
    (f : nat -> option R) n :
  forall i s,
    (forall k, i <= k < i + n -> body k s = (Return (f k), s)) ->
    for_from_return body i n s = (Return (first_return f i n), s).
Proof.
  induction n as [|n IH]; intros i s H; [reflexivity|].
  simpl. rewrite (bind_Return _ _ _ _ _ (H i ltac:(lia))).
  destruct (f i); [reflexivity|]. apply IH. intros k Hk. apply H. lia.
Qed.

Lemma first_return_None (f : nat -> option R) n :
  forall i,
    first_return f i n = None <-> forall k, i <= k < i + n -> f k = None.
Proof.
  induction n as [|n IH]; intros i; simpl.
  - split; [intros _ k Hk; lia | reflexivity].
  - destruct (f i) as [v|] eqn:E.
    + split; [discriminate|]. intros H. rewrite (H i) in E by lia.
      discriminate.
    + rewrite IH. split; intros H k Hk.
      * destruct (decide (k = i)) as [->|]; [exact E | apply H; lia].
      * apply H. lia.
Qed.

Lemma first_return_Some (f : nat -> option R) n v :
  forall i,
    first_return f i n = Some v -> exists k, i <= k < i + n /\ f k = Some v.
Proof.
  induction n as [|n IH]; intros i; simpl; [discriminate|].
  destruct (f i) as [w|] eqn:E.
  - intros [= <-]. exists i. split; [lia | exact E].
  - intros H. destruct (IH _ H) as (k & Hk & Hf).
    exists k. split; [lia | exact Hf].
Qed.

Lemma first_return_shift (f : nat -> option R) n :
  forall i, first_return f (S i) n = first_return (fun k => f (S k)) i n.
Proof.
  induction n as [|n IH]; intros i; simpl; [reflexivity|].
  destruct (f (S i)); [reflexivity | apply IH].
Qed.
End ReturnRules.

(** ** Equal and Clone *)

(** What the two loops of [Equal] look for. *)
Lemma Equal_core (m n : Grid) :
  exists b,
    Equal m n = Return b /\
    (b = true <->
     length <$> m = length <$> n /\
     forall i j x y,
       at2 m i j = Some x -> at2 n i j = Some y -> F64.eqb x y = true).
Proof.
  unfold Equal, Int.len.
  destruct (Z.eqb_spec (Z.of_nat (length m)) (Z.of_nat (length n)))
    as [Hlen|Hlen]; simpl.
  2:{ exists false. split; [reflexivity|].
      split; [discriminate|]. intros [Hl _]. exfalso. apply Hlen.
      rewrite <- (length_fmap length m), Hl, length_fmap. reflexivity. }
  apply Nat2Z.inj in Hlen.
  set (f1 := fun k =>
         match m !! k, n !! k with
         | Some mi, Some ni =>
             if negb (Z.of_nat (length mi) =? Z.of_nat (length ni))%Z
             then Some false else None
         | _, _ => None
         end).
  set (h := fun i j =>
         match at2 m i j, at2 n i j with
         | Some x, Some y => if negb (F64.eqb x y) then Some false else None
         | _, _ => None
         end).
  unfold Go.run, for_range_return.
  rewrite (bind_Return _ _ _ (first_return f1 0 (length m)) tt).
  2:{ apply for_from_return_pure. intros k Hk.
      destruct (lookup_lt_is_Some_2 m k) as [mi Hmi]; [lia|].
      destruct (lookup_lt_is_Some_2 n k) as [ni Hni]; [lia|].
      rewrite (bind_Return _ _ _ _ _ (index_Some _ _ _ _ Hmi)).
      rewrite (bind_Return _ _ _ _ _ (index_Some _ _ _ _ Hni)).
      unfold f1. rewrite Hmi, Hni.
      destruct (negb _); reflexivity. }
  destruct (first_return f1 0 (length m)) as [v|] eqn:E1.
  { apply first_return_Some in E1. destruct E1 as (k & Hk & Hf).
    unfold f1 in Hf.
    destruct (m !! k) as [mi|] eqn:Hmi; [|discriminate].
    destruct (n !! k) as [ni|] eqn:Hni; [|discriminate].
    destruct (Z.eqb_spec (Z.of_nat (length mi)) (Z.of_nat (length ni)))
      as [|Hne]; [discriminate|].
    simpl in Hf. injection Hf as <-.
    exists false. split; [reflexivity|]. split; [discriminate|].
    intros [Hl _]. exfalso. apply Hne. f_equal.
    assert (H : (length <$> m) !! k = (length <$> n) !! k)
      by (rewrite Hl; reflexivity).
    rewrite !list_lookup_fmap, Hmi, Hni in H. simpl in H. congruence. }
  assert (Hshape : length <$> m = length <$> n).
  { apply list_eq. intros k. rewrite !list_lookup_fmap.
    destruct (decide (k < length m)) as [Hk|Hk].
    - pose proof (proj1 (first_return_None f1 _ _) E1 k ltac:(lia)) as Hf.
      unfold f1 in Hf.
      destruct (lookup_lt_is_Some_2 m k Hk) as [mi Hmi].
      destruct (lookup_lt_is_Some_2 n k ltac:(lia)) as [ni Hni].
      rewrite Hmi, Hni in *. simpl.
      destruct (Z.eqb_spec (Z.of_nat (length mi)) (Z.of_nat (length ni)))
        as [Heq|]; [|discriminate].
      f_equal. lia.
    - rewrite !lookup_ge_None_2 by lia. reflexivity. }
  rewrite (bind_Return _ _ _
             (first_return (fun i => first_return (h i) 0 (width m i))
                0 (length m)) tt).
  2:{ apply for_from_return_pure. intros i Hi.
      destruct (lookup_lt_is_Some_2 m i) as [mi Hmi]; [lia|].
      destruct (lengths_lookup _ _ _ _ (eq_sym Hshape) Hmi)
        as (ni & Hni & Hnilen).
      rewrite (bind_Return _ _ _ _ _ (index_Some _ _ _ _ Hmi)).
      unfold width. rewrite Hmi.
      apply for_from_return_pure. intros j Hj.
      destruct (lookup_lt_is_Some_2 mi j) as [x Hx]; [lia|].
      destruct (lookup_lt_is_Some_2 ni j) as [y Hy]; [lia|].
      rewrite (bind_Return _ _ _ _ _ (index_Some _ _ _ _ Hx)).
      rewrite (bind_Return _ _ _ _ _ (index_Some _ _ _ _ Hni)).
      rewrite (bind_Return _ _ _ _ _ (index_Some _ _ _ _ Hy)).
      unfold h, at2. rewrite Hmi, Hni, Hx, Hy.
      destruct (negb _); reflexivity. }
  clear E1.
  destruct (first_return (fun i => first_return (h i) 0 (width m i))
              0 (length m)) as [v|] eqn:E2.
  - apply first_return_Some in E2. destruct E2 as (i & Hi & Hg).
    cbv beta in Hg. apply first_return_Some in Hg. destruct Hg as (j & Hj & Hh).
    unfold h in Hh.
    destruct (at2 m i j) as [x|] eqn:Hx; [|discriminate].
    destruct (at2 n i j) as [y|] eqn:Hy; [|discriminate].
    destruct (F64.eqb x y) eqn:Exy; [discriminate|].
    simpl in Hh. injection Hh as <-.
    exists false. split; [reflexivity|]. split; [discriminate|].
    intros [_ Hc]. rewrite (Hc i j x y Hx Hy) in Exy. discriminate.
  - exists true. split; [reflexivity|]. split; [|reflexivity].
    intros _. split; [exact Hshape|]. intros i j x y Hx Hy.
    assert (Hi : i < length m).
    { destruct (proj1 (at2_Some _ _ _ _) Hx) as (row & Hr & _).
      eapply lookup_lt_Some, Hr. }
    assert (Hj : j < width m i).
    { unfold width. destruct (proj1 (at2_Some _ _ _ _) Hx) as (row & Hr & Hxx).
      rewrite Hr. eapply lookup_lt_Some, Hxx. }
    pose proof (proj1 (first_return_None _ _ _) E2 i ltac:(lia)) as Hg.
    pose proof (proj1 (first_return_None _ _ _) Hg j ltac:(lia)) as Hh.
    unfold h in Hh. rewrite Hx, Hy in Hh.
    destruct (F64.eqb x y); [reflexivity | discriminate].
Qed.

(** X8: [Equal] never panics, whatever the shapes: it returns true exactly
    when the two grids have the same number of rows, rows of the same
    lengths and cells that are pairwise [==].  A grid is [Equal] to itself
    exactly when none of its cells is a NaN. *)
Theorem Equal_decides (m n : Grid) :
  (exists b,
     Equal m n = Return b /\
     (b = true <->
      length <$> m = length <$> n /\
      forall i j x y,
        at2 m i j = Some x -> at2 n i j = Some y -> F64.eqb x y = true)) /\
  (Equal m m = Return true <->
   forall i j x, at2 m i j = Some x -> F64.is_nan x = false).
Proof.
  split; [apply Equal_core|].
  destruct (Equal_core m m) as (b & Hb & Hiff). rewrite Hb. split.
  - intros [= ->]. destruct (proj1 Hiff eq_refl) as [_ Hc].
    intros i j x Hx. unfold F64.is_nan, PrimFloat.is_nan.
    fold (F64.eqb x x). rewrite (Hc i j x x Hx Hx). reflexivity.
  - intros Hnan. f_equal. apply Hiff. split; [reflexivity|].
    intros i j x y Hx Hy. rewrite Hx in Hy. injection Hy as <-.
    specialize (Hnan i j x Hx). unfold F64.is_nan, PrimFloat.is_nan in Hnan.
    apply negb_false_iff in Hnan. exact Hnan.
Qed.

Lemma Flatten_concat_witness :
  length (concat [[1; 2]; [3; 4]; [5; 6]]%float) = 3 * 2.
Proof.
  destruct (Flatten_concat [[1; 2]; [3; 4]; [5; 6]]%float) as [_ H].
  apply H. split; [reflexivity | repeat constructor].
Defined.

(** X9: [Clone] never panics, on a jagged grid either, and the grid it
    builds has the rows of [m]: the same number of rows, each of the same
    length and with the same values. *)
Theorem Clone_copy (m : Grid) : Clone m = Return m.
Proof.
  unfold Clone, Go.run, Int.len.
  rewrite (bind_Return _ _ _ _ _ (make_nonneg _ _ _)).
  rewrite (bind_Return (Go.put _) _ _ tt (replicate (length m) []) eq_refl).
  destruct (for_from_invariant
              (fun i (t : Grid) =>
                 length t = length m /\
                 forall a, a < i -> t !! a = m !! a)
              (fun i =>
                 do mi <- Go.index m i;
                 do row <- make F64.zero (Z.of_nat (length mi));
                 set_row i row;;
                 Go.for_range (length mi) (fun j =>
                   do x <- Go.index mi j;
                   store i j x))
              (length m) 0 (replicate (length m) []))
    as (t & Hrun & Hlen & Hrows).
  { split; [apply length_replicate | intros a Ha; lia]. }
  { intros i t Hi [Hlen Hrows].
    destruct (lookup_lt_is_Some_2 m i) as [mi Hmi]; [lia|].
    rewrite (bind_Return _ _ _ _ _ (index_Some _ _ _ _ Hmi)).
    rewrite (bind_Return _ _ _ _ _ (make_nonneg _ _ _)).
    assert (Hi' : i < length t) by lia.
    rewrite (bind_Return _ _ _ _ _ (set_row_lt t i _ Hi')).
    destruct (for_from_invariant
                (fun j (u : Grid) =>
                   length u = length m /\
                   (forall a, a < i -> u !! a = m !! a) /\
                   exists row,
                     u !! i = Some row /\ length row = length mi /\
                     forall b, b < j -> row !! b = mi !! b)
                (fun j => do x <- Go.index mi j; store i j x)
                (length mi) 0
                (<[i := replicate (length mi) F64.zero]> t))
      as (u & Hrun & Hu & Hbefore & row & Hrow & Hrowlen & Hcells).
    { split; [rewrite length_insert; exact Hlen|]. split.
      - intros a Ha. rewrite list_lookup_insert_ne by lia. apply Hrows, Ha.
      - exists (replicate (length mi) F64.zero).
        split; [apply list_lookup_insert_eq; lia|].
        split; [apply length_replicate | intros b Hb; lia]. }
    { intros j u Hj (Hu & Hbefore & row & Hrow & Hrowlen & Hcells).
      destruct (lookup_lt_is_Some_2 mi j) as [x Hx]; [lia|].
      destruct (lookup_lt_is_Some_2 row j) as [x0 Hx0]; [lia|].
      assert (Hat : at2 u i j = Some x0)
        by (unfold at2; rewrite Hrow; exact Hx0).
      exists (upd2 u i j x). split.
      - rewrite (bind_Return _ _ _ _ _ (index_Some _ _ _ _ Hx)).
        eapply store_Some, Hat.
      - unfold upd2. rewrite Hrow.
        split; [rewrite length_insert; exact Hu|]. split.
        + intros a Ha. rewrite list_lookup_insert_ne by lia.
          apply Hbefore, Ha.
        + exists (<[j := x]> row).
          split; [apply list_lookup_insert_eq; lia|].
          split; [rewrite length_insert; exact Hrowlen|].
          intros b Hb. destruct (decide (b = j)) as [->|Hne].
          * rewrite list_lookup_insert_eq by lia. symmetry. exact Hx.
          * rewrite list_lookup_insert_ne by auto. apply Hcells. lia. }
    exists u. split; [exact Hrun|]. split; [exact Hu|].
    intros a Ha. destruct (decide (a = i)) as [->|Hne];
      [|apply Hbefore; lia].
    rewrite Hrow, Hmi. f_equal. apply list_eq. intros b.
    destruct (decide (b < length mi)) as [Hb|Hb]; [apply Hcells, Hb|].
    rewrite !lookup_ge_None_2 by lia. reflexivity. }
  unfold Go.for_range. rewrite (bind_Return _ _ _ _ _ Hrun). simpl.
  f_equal. apply list_eq. intros a.
  destruct (decide (a < length m)) as [Ha|Ha]; [apply Hrows, Ha|].
  rewrite !lookup_ge_None_2 by lia. reflexivity.
Qed.

(** ** All and Any *)

Lemma first_return_list {A R} (h : A -> option R) (l : list A) :
  first_return
    (fun k => match l !! k with Some x => h x | None => None end)
    0 (length l)
  = first_of h l.
Proof.
  induction l as [|a l IH]; [reflexivity|].
  simpl. destruct (h a); [reflexivity|].
  rewrite first_return_shift. exact IH.
Qed.

Lemma first_of_forallb (p : float64 -> bool) (l : list float64) :
  first_of (fun x => if negb (p x) then Some false else None) l
  = if forallb p l then None else Some false.
Proof.
  induction l as [|a l IH]; [reflexivity|].
  simpl. destruct (p a); [exact IH | reflexivity].
Qed.

Lemma first_of_existsb (p : float64 -> bool) (l : list float64) :
  first_of (fun x => if p x then Some true else None) l
  = if existsb p l then Some true else None.
Proof.
  induction l as [|a l IH]; [reflexivity|].
  simpl. destruct (p a); [reflexivity | exact IH].
Qed.

Lemma apply_reading (p : float64 -> bool) (m : Grid) i j x :
  at2 m i j = Some x ->
  apply_FilterFn (reading p) i j m = (Return (p x), m).
Proof.
  intros Hx. unfold apply_FilterFn, reading.
  rewrite (bind_Return _ _ _ _ _ (load_Some _ _ _ _ Hx)). simpl.
  rewrite (bind_Return _ _ _ _ _ (store_Some _ _ _ _ x Hx)).
  rewrite (upd2_same _ _ _ _ Hx). reflexivity.
Qed.

Lemma row_at_Some (m : Grid) i row :
  m !! i = Some row -> row_at i m = (Return row, m).
Proof. intros H. unfold row_at. apply index_Some, H. Qed.

(** The two nested loops of [All] and [Any], around a test [k] of what a
    reading filter returns. *)
Lemma filter_loops (p : float64 -> bool) (h : bool -> option bool)
    (k : bool -> go Grid (option bool)) (m : Grid) :
  (forall b s, k b s = (Return (h b), s)) ->
  for_range_return (length m) (fun i =>
    do row <- row_at i;
    for_range_return (length row) (fun j =>
      do b <- apply_FilterFn (reading p) i j;
      k b)) m
  = (Return (first_of (first_of (fun x => h (p x))) m), m).
Proof.
  intros Hk. rewrite <- first_return_list. apply for_from_return_pure.
  intros i Hi. destruct (lookup_lt_is_Some_2 m i) as [row Hrow]; [lia|].
  rewrite (bind_Return _ _ _ _ _ (row_at_Some _ _ _ Hrow)).
  rewrite Hrow, <- first_return_list. apply for_from_return_pure.
  intros j Hj. destruct (lookup_lt_is_Some_2 row j) as [x Hx]; [lia|].
  assert (Hat : at2 m i j = Some x) by (unfold at2; rewrite Hrow; exact Hx).
  rewrite (bind_Return _ _ _ _ _ (apply_reading p m i j x Hat)).
  rewrite Hx. apply Hk.
Qed.

(** X10: with a filter that only reads its cell, [All] and [Any] never
    panic, on a jagged grid either, and leave the grid as it was; [All]
    returns whether every value, rows taken one after the other, passes
    the filter, [Any] whether one does.  Hence [All] is true and [Any]
    false on a grid without values, and [Any] of a test is the negation of
    [All] of the opposite test. *)
Theorem All_Any_reading (p : float64 -> bool) (m : Grid) :
  All (reading p) m = (Return (forallb p (concat m)), m) /\
  Any (reading p) m = (Return (existsb p (concat m)), m) /\
  existsb p (concat m) = negb (forallb (fun x => negb (p x)) (concat m)).
Proof.
  assert (Hall : forall l : Grid,
            first_of (first_of (fun x => if negb (p x) then Some false
                                         else None)) l
            = if forallb p (concat l) then None else Some false).
  { induction l as [|row l IH]; [reflexivity|].
    simpl. rewrite first_of_forallb, forallb_app.
    destruct (forallb p row); [exact IH | reflexivity]. }
  assert (Hany : forall l : Grid,
            first_of (first_of (fun x => if p x then Some true else None)) l
            = if existsb p (concat l) then Some true else None).
  { induction l as [|row l IH]; [reflexivity|].
    simpl. rewrite first_of_existsb, existsb_app.
    destruct (existsb p row); [reflexivity | exact IH]. }
  split; [|split].
  - unfold All. rewrite (bind_Return Go.get _ _ _ _ eq_refl).
    rewrite (bind_Return _ _ _ _ _
               (filter_loops p
                  (fun b => if negb b then Some false else None)
                  (fun b => if negb b then Go.ret (Some false)
                            else Go.ret None)
                  m ltac:(intros [] s; reflexivity))).
    cbv beta. rewrite Hall.
    destruct (forallb p (concat m)); reflexivity.
  - unfold Any. rewrite (bind_Return Go.get _ _ _ _ eq_refl).
    rewrite (bind_Return _ _ _ _ _
               (filter_loops p
                  (fun b => if b then Some true else None)
                  (fun b => if b then Go.ret (Some true) else Go.ret None)
                  m ltac:(intros [] s; reflexivity))).
    cbv beta. rewrite Hany.
    destruct (existsb p (concat m)); reflexivity.
  - induction (concat m) as [|x l IH]; [reflexivity|].
    simpl. rewrite IH. destruct (p x); reflexivity.
Qed.

(** ** Apply and Set *)

(** A sweep over every cell of every row, each cell's [x] becoming [h x]. *)
Lemma sweep_map (h : float64 -> float64) (body : nat -> nat -> go Grid unit)
    (m : Grid) :
  (forall i j, cell_step (fun _ _ => h) body i j) ->
  Go.for_from
    (fun i => do row <- row_at i; Go.for_range (length row) (body i))
    0 (length m) m
  = (Return tt, map (map h) m).
Proof.
  intros Hstep.
  destruct (sweep_returns (fun _ _ => h) (width m) m body
              (fun i => do row <- row_at i;
                        Go.for_range (length row) (body i)))
    as (t & Hrun & Hl & Hc).
  { intros i t Hi Hl. apply range_row; assumption. }
  { intros i j _ Hj. split; [apply width_cell, Hj | apply Hstep]. }
  rewrite Hrun. f_equal. apply grid_ext.
  - rewrite Hl, <- list_fmap_compose. apply list_fmap_ext.
    intros _ row _. simpl. rewrite length_map. reflexivity.
  - intros a b. rewrite Hc. unfold at2, width.
    rewrite list_lookup_fmap.
    destruct (m !! a) as [row|]; simpl; [|destruct (b <? 0); reflexivity].
    rewrite list_lookup_fmap.
    destruct (b <? length row) eqn:E; [reflexivity|].
    apply Nat.ltb_ge in E. rewrite (lookup_ge_None_2 row b E). reflexivity.
Qed.

(** The same over a vector. *)
Lemma vec_sweep_map (h : float64 -> float64) (body : nat -> go Vector unit)
    (v : Vector) :
  (forall i t x, t !! i = Some x -> body i t = (Return tt, <[i := h x]> t)) ->
  Go.for_from body 0 (length v) v = (Return tt, map h v).
Proof.
  intros Hstep.
  destruct (for_from_invariant
              (fun k (t : Vector) =>
                 length t = length v /\
                 forall a, t !! a = if a <? k then h <$> v !! a else v !! a)
              body (length v) 0 v)
    as (t & Hrun & Hlen & Hcells).
  { split; [reflexivity|]. intros a. reflexivity. }
  { intros k t Hk [Hlen Hc].
    destruct (lookup_lt_is_Some_2 v k) as [x Hx]; [lia|].
    assert (Ht : t !! k = Some x) by (rewrite Hc, Nat.ltb_irrefl; exact Hx).
    exists (<[k := h x]> t). split; [apply Hstep, Ht|].
    split; [rewrite length_insert; exact Hlen|]. intros a.
    destruct (decide (a = k)) as [->|Hne].
    - rewrite list_lookup_insert_eq by lia.
      replace (k <? S k) with true by (symmetry; apply Nat.ltb_lt; lia).
      rewrite Hx. reflexivity.
    - rewrite list_lookup_insert_ne by auto. rewrite Hc.
      destruct (a <? k) eqn:E1, (a <? S k) eqn:E2; try reflexivity.
      + apply Nat.ltb_lt in E1. apply Nat.ltb_ge in E2. lia.
      + apply Nat.ltb_ge in E1. apply Nat.ltb_lt in E2. lia. }
  rewrite Hrun. f_equal. apply list_eq. intros a. rewrite Hcells.
  rewrite list_lookup_fmap. simpl.
  destruct (a <? length v) eqn:E; [reflexivity|].
  apply Nat.ltb_ge in E. rewrite (lookup_ge_None_2 v a E). reflexivity.
Qed.

Lemma ApplyMat_map (f : TransformerFn) (m : Grid) :
  ApplyMat f m = (Return tt, map (map f) m).
Proof.
  apply (sweep_map f (fun i j => do x <- load i j; store i j (f x))).
  intros i j t x Hx.
  rewrite (bind_Return _ _ _ _ _ (load_Some _ _ _ _ Hx)).
  eapply store_Some, Hx.
Qed.

Lemma SetMat_map (val : float64) (m : Grid) :
  SetMat val m = (Return tt, map (map (fun _ => val)) m).
Proof.
  apply (sweep_map (fun _ => val) (fun i j => store i j val)).
  intros i j t x Hx. eapply store_Some, Hx.
Qed.

Lemma ApplyVec_map (f : TransformerFn) (v : Vector) :
  ApplyVec f v = (Return tt, map f v).
Proof.
  apply (vec_sweep_map f (fun i => do x <- load_vec i; store_vec i (f x))).
  intros i t x Hx.
  rewrite (bind_Return (load_vec i) _ _ _ _ (index_Some _ _ _ _ Hx)).
  apply store_vec_lt. eapply lookup_lt_Some, Hx.
Qed.

Lemma SetVec_map (val : float64) (v : Vector) :
  SetVec val v = (Return tt, map (fun _ => val) v).
Proof.
  apply (vec_sweep_map (fun _ => val) (fun i => store_vec i val)).
  intros i t x Hx. apply store_vec_lt. eapply lookup_lt_Some, Hx.
Qed.


(** X12: [Set] never panics on a vector or a grid: every value becomes
    [val] and the shape is kept, so that it is [Apply] of the function
    that stores [val]; on any other type it panics with its own message
    and touches nothing. *)
Theorem Set_constant (val : float64) :
  (forall v, Set_ val (CVec v) = (Return tt, CVec (replicate (length v) val))) /\
  (forall m,
     Set_ val (CMat m)
     = (Return tt, CMat (map (fun row => replicate (length row) val) m))) /\
  (forall ty,
     Set_ val (COther ty)
     = (Panicked (Message (container_message "Set()" ty)), COther ty)) /\
  (forall v, Set_ val (CVec v) = Apply (fun _ => val) (CVec v)) /\
  (forall m, Set_ val (CMat m) = Apply (fun _ => val) (CMat m)).
Proof.
  assert (Hrep : forall l : list float64,
            map (fun _ => val) l = replicate (length l) val).
  { induction l as [|x l IH]; [reflexivity|]. simpl. rewrite IH.
    reflexivity. }
  split; [|split; [|split; [reflexivity|split]]].
  - intros v. unfold Set_, on_container. rewrite SetVec_map, Hrep.
    reflexivity.
  - intros m. unfold Set_, on_container. rewrite SetMat_map.
    do 2 f_equal. apply map_ext, Hrep.
  - intros v. unfold Set_, Apply, on_container.
    rewrite SetVec_map, ApplyVec_map. reflexivity.
  - intros m. unfold Set_, Apply, on_container.
    rewrite SetMat_map, ApplyMat_map. reflexivity.
Qed.

(** ** AppendCol *)

(** The store of [AppendCol] after [k] iterations. *)
Lemma AppendCol_progress (v : Vector) (m : Grid) k :
  k <= length v -> k <= length m ->
  exists t,
    Go.for_from (fun i =>
      do mi <- row_at i;
      do y <- Go.index v i;
      set_row i (mi ++ [y])) 0 k m = (Return tt, t) /\
    length t = length m /\
    forall a,
      t !! a
      = (fun row =>
           if a <? k then
             match v !! a with Some y => row ++ [y] | None => row end
           else row) <$> m !! a.
Proof.
  intros Hv Hm.
  apply (for_from_invariant
           (fun k (t : Grid) =>
              length t = length m /\
              forall a,
                t !! a
                = (fun row =>
                     if a <? k then
                       match v !! a with Some y => row ++ [y] | None => row end
                     else row) <$> m !! a)
           _ k 0 m).
  { split; [reflexivity|]. intros a. simpl.
    destruct (m !! a); reflexivity. }
  intros i t Hi [Hlen Hc].
  destruct (lookup_lt_is_Some_2 m i) as [mi Hmi]; [lia|].
  destruct (lookup_lt_is_Some_2 v i) as [y Hy]; [lia|].
  assert (Ht : t !! i = Some mi)
    by (rewrite Hc, Hmi, Nat.ltb_irrefl; reflexivity).
  exists (<[i := mi ++ [y]]> t). split.
  - rewrite (bind_Return _ _ _ _ _ (row_at_Some _ _ _ Ht)).
    rewrite (bind_Return _ _ _ _ _ (index_Some _ _ _ _ Hy)).
    apply set_row_lt. lia.
  - split; [rewrite length_insert; exact Hlen|]. intros a.
    destruct (decide (a = i)) as [->|Hne].
    + rewrite list_lookup_insert_eq by lia. rewrite Hmi. simpl.
      replace (i <? S i) with true by (symmetry; apply Nat.ltb_lt; lia).
      rewrite Hy. reflexivity.
    + rewrite list_lookup_insert_ne by auto. rewrite Hc.
      destruct (a <? i) eqn:E1, (a <? S i) eqn:E2; try reflexivity.
      * apply Nat.ltb_lt in E1. apply Nat.ltb_ge in E2. lia.
      * apply Nat.ltb_ge in E1. apply Nat.ltb_lt in E2. lia.
Qed.

Lemma AppendCol_result (v : Vector) (m : Grid) :
  AppendCol v m
  = (if decide (length v <= length m) then Return tt
     else Panicked IndexOutOfRange,
     append_col_rows v m).
Proof.
  assert (Hfinal : forall k (t : Grid),
            (k = length v \/ k = length m) -> k <= length v ->
            k <= length m ->
            length t = length m ->
            (forall a,
               t !! a
               = (fun row =>
                    if a <? k then
                      match v !! a with Some y => row ++ [y] | None => row end
                    else row) <$> m !! a) ->
            t = append_col_rows v m).
  { intros k t Hk Hkv Hkm Hlen Hc. apply list_eq. intros a.
    unfold append_col_rows. rewrite list_lookup_imap, Hc.
    destruct (m !! a) as [row|] eqn:Hrow; [|reflexivity]. simpl.
    destruct (a <? k) eqn:E; [reflexivity|]. apply Nat.ltb_ge in E.
    destruct Hk as [->| ->].
    - rewrite (lookup_ge_None_2 v a E). reflexivity.
    - apply lookup_lt_Some in Hrow. lia. }
  unfold AppendCol, Go.for_range.
  destruct (decide (length v <= length m)) as [Hle|Hgt].
  - destruct (AppendCol_progress v m (length v) (le_n _) Hle)
      as (t & Hrun & Hlen & Hc).
    rewrite Hrun. f_equal.
    apply (Hfinal (length v)); auto.
  - destruct (for_from_panics
                (fun k (t : Grid) =>
                   length t = length m /\
                   forall a,
                     t !! a
                     = (fun row =>
                          if a <? k then
                            match v !! a with
                            | Some y => row ++ [y]
                            | None => row
                            end
                          else row) <$> m !! a)
                (fun t => t = append_col_rows v m)
                (fun i => do mi <- row_at i;
                          do y <- Go.index v i;
                          set_row i (mi ++ [y]))
                IndexOutOfRange (length v) 0 (length m) m)
      as (t & Hrun & ->).
    + lia.
    + split; [reflexivity|]. intros a. simpl. destruct (m !! a); reflexivity.
    + intros i t Hi [Hlen Hc].
      destruct (lookup_lt_is_Some_2 m i) as [mi Hmi]; [lia|].
      destruct (lookup_lt_is_Some_2 v i) as [y Hy]; [lia|].
      assert (Ht : t !! i = Some mi)
        by (rewrite Hc, Hmi, Nat.ltb_irrefl; reflexivity).
      exists (<[i := mi ++ [y]]> t). split.
      * rewrite (bind_Return _ _ _ _ _ (row_at_Some _ _ _ Ht)).
        rewrite (bind_Return _ _ _ _ _ (index_Some _ _ _ _ Hy)).
        apply set_row_lt. lia.
      * split; [rewrite length_insert; exact Hlen|]. intros a.
        destruct (decide (a = i)) as [->|Hne].
        -- rewrite list_lookup_insert_eq by lia. rewrite Hmi. simpl.
           replace (i <? S i) with true by (symmetry; apply Nat.ltb_lt; lia).
           rewrite Hy. reflexivity.
        -- rewrite list_lookup_insert_ne by auto. rewrite Hc.
           destruct (a <? i) eqn:E1, (a <? S i) eqn:E2; try reflexivity.
           ++ apply Nat.ltb_lt in E1. apply Nat.ltb_ge in E2. lia.
           ++ apply Nat.ltb_ge in E1. apply Nat.ltb_lt in E2. lia.
    + intros t [Hlen Hc]. exists t. split.
      * apply bind_Panicked. unfold row_at. apply index_None.
        apply lookup_ge_None_2. lia.
      * apply (Hfinal (length m)); auto. lia.
    + rewrite Hrun. reflexivity.
Qed.



(** ** Reductions over the whole grid *)

Section GlobalLoops.
Context {St : Type}.
Variable step : float64 -> St -> St.

(** The two nested loops of a reduction with no trailing argument, around
    a statement that turns the store [s] into [step v s] at the value [v]. *)
Lemma global_loop (inner : list float64 -> nat -> go St unit) (m : Grid)
    (s : St) :
  (forall mi j v t,
     mi !! j = Some v -> inner mi j t = (Return tt, step v t)) ->
  Go.for_range (length m) (fun i =>
    do mi <- Go.index m i;
    Go.for_range (length mi) (inner mi)) s
  = (Return tt, fold_left (fun t v => step v t) (concat m) s).
Proof.
  intros Hinner. unfold Go.for_range.
  destruct (for_from_invariant
              (fun i t => t = fold_left (fun t v => step v t)
                                (concat (take i m)) s)
              (fun i => do mi <- Go.index m i;
                        Go.for_from (inner mi) 0 (length mi))
              (length m) 0 s eq_refl)
    as (t & Hrun & ->).
  { intros i t Hi ->. destruct (lookup_lt_is_Some_2 m i) as [mi Hmi]; [lia|].
    rewrite (bind_Return _ _ _ _ _ (index_Some _ _ _ _ Hmi)).
    destruct (for_from_invariant
                (fun j t => t = fold_left (fun t v => step v t) (take j mi)
                                  (fold_left (fun t v => step v t)
                                     (concat (take i m)) s))
                (inner mi) (length mi) 0 _ eq_refl)
      as (u & Hrun & ->).
    { intros j u Hj ->. destruct (lookup_lt_is_Some_2 mi j) as [v Hv]; [lia|].
      eexists. split; [apply Hinner, Hv|].
      rewrite (take_S_r _ _ _ Hv), fold_left_app. reflexivity. }
    eexists. split; [exact Hrun|]. simpl.
    rewrite firstn_all, (take_S_r _ _ _ Hmi), concat_app, fold_left_app.
    simpl. rewrite app_nil_r. reflexivity. }
  rewrite Hrun. simpl. rewrite firstn_all. reflexivity.
Qed.

(** for i := range m[x] { s = step m[x][i] s } *)
Lemma row_loop_step (m : Grid) (x : int) (row : list float64) (s : St) :
  (0 <= x)%Z -> m !! Z.to_nat x = Some row ->
  Go.for_range (length row) (fun i =>
    do mx <- index_int m x;
    do v <- Go.index mx i;
    Go.modify (step v)) s
  = (Return tt, fold_left (fun t v => step v t) row s).
Proof.
  intros Hx Hrow. unfold Go.for_range.
  destruct (for_from_invariant
              (fun k t => t = fold_left (fun t v => step v t) (take k row) s)
              (fun i => do mx <- index_int m x;
                        do v <- Go.index mx i;
                        Go.modify (step v))
              (length row) 0 s eq_refl)
    as (t & Hrun & ->).
  { intros k t Hk ->. destruct (lookup_lt_is_Some_2 row k) as [v Hv]; [lia|].
    eexists. split.
    - rewrite (bind_Return _ _ _ _ _ (index_int_Some _ _ _ _ Hx Hrow)).
      rewrite (bind_Return _ _ _ _ _ (index_Some _ _ _ _ Hv)).
      reflexivity.
    - rewrite (take_S_r _ _ _ Hv), fold_left_app. reflexivity. }
  rewrite Hrun. simpl. rewrite firstn_all. reflexivity.
Qed.

(** for i := range m { s = step m[i][x] s } *)
Lemma column_loop_step (m : Grid) r c (x : int) (s : St) :
  rect m r c -> (0 <= x < Z.of_nat c)%Z ->
  Go.for_range (length m) (fun i =>
    do mi <- Go.index m i;
    do v <- index_int mi x;
    Go.modify (step v)) s
  = (Return tt, fold_left (fun t v => step v t) (column m (Z.to_nat x)) s).
Proof.
  intros Hm Hx. unfold Go.for_range.
  destruct (for_from_invariant
              (fun k t => t = fold_left (fun t v => step v t)
                                (take k (column m (Z.to_nat x))) s)
              (fun i => do mi <- Go.index m i;
                        do v <- index_int mi x;
                        Go.modify (step v))
              (length m) 0 s eq_refl)
    as (t & Hrun & ->).
  { intros k t Hk ->. destruct (lookup_lt_is_Some_2 m k) as [mi Hmi]; [lia|].
    destruct (lookup_lt_is_Some_2 mi (Z.to_nat x)) as [v Hv].
    { rewrite (rect_lookup _ _ _ _ _ Hm Hmi). lia. }
    eexists. split.
    - rewrite (bind_Return _ _ _ _ _ (index_Some _ _ _ _ Hmi)).
      rewrite (bind_Return _ _ _ _ _
                 (index_int_Some _ _ _ _ (proj1 Hx) Hv)).
      reflexivity.
    - assert (Hc : column m (Z.to_nat x) !! k = Some v)
        by (unfold column; rewrite list_lookup_fmap, Hmi; simpl;
            rewrite Hv; reflexivity).
      rewrite (take_S_r _ _ _ Hc), fold_left_app. reflexivity. }
  rewrite Hrun. simpl. rewrite <- (length_column m (Z.to_nat x)), firstn_all.
  reflexivity.
Qed.

(** The column loop of a negative index [x - c] runs as that of [x]. *)
Lemma column_loop_step_negative (m : Grid) r c (x : int) (s : St) :
  rect m r c -> (Z.of_nat c <= Int.max_int)%Z -> (0 <= x < Z.of_nat c)%Z ->
  Go.for_range (length m) (fun i =>
    do mi <- Go.index m i;
    do m0 <- Go.index m 0;
    do v <- index_int mi (Int.add (Int.len m0) (x - Z.of_nat c));
    Go.modify (step v)) s
  = Go.for_range (length m) (fun i =>
      do mi <- Go.index m i;
      do v <- index_int mi x;
      Go.modify (step v)) s.
Proof.
  intros Hm Hc Hx. apply for_from_ext. intros k t Hk.
  destruct (lookup_lt_is_Some_2 m k) as [mi Hmi]; [lia|].
  destruct (lookup_lt_is_Some_2 m 0) as [m0 Hm0]; [lia|].
  rewrite !(bind_Return _ _ _ _ _ (index_Some _ _ _ _ Hmi)).
  rewrite (bind_Return _ _ _ _ _ (index_Some _ _ _ _ Hm0)).
  pose proof (rect_lookup _ _ _ _ _ Hm Hm0) as Hlen.
  replace (Z.of_nat c) with (Int.len m0) by (unfold Int.len; lia).
  rewrite add_len_negative; [reflexivity | |]; unfold Int.len; lia.
Qed.
End GlobalLoops.

(** A reduction with no trailing argument folds the values, rows taken one
    after the other. *)
Lemma reduce_global name axis_msg op (m : Grid) (init : float64) :
  Go.run (reduce_body name axis_msg op m []) init
  = Return (fold_left op (concat m) init).
Proof.
  simpl. apply run_then_get.
  apply (global_loop (fun v acc => op acc v)
           (fun mi j => do v <- Go.index mi j; accumulate op v)).
  intros mi j v t Hv.
  rewrite (bind_Return _ _ _ _ _ (index_Some _ _ _ _ Hv)). reflexivity.
Qed.

(** X15: [Sum] and [Prod] with no trailing argument never panic, on a
    jagged grid either: they return the float64 sum from [0.0], and
    product from [1.0], of the values taken in the order of [Flatten]. *)
Theorem Sum_Prod_global (m : Grid) :
  exists flat,
    Flatten m = Return flat /\
    Sum m [] = Return (fold_left F64.add flat F64.zero) /\
    Prod m [] = Return (fold_left F64.mul flat F64.one).
Proof.
  exists (concat m). split; [apply Flatten_returns|].
  split; apply reduce_global.
Qed.

Lemma avg_count_fold (l : list float64) (a s : float64) (n : nat) :
  (Z.of_nat (n + length l) <= Int.max_int)%Z ->
  fold_left
    (fun t v =>
       AvgVars (avg_avg t) (F64.add (avg_sum t) v)
         (Int.add (avg_numItems t) 1%Z))
    l (AvgVars a s (Z.of_nat n))
  = AvgVars a (fold_left F64.add l s) (Z.of_nat (n + length l)).
Proof.
  revert s n. induction l as [|v l IH]; intros s n Hn; simpl.
  - rewrite Nat.add_0_r. reflexivity.
  - simpl in Hn.
    replace (Int.add (Z.of_nat n) 1) with (Z.of_nat (S n)).
    + rewrite IH by lia. do 2 f_equal. lia.
    + unfold Int.add. rewrite wrap_in_range; [lia|].
      unfold Int.in_range, Int.min_int, Int.max_int in *. lia.
Qed.

(** X16: on a grid, jagged or not, whose number of values fits Go's [int],
    [Avg] with no trailing argument never panics and returns the float64
    quotient of what [Sum] returns by the number of values. *)
Theorem Avg_global (m : Grid) :
  (Z.of_nat (length (concat m)) <= Int.max_int)%Z ->
  exists s,
    Sum m [] = Return s /\
    Avg m []
    = Return (F64.div s (Int.to_float64 (Z.of_nat (length (concat m))))).
Proof.
  intros Hn. exists (fold_left F64.add (concat m) F64.zero).
  split; [apply reduce_global|]. unfold Avg, Go.run.
  rewrite (bind_Return _ _ _ tt
             (AvgVars F64.zero (fold_left F64.add (concat m) F64.zero)
                (Z.of_nat (length (concat m))))).
  - reflexivity.
  - rewrite (global_loop
               (fun v t =>
                  AvgVars (avg_avg t) (F64.add (avg_sum t) v)
                    (Int.add (avg_numItems t) 1%Z))
               (fun mi j => do v <- Go.index mi j;
                            avg_accumulate v;; avg_count)).
    + f_equal. apply (avg_count_fold (concat m) F64.zero F64.zero 0).
      simpl. exact Hn.
    + intros mi j v t Hv.
      rewrite (bind_Return _ _ _ _ _ (index_Some _ _ _ _ Hv)). reflexivity.
Qed.

Lemma Avg_global_witness :
  exists s,
    Sum [[1; 2]; [3]]%float [] = Return s /\
    Avg [[1; 2]; [3]]%float []
    = Return (F64.div s (Int.to_float64
                           (Z.of_nat (length (concat [[1; 2]; [3]]%float))))).
Proof.
  apply (Avg_global [[1; 2]; [3]]%float). unfold Int.max_int. simpl. lia.
Defined.

(** ** Products and averages along a row or a column *)

Lemma Avg_finish_with (c : go avg_vars unit) (a sum : float64) (n : int) :
  c (AvgVars F64.zero F64.zero 0%Z) = (Return tt, AvgVars a sum n) ->
  Go.run
    (c;;
     do s <- Go.get;
     Go.put (AvgVars (F64.div (avg_sum s) (Int.to_float64 (avg_numItems s)))
                     (avg_sum s) (avg_numItems s));;
     do s <- Go.get;
     Go.ret (avg_avg s))
    (AvgVars F64.zero F64.zero 0%Z)
  = Return (F64.div sum (Int.to_float64 n)).
Proof.
  intros Hc. unfold Go.run. rewrite (bind_Return _ _ _ _ _ Hc). reflexivity.
Qed.

Lemma avg_sum_fold (l : list float64) (a s : float64) (n : int) :
  fold_left
    (fun t v => AvgVars (avg_avg t) (F64.add (avg_sum t) v) (avg_numItems t))
    l (AvgVars a s n)
  = AvgVars a (fold_left F64.add l s) n.
Proof.
  revert s. induction l as [|v l IH]; intros s; simpl; [reflexivity|].
  apply IH.
Qed.

(** [Prod] along row [x]. *)
Lemma Prod_row (m : Grid) (x : int) (row : list float64) :
  (0 <= x)%Z -> m !! Z.to_nat x = Some row ->
  Prod m [0%Z; x] = Return (fold_left F64.mul row F64.one).
Proof.
  intros Hx Hrow. unfold Prod. simpl. destruct (Z.leb_spec 0 x); [|lia].
  apply run_then_get.
  rewrite (bind_Return _ _ _ _ _ (index_int_Some _ _ _ _ Hx Hrow)).
  apply row_loop; assumption.
Qed.

(** [Avg] along row [x]. *)
Lemma Avg_row (m : Grid) (x : int) (row : list float64) :
  (0 <= x)%Z -> m !! Z.to_nat x = Some row ->
  Avg m [0%Z; x]
  = Return (F64.div (fold_left F64.add row F64.zero)
              (Int.to_float64 (Int.len row))).
Proof.
  intros Hx Hrow. unfold Avg. simpl. destruct (Z.leb_spec 0 x); [|lia].
  apply (Avg_finish_with _ F64.zero).
  rewrite (bind_Return _ _ _ _ _ (index_int_Some _ _ _ _ Hx Hrow)).
  rewrite (bind_Return _ _ _ _ _
             (row_loop_step
                (fun v t => AvgVars (avg_avg t) (F64.add (avg_sum t) v)
                              (avg_numItems t))
                m x row _ Hx Hrow)).
  rewrite (bind_Return _ _ _ _ _ (index_int_Some _ _ _ _ Hx Hrow)).
  rewrite avg_sum_fold. reflexivity.
Qed.

(** X17: on a rectangular grid of [r] rows and [c] columns, [r] and [c]
    fitting Go's [int], [Prod] and [Avg] along row [i], [0 <= i < r],
    return without a panic the product from [1.0] of the row, and the
    quotient of its sum by its length; along column [j], [0 <= j < c], the
    product of the column and the quotient of its sum by [r].  The
    indices [i - r] and [j - c] give the same results. *)
Theorem Prod_Avg_along_axis (m : Grid) (r c : nat) :
  rect m r c ->
  (Z.of_nat r <= Int.max_int)%Z -> (Z.of_nat c <= Int.max_int)%Z ->
  (forall i : int,
     (0 <= i < Z.of_nat r)%Z ->
     exists row,
       m !! Z.to_nat i = Some row /\
       Prod m [0%Z; i] = Return (fold_left F64.mul row F64.one) /\
       Prod m [0%Z; (i - Z.of_nat r)%Z] = Prod m [0%Z; i] /\
       Avg m [0%Z; i]
       = Return (F64.div (fold_left F64.add row F64.zero)
                   (Int.to_float64 (Z.of_nat c))) /\
       Avg m [0%Z; (i - Z.of_nat r)%Z] = Avg m [0%Z; i]) /\
  (forall j : int,
     (0 <= j < Z.of_nat c)%Z ->
     Prod m [1%Z; j]
     = Return (fold_left F64.mul (column m (Z.to_nat j)) F64.one) /\
     Prod m [1%Z; (j - Z.of_nat c)%Z] = Prod m [1%Z; j] /\
     Avg m [1%Z; j]
     = Return (F64.div (fold_left F64.add (column m (Z.to_nat j)) F64.zero)
                 (Int.to_float64 (Z.of_nat r))) /\
     Avg m [1%Z; (j - Z.of_nat c)%Z] = Avg m [1%Z; j]).
Proof.
  intros Hm Hr Hc. pose proof Hm as [Hlen _]. split.
  - intros i Hi.
    destruct (lookup_lt_is_Some_2 m (Z.to_nat i)) as [row Hrow]; [lia|].
    pose proof (rect_lookup _ _ _ _ _ Hm Hrow) as Hrowlen.
    assert (Hneg : Int.add (Int.len m) (i - Z.of_nat r) = i).
    { replace (Z.of_nat r) with (Int.len m) by (unfold Int.len; lia).
      apply add_len_negative; unfold Int.len; lia. }
    exists row. split; [exact Hrow|].
    split; [apply Prod_row; [lia | exact Hrow]|]. split; [|split].
    + rewrite (Prod_row _ _ _ (proj1 Hi) Hrow). unfold Prod. simpl.
      destruct (Z.leb_spec 0 (i - Z.of_nat r)); [lia|]. rewrite Hneg.
      apply run_then_get.
      rewrite (bind_Return _ _ _ _ _
                 (index_int_Some _ _ _ _ (proj1 Hi) Hrow)).
      apply row_loop; [lia | exact Hrow].
    + rewrite (Avg_row _ _ _ (proj1 Hi) Hrow). unfold Int.len.
      rewrite Hrowlen. reflexivity.
    + rewrite (Avg_row _ _ _ (proj1 Hi) Hrow). unfold Avg. simpl.
      destruct (Z.leb_spec 0 (i - Z.of_nat r)); [lia|]. rewrite Hneg.
      apply (Avg_finish_with _ F64.zero).
      rewrite (bind_Return _ _ _ _ _
                 (index_int_Some _ _ _ _ (proj1 Hi) Hrow)).
      rewrite (bind_Return _ _ _ _ _
                 (row_loop_step
                    (fun v t => AvgVars (avg_avg t) (F64.add (avg_sum t) v)
                                  (avg_numItems t))
                    m i row _ (proj1 Hi) Hrow)).
      rewrite (bind_Return _ _ _ _ _
                 (index_int_Some _ _ _ _ (proj1 Hi) Hrow)).
      rewrite avg_sum_fold. reflexivity.
  - intros j Hj.
    assert (HP : Prod m [1%Z; j]
                 = Return (fold_left F64.mul (column m (Z.to_nat j))
                             F64.one)).
    { unfold Prod. simpl. destruct (Z.leb_spec 0 j); [|lia].
      apply run_then_get. eapply column_loop; eauto. }
    assert (HA : Avg m [1%Z; j]
                 = Return (F64.div
                             (fold_left F64.add (column m (Z.to_nat j))
                                F64.zero)
                             (Int.to_float64 (Z.of_nat r)))).
    { unfold Avg. simpl. destruct (Z.leb_spec 0 j); [|lia].
      apply (Avg_finish_with _ F64.zero).
      rewrite (bind_Return _ _ _ _ _
                 (column_loop_step
                    (fun v t => AvgVars (avg_avg t) (F64.add (avg_sum t) v)
                                  (avg_numItems t))
                    m r c j _ Hm Hj)).
      rewrite avg_sum_fold. unfold Int.len. rewrite Hlen. reflexivity. }
    split; [exact HP|]. split; [|split; [exact HA|]].
    + rewrite HP. unfold Prod. simpl.
      destruct (Z.leb_spec 0 (j - Z.of_nat c)); [lia|].
      apply run_then_get.
      rewrite (column_loop_negative _ _ _ _ _ _ Hm Hc Hj).
      eapply column_loop; eauto.
    + rewrite HA. unfold Avg. simpl.
      destruct (Z.leb_spec 0 (j - Z.of_nat c)); [lia|].
      apply (Avg_finish_with _ F64.zero).
      rewrite (bind_Return _ _ _ tt
                 (fold_left
                    (fun t v => AvgVars (avg_avg t) (F64.add (avg_sum t) v)
                                  (avg_numItems t))
                    (column m (Z.to_nat j))
                    (AvgVars F64.zero F64.zero 0%Z))).
      * rewrite avg_sum_fold. unfold Int.len. rewrite Hlen. reflexivity.
      * rewrite <- (column_loop_step _ m r c j _ Hm Hj).
        apply (column_loop_step_negative
                 (fun v t => AvgVars (avg_avg t) (F64.add (avg_sum t) v)
                               (avg_numItems t))
                 m r c j _ Hm Hc Hj).
Qed.

Lemma Prod_Avg_along_axis_witness :
  (exists row,
     [[1; 2]; [3; 4]]%float !! Z.to_nat 1 = Some row /\
     Prod [[1; 2]; [3; 4]]%float [0%Z; 1%Z]
     = Return (fold_left F64.mul row F64.one) /\
     Prod [[1; 2]; [3; 4]]%float [0%Z; (1 - Z.of_nat 2)%Z]
     = Prod [[1; 2]; [3; 4]]%float [0%Z; 1%Z] /\
     Avg [[1; 2]; [3; 4]]%float [0%Z; 1%Z]
     = Return (F64.div (fold_left F64.add row F64.zero)
                 (Int.to_float64 (Z.of_nat 2))) /\
     Avg [[1; 2]; [3; 4]]%float [0%Z; (1 - Z.of_nat 2)%Z]
     = Avg [[1; 2]; [3; 4]]%float [0%Z; 1%Z]) /\
  Avg [[1; 2]; [3; 4]]%float [1%Z; (0 - Z.of_nat 2)%Z]
  = Avg [[1; 2]; [3; 4]]%float [1%Z; 0%Z].
Proof.
  destruct (Prod_Avg_along_axis [[1; 2]; [3; 4]]%float 2 2) as [Hrow Hcol].
  - split; [reflexivity | repeat constructor].
  - unfold Int.max_int. lia.
  - unfold Int.max_int. lia.
  - split; [apply Hrow; lia|].
    destruct (Hcol 0%Z ltac:(lia)) as (_ & _ & _ & H). exact H.
Defined.

(** ** Indices out of range *)

Lemma index_int_out {St A} (l : list A) (x : int) (s : St) :
  (x < 0 \/ Int.len l <= x)%Z ->
  index_int l x s = (Panicked IndexOutOfRange, s).
Proof.
  intros Hx. unfold index_int. destruct (Z.ltb_spec x 0); [reflexivity|].
  apply index_None, lookup_ge_None_2. unfold Int.len in Hx. lia.
Qed.

(** [len(l) + x] for an index [x] below [-len(l)] is negative. *)
Lemma add_len_below {A} (l : list A) (x : int) :
  (Int.len l <= Int.max_int)%Z -> (Int.min_int <= x < - Int.len l)%Z ->
  (Int.add (Int.len l) x < 0)%Z.
Proof.
  intros Hl Hx. unfold Int.add. rewrite wrap_in_range; [lia|].
  unfold Int.in_range, Int.len, Int.min_int, Int.max_int in *. lia.
Qed.

Lemma for_from_first_panics {St} (body : nat -> go St unit) i n s p s' :
  body i s = (Panicked p, s') ->
  Go.for_from body i (S n) s = (Panicked p, s').
Proof. intros H. simpl. apply bind_Panicked, H. Qed.

(** The index that [Sum], [Prod] and [Avg] give to the grid, for a row or
    a column index [x] out of range, is out of range. *)
Lemma selected_out {A} (l : list A) (x : int) :
  (Int.len l <= Int.max_int)%Z ->
  (Int.len l <= x \/ Int.min_int <= x < - Int.len l)%Z ->
  if (0 <=? x)%Z then (x < 0 \/ Int.len l <= x)%Z
  else (Int.add (Int.len l) x < 0
        \/ Int.len l <= Int.add (Int.len l) x)%Z.
Proof.
  intros Hl Hx. destruct (Z.leb_spec 0 x).
  - right. unfold Int.len in *. lia.
  - left. apply add_len_below; [exact Hl|]. unfold Int.len in *. lia.
Qed.

Lemma reduce_row_out name axis_msg op (m : Grid) (init : float64) (x : int) :
  (Int.len m <= Int.max_int)%Z ->
  (Int.len m <= x \/ Int.min_int <= x < - Int.len m)%Z ->
  Go.run (reduce_body name axis_msg op m [0%Z; x]) init
  = Panicked IndexOutOfRange.
Proof.
  intros Hl Hx. pose proof (selected_out m x Hl Hx) as Hsel.
  cbn [reduce_body Z.eqb]. unfold Go.run. destruct (0 <=? x)%Z.
  - rewrite (bind_Panicked _ _ _ IndexOutOfRange init); [reflexivity|].
    apply bind_Panicked, index_int_out, Hsel.
  - rewrite (bind_Panicked _ _ _ IndexOutOfRange init); [reflexivity|].
    apply bind_Panicked, index_int_out, Hsel.
Qed.

Lemma reduce_column_out name axis_msg op (m : Grid) (init : float64)
    r c (x : int) :
  rect m r c -> 0 < r -> (Z.of_nat c <= Int.max_int)%Z ->
  (Z.of_nat c <= x \/ Int.min_int <= x < - Z.of_nat c)%Z ->
  Go.run (reduce_body name axis_msg op m [1%Z; x]) init
  = Panicked IndexOutOfRange.
Proof.
  intros Hm Hr Hc Hx. pose proof Hm as [Hlen _].
  destruct m as [|m0 rest]; [simpl in Hlen; lia|].
  assert (Hm0 : Int.len m0 = Z.of_nat c).
  { unfold Int.len. f_equal.
    eapply (rect_lookup _ _ _ 0); [exact Hm | reflexivity]. }
  pose proof (selected_out m0 x) as Hsel. rewrite Hm0 in Hsel.
  specialize (Hsel Hc Hx).
  cbn [reduce_body]. change (1 =? 0)%Z with false.
  change (1 =? 1)%Z with true. cbv iota.
  unfold Go.run, Go.for_range. cbn [length].
  destruct (0 <=? x)%Z.
  - rewrite (bind_Panicked _ _ _ IndexOutOfRange init); [reflexivity|].
    apply for_from_first_panics.
    rewrite (bind_Return _ _ _ _ _
               (index_Some (m0 :: rest) 0 m0 _ eq_refl)).
    apply bind_Panicked, index_int_out. rewrite Hm0. exact Hsel.
  - rewrite (bind_Panicked _ _ _ IndexOutOfRange init); [reflexivity|].
    apply for_from_first_panics.
    rewrite !(bind_Return _ _ _ _ _
                (index_Some (m0 :: rest) 0 m0 _ eq_refl)).
    apply bind_Panicked, index_int_out. rewrite Hm0. exact Hsel.
Qed.

(** X18: [Sum] and [Prod] check no index.  A row index of [len(m)] or
    more, or below [-len(m)], is the run time's index panic, on the grid
    with no row for every index.  On a rectangular grid with a row, a
    column index of [c] or more, or below [-c], is that panic too; on the
    grid with no row a column index is never used, and [Sum] returns [0.0]
    and [Prod] [1.0] whatever it is. *)
Theorem Sum_Prod_index_out_of_range (m : Grid) :
  (forall x : int,
     (Int.len m <= Int.max_int)%Z ->
     (Int.len m <= x \/ Int.min_int <= x < - Int.len m)%Z ->
     Sum m [0%Z; x] = Panicked IndexOutOfRange /\
     Prod m [0%Z; x] = Panicked IndexOutOfRange) /\
  (forall (r c : nat) (x : int),
     rect m r c -> 0 < r -> (Z.of_nat c <= Int.max_int)%Z ->
     (Z.of_nat c <= x \/ Int.min_int <= x < - Z.of_nat c)%Z ->
     Sum m [1%Z; x] = Panicked IndexOutOfRange /\
     Prod m [1%Z; x] = Panicked IndexOutOfRange) /\
  (forall x : int,
     m = [] ->
     Sum m [1%Z; x] = Return F64.zero /\ Prod m [1%Z; x] = Return F64.one).
Proof.
  split; [|split].
  - intros x Hl Hx. split; apply reduce_row_out; assumption.
  - intros r c x Hm Hr Hc Hx. split; eapply reduce_column_out; eauto.
  - intros x ->. unfold Sum, Prod. simpl.
    destruct (0 <=? x)%Z; split; reflexivity.
Qed.

Lemma Sum_Prod_index_out_of_range_witness :
  (Sum [[1; 2]]%float [0%Z; 1%Z] = Panicked IndexOutOfRange /\
   Prod [[1; 2]]%float [0%Z; 1%Z] = Panicked IndexOutOfRange) /\
  (Sum [[1; 2]]%float [1%Z; (-3)%Z] = Panicked IndexOutOfRange /\
   Prod [[1; 2]]%float [1%Z; (-3)%Z] = Panicked IndexOutOfRange) /\
  (Sum [] [1%Z; 7%Z] = Return F64.zero /\
   Prod [] [1%Z; 7%Z] = Return F64.one).
Proof.
  split; [|split].
  - destruct (Sum_Prod_index_out_of_range [[1; 2]]%float) as (H & _).
    apply H; unfold Int.len, Int.max_int; simpl; lia.
  - destruct (Sum_Prod_index_out_of_range [[1; 2]]%float) as (_ & H & _).
    apply (H 1 2).
    + split; [reflexivity | repeat constructor].
    + lia.
    + unfold Int.max_int. lia.
    + unfold Int.min_int. lia.
  - destruct (Sum_Prod_index_out_of_range []) as (_ & _ & H).
    apply H. reflexivity.
Defined.

(** ** The shape of a grid under the in-place operations *)

Lemma keeps_shape_ret {A} (a : A) : keeps_shape (Go.ret a).
Proof. intros s o s' [= _ <-]. reflexivity. Qed.

Lemma keeps_shape_raise {A} p : keeps_shape (Go.raise (A:=A) p).
Proof. intros s o s' [= _ <-]. reflexivity. Qed.

Lemma keeps_shape_get : keeps_shape Go.get.
Proof. intros s o s' [= _ <-]. reflexivity. Qed.

Lemma keeps_shape_index {A} (l : list A) i : keeps_shape (Go.index l i).
Proof.
  unfold Go.index. destruct (l !! i);
    [apply keeps_shape_ret | apply keeps_shape_raise].
Qed.

Lemma keeps_shape_row_at i : keeps_shape (row_at i).
Proof. intros s o s' H. unfold row_at in H. eapply keeps_shape_index, H. Qed.

Lemma keeps_shape_bind {A B} (c : go Grid A) (k : A -> go Grid B) :
  keeps_shape c -> (forall a, keeps_shape (k a)) ->
  keeps_shape (Go.bind c k).
Proof.
  intros Hc Hk s o s'. unfold Go.bind.
  destruct (c s) as [[a|p] t] eqn:E.
  - intros H. rewrite (Hk a _ _ _ H). eapply Hc, E.
  - intros [= _ <-]. eapply Hc, E.
Qed.

Lemma keeps_shape_load i j : keeps_shape (load i j).
Proof.
  apply keeps_shape_bind; [apply keeps_shape_row_at|].
  intros row. apply keeps_shape_index.
Qed.

Lemma keeps_shape_store i j x : keeps_shape (store i j x).
Proof.
  intros s o s'. unfold store, row_at, Go.bind, Go.index.
  destruct (s !! i) as [row|] eqn:Hrow; simpl.
  - destruct (decide (j < length row)); intros [= _ <-]; [|reflexivity].
    rewrite list_fmap_insert, length_insert.
    apply list_insert_id. rewrite list_lookup_fmap, Hrow. reflexivity.
  - intros [= _ <-]. reflexivity.
Qed.

Lemma keeps_shape_for_from (body : nat -> go Grid unit) n :
  (forall i, keeps_shape (body i)) ->
  forall i, keeps_shape (Go.for_from body i n).
Proof.
  intros Hb. induction n as [|n IH]; intros i; simpl.
  - apply keeps_shape_ret.
  - apply keeps_shape_bind; [apply Hb | intros _; apply IH].
Qed.

Lemma keeps_shape_for_from_return {R} (body : nat -> go Grid (option R)) n :
  (forall i, keeps_shape (body i)) ->
  forall i, keeps_shape (for_from_return body i n).
Proof.
  intros Hb. induction n as [|n IH]; intros i; simpl.
  - apply keeps_shape_ret.
  - apply keeps_shape_bind; [apply Hb|].
    intros [v|]; [apply keeps_shape_ret | apply IH].
Qed.

Ltac prove_keeps_shape :=
  repeat first
    [ apply keeps_shape_ret | apply keeps_shape_raise | apply keeps_shape_get
    | apply keeps_shape_index | apply keeps_shape_row_at
    | apply keeps_shape_load | apply keeps_shape_store
    | apply keeps_shape_for_from; intros ?
    | apply keeps_shape_for_from_return; intros ?
    | apply keeps_shape_bind; [|intros ?] ].

(** X19: no in-place operation resizes the grid.  Whatever the operand,
    and whether the call returns or panics midway, [Add], [Sub], [Mult] and
    [Div] (hence the twelve kernels), [Apply] and [Set] on a grid, and
    [All] and [Any] with any filter leave a grid with as many rows as
    before, each as long as before. *)
Theorem in_place_keeps_shape :
  (forall o val, keeps_shape (dispatcher o val)) /\
  (forall f, keeps_shape (ApplyMat f)) /\
  (forall val, keeps_shape (SetMat val)) /\
  (forall f, keeps_shape (All f)) /\
  (forall f, keeps_shape (Any f)).
Proof.
  split; [|split; [|split; [|split]]].
  - intros o [s|v|v|ty]; destruct o;
      unfold dispatcher, Add, Sub, Mult, Div, AddScalar, SubScalar,
        MultScalar, DivScalar, AddVec, SubVec, MultVec, DivVec, AddMat,
        SubMat, MultMat, DivMat, scalar_kernel, vec_kernel, mat_kernel,
        Go.for_range;
      prove_keeps_shape.
  - intros f. unfold ApplyMat, Go.for_range. prove_keeps_shape.
  - intros val. unfold SetMat, Go.for_range. prove_keeps_shape.
  - intros f. unfold All, for_range_return, apply_FilterFn.
    prove_keeps_shape.
    + destruct (negb _); prove_keeps_shape.
    + match goal with |- keeps_shape (match ?r with _ => _ end) =>
        destruct r end; prove_keeps_shape.
  - intros f. unfold Any, for_range_return, apply_FilterFn.
    prove_keeps_shape.
    + match goal with |- keeps_shape (if ?b then _ else _) =>
        destruct b end; prove_keeps_shape.
    + match goal with |- keeps_shape (match ?r with _ => _ end) =>
        destruct r end; prove_keeps_shape.
Qed.

(** ** Scalar and grid operands *)





(** ** A reducer against the built-in reduction *)

(** X21: the first invocation of the sum reducer made from [0.0] never
    panics, returns what [Sum] returns on the same grid, jagged or not,
    and leaves the grid as it was; what it leaves in the closure is that
    sum. *)
Theorem sum_reducer_first_call (m : Grid) :
  exists s,
    Sum m [] = Return s /\
    invoke (NewReducer F64.zero plus_into) m
    = (Return s, Closure s plus_into, m).
Proof.
  exists (fold_left F64.add (concat m) F64.zero).
  split; [apply reduce_global|].
  unfold NewReducer, plus_into. apply invoke_into_first.
Qed.

(** ** Transpose of a jagged grid *)

Section TJagged.
Variables (m : Grid) (m0 : list float64).
Hypothesis Hm0 : m !! 0 = Some m0.

Let r := length m.
Let c := length m0.

Lemma T_state_start : T_state m r c 0 0 (replicate c (replicate r F64.zero)).
Proof.
  split; [apply rect_replicate|]. intros a b Ha Hb.
  unfold at2. rewrite !lookup_replicate_2 by assumption. f_equal.
  unfold T_progress. case_decide; [lia | reflexivity].
Qed.

(** Row [i], no longer than the first: its cells are copied. *)
Lemma T_state_row i mi t :
  m !! i = Some mi -> length mi <= c ->
  T_state m r c i 0 t ->
  exists t',
    Go.for_from (fun j => do x <- Go.index mi j; store j i x)
      0 (length mi) t = (Return tt, t') /\
    T_state m r c (S i) 0 t'.
Proof.
  intros Hmi Hlen Ht. pose proof (lookup_lt_Some _ _ _ Hmi) as Hi.
  destruct (for_from_invariant (fun j t => T_state m r c i j t)
              (fun j => do x <- Go.index mi j; store j i x)
              (length mi) 0 t Ht)
    as (t' & Hrun & Ht' & Hcells).
  { intros j u Hj [Hu Hc].
    destruct (lookup_lt_is_Some_2 mi j) as [x Hx]; [lia|].
    pose proof (Hc i j Hi ltac:(lia)) as Hat.
    exists (upd2 u j i x). split.
    - rewrite (bind_Return _ _ _ _ _ (index_Some _ _ _ _ Hx)).
      eapply store_Some, Hat.
    - split; [apply rect_upd2, Hu|]. intros a b Ha Hb.
      rewrite (at2_upd2 _ _ _ _ _ _ _ Hat).
      destruct (decide (b = j /\ a = i)) as [[-> ->]|Hne].
      + f_equal. unfold T_progress, entry, at2. rewrite Hmi, Hx.
        case_decide; [reflexivity | lia].
      + rewrite (Hc a b Ha Hb). f_equal. unfold T_progress.
        repeat case_decide; try lia; try reflexivity; tauto. }
  exists t'. split; [exact Hrun|]. split; [exact Ht'|].
  intros a b Ha Hb. rewrite (Hcells a b Ha Hb). f_equal.
  unfold T_progress. repeat case_decide; try lia; try reflexivity.
  (* a = i and b past the end of the row *)
  assert (a = i) as -> by lia.
  unfold entry, at2. rewrite Hmi.
  rewrite (lookup_ge_None_2 mi b) by lia. reflexivity.
Qed.

Lemma T_rows_before k :
  k <= r ->
  (forall a row, a < k -> m !! a = Some row -> length row <= c) ->
  exists t,
    Go.for_from (fun i =>
      do mi <- Go.index m i;
      Go.for_range (length mi) (fun j =>
        do x <- Go.index mi j;
        store j i x)) 0 k (replicate c (replicate r F64.zero))
    = (Return tt, t) /\
    T_state m r c k 0 t.
Proof.
  intros Hk Hshort.
  apply (for_from_invariant (fun i t => T_state m r c i 0 t)
           _ k 0 _ T_state_start).
  intros i t Hi Ht.
  destruct (lookup_lt_is_Some_2 m i) as [mi Hmi]; [unfold r in *; lia|].
  rewrite (bind_Return _ _ _ _ _ (index_Some _ _ _ _ Hmi)).
  apply T_state_row; [exact Hmi | | exact Ht].
  apply (Hshort i mi); [lia | exact Hmi].
Qed.

Lemma T_begin (k : go Grid Grid) :
  Go.run
    (do m0 <- Go.index m 0;
     do n <- Go.call (New [Int.len m0; Int.len m]);
     Go.put n;; k) []
  = Go.run k (replicate c (replicate r F64.zero)).
Proof.
  unfold Go.run.
  rewrite (bind_Return _ _ _ _ _ (index_Some _ _ _ _ Hm0)).
  unfold Int.len. rewrite New_rows_columns.
  rewrite (bind_Return (Go.call _) _ _ _ [] eq_refl).
  rewrite (bind_Return (Go.put _) _ _ tt
             (replicate c (replicate r F64.zero)) eq_refl).
  reflexivity.
Qed.

Lemma T_short_rows :
  Forall (fun row => length row <= c) m ->
  exists n,
    T m = Return n /\ rect n c r /\
    forall a b, a < r -> b < c -> at2 n b a = Some (entry m a b).
Proof.
  intros Hall. rewrite Forall_lookup in Hall.
  destruct (T_rows_before r (le_n _)) as (t & Hrun & Ht & Hcells).
  { intros a row _ Hrow. exact (Hall a row Hrow). }
  exists t. split; [|split; [exact Ht|]].
  - unfold T. rewrite T_begin. unfold Go.run, Go.for_range.
    rewrite (bind_Return _ _ _ _ _ Hrun). reflexivity.
  - intros a b Ha Hb. rewrite (Hcells a b Ha Hb). f_equal.
    unfold T_progress. case_decide; [reflexivity | lia].
Qed.

Lemma T_long_row i mi :
  m !! i = Some mi -> c < length mi ->
  (forall a row, a < i -> m !! a = Some row -> length row <= c) ->
  T m = Panicked IndexOutOfRange.
Proof.
  intros Hmi Hlong Hshort. pose proof (lookup_lt_Some _ _ _ Hmi) as Hi.
  unfold T. rewrite T_begin. unfold Go.run, Go.for_range.
  destruct (for_from_panics (fun i t => T_state m r c i 0 t)
              (fun _ => True)
              (fun i =>
                 do mi <- Go.index m i;
                 Go.for_from (fun j => do x <- Go.index mi j; store j i x)
                   0 (length mi))
              IndexOutOfRange (length m) 0 i
              (replicate c (replicate r F64.zero)))
    as (t & Hrun & _).
  - lia.
  - exact T_state_start.
  - intros a t Ha Ht.
    destruct (lookup_lt_is_Some_2 m a) as [row Hrow]; [lia|].
    rewrite (bind_Return _ _ _ _ _ (index_Some _ _ _ _ Hrow)).
    apply T_state_row; [exact Hrow | | exact Ht].
    apply (Hshort a row); [lia | exact Hrow].
  - intros t Ht.
    rewrite (bind_Return _ _ _ _ _ (index_Some _ _ _ _ Hmi)).
    destruct (for_from_panics (fun j t => T_state m r c i j t)
                (fun _ => True)
                (fun j => do x <- Go.index mi j; store j i x)
                IndexOutOfRange (length mi) 0 c t)
      as (t' & Hrun & _).
    + lia.
    + exact Ht.
    + intros j u Hj [Hu Hc].
      destruct (lookup_lt_is_Some_2 mi j) as [x Hx]; [lia|].
      pose proof (Hc i j Hi ltac:(lia)) as Hat.
      exists (upd2 u j i x). split.
      * rewrite (bind_Return _ _ _ _ _ (index_Some _ _ _ _ Hx)).
        eapply store_Some, Hat.
      * split; [apply rect_upd2, Hu|]. intros a b Ha Hb.
        rewrite (at2_upd2 _ _ _ _ _ _ _ Hat).
        destruct (decide (b = j /\ a = i)) as [[-> ->]|Hne].
        -- f_equal. unfold T_progress, entry, at2. rewrite Hmi, Hx.
           case_decide; [reflexivity | lia].
        -- rewrite (Hc a b Ha Hb). f_equal. unfold T_progress.
           repeat case_decide; try lia; try reflexivity; tauto.
    + intros u [Hu _].
      destruct (lookup_lt_is_Some_2 mi c Hlong) as [x Hx].
      exists u. split; [|exact Logic.I].
      rewrite (bind_Return _ _ _ _ _ (index_Some _ _ _ _ Hx)).
      apply store_None. apply eq_None_not_Some.
      rewrite (rect_at2 _ _ _ _ _ Hu). lia.
    + exists t'. split; [exact Hrun | exact Logic.I].
  - rewrite (bind_Panicked _ _ _ _ _ Hrun). reflexivity.
Qed.
End TJagged.

(** X22: [T] takes the column count from the first row.  When no row is
    longer than the first, [T] returns a grid of [len(m[0])] rows and
    [len(m)] columns that holds [m[a][b]] at [(b, a)] and [0.0] where row
    [a] is too short to have such a cell; in particular, on a grid of rows
    without values it returns the grid with no row.  When a row is longer
    than the first, [T] stops at the first such row with the run time's
    index panic. *)
Theorem T_jagged (m : Grid) (m0 : list float64) :
  m !! 0 = Some m0 ->
  (Forall (fun row => length row <= length m0) m ->
   exists n,
     T m = Return n /\ rect n (length m0) (length m) /\
     forall a b, a < length m -> b < length m0 ->
       at2 n b a = Some (entry m a b)) /\
  (Forall (fun row => length row <= length m0) m -> m0 = [] ->
   T m = Return []) /\
  (forall i mi,
     m !! i = Some mi -> length m0 < length mi ->
     (forall a row, a < i -> m !! a = Some row ->
        length row <= length m0) ->
     T m = Panicked IndexOutOfRange).
Proof.
  intros Hm0. split; [|split].
  - apply T_short_rows, Hm0.
  - intros Hall ->. destruct (T_short_rows m [] Hm0 Hall)
      as (n & HT & [Hlen _] & _).
    rewrite HT. destruct n; [reflexivity | discriminate].
  - intros i mi. apply T_long_row, Hm0.
Qed.

Lemma T_jagged_witness :
  (exists n,
     T [[1; 2]; [3]]%float = Return n /\
     rect n (length [1; 2]%float) (length [[1; 2]; [3]]%float) /\
     forall a b, a < length [[1; 2]; [3]]%float ->
       b < length [1; 2]%float ->
       at2 n b a = Some (entry [[1; 2]; [3]]%float a b)) /\
  T [[1]; [2; 3]]%float = Panicked IndexOutOfRange.
Proof.
  split.
  - destruct (T_jagged [[1; 2]; [3]]%float [1; 2]%float eq_refl) as (H & _).
    apply H. repeat constructor.
  - destruct (T_jagged [[1]; [2; 3]]%float [1]%float eq_refl) as (_ & _ & H).
    apply (H 1 [2; 3]%float); [reflexivity | simpl; lia|].
    intros a row Ha. assert (a = 0) as -> by lia.
    intros [= <-]. simpl. lia.
Defined.

(** ** Random grids and vectors *)

Lemma on_snd_run {S1 S2 A} (c : go S2 A) (p : S1) t o t' :
  c t = (o, t') -> on_snd c (p, t) = (o, (p, t')).
Proof. intros H. unfold on_snd. simpl. rewrite H. reflexivity. Qed.

Lemma rand_range_short {St} name (args : list float64) (s : St) :
  length args <= 2 ->
  rand_range name args s = (Return (range_of args), s).
Proof.
  destruct args as [|a [|b [|d args]]]; simpl; intros H;
    try reflexivity; lia.
Qed.

Lemma rand_range_long {St} name (args : list float64) (s : St) :
  2 < length args ->
  rand_range name args s
  = (Panicked (Message (Rand_message name (length args))), s).
Proof.
  destruct args as [|a [|b [|d args]]]; simpl; intros H;
    try reflexivity; lia.
Qed.

Section RandomFill.
Variable draws : nat -> float64.
Variable ft : float64 * float64.
Variables pos n : nat.

Lemma rand_state_start :
  rand_state draws ft pos n 0 0 (pos, replicate n (replicate n F64.zero)).
Proof.
  split; [simpl; lia|]. split; [apply rect_replicate|].
  intros a b Ha Hb. simpl. unfold at2.
  rewrite !lookup_replicate_2 by assumption.
  case_decide; [lia | reflexivity].
Qed.

Lemma rand_state_cell i j s :
  i < n -> j < n ->
  rand_state draws ft pos n i j s ->
  exists s',
    (do u <- rand_Float64 draws;
     on_snd (store i j
               (F64.add (F64.mul u (F64.sub (snd ft) (fst ft))) (fst ft)))) s
    = (Return tt, s') /\
    rand_state draws ft pos n i (S j) s'.
Proof.
  intros Hi Hj. destruct s as [p t]. intros (Hp & Ht & Hc).
  simpl in Hp, Ht, Hc. pose proof (Hc i j Hi Hj) as Hat.
  exists (S p, upd2 t i j (scaled ft (draws p))). split.
  - rewrite (bind_Return (rand_Float64 draws) _ (p, t) (draws p) (S p, t)
               eq_refl).
    apply on_snd_run. eapply store_Some, Hat.
  - split; [simpl; lia|]. split; [apply rect_upd2, Ht|].
    intros a b Ha Hb. simpl. rewrite (at2_upd2 _ _ _ _ _ _ _ Hat).
    destruct (decide (a = i /\ b = j)) as [[-> ->]|Hne].
    + rewrite Hp, decide_True by lia. reflexivity.
    + rewrite (Hc a b Ha Hb). f_equal.
      repeat case_decide; try lia; try reflexivity; tauto.
Qed.

Lemma rand_state_row i s :
  i < n ->
  rand_state draws ft pos n i 0 s ->
  exists s',
    (do row <- on_snd (row_at i);
     Go.for_range (length row) (fun j =>
       do u <- rand_Float64 draws;
       on_snd (store i j
                 (F64.add (F64.mul u (F64.sub (snd ft) (fst ft)))
                    (fst ft))))) s
    = (Return tt, s') /\
    rand_state draws ft pos n (S i) 0 s'.
Proof.
  intros Hi Hs. pose proof Hs as (_ & Ht & _). destruct s as [p t].
  simpl in Ht. destruct (lookup_lt_is_Some_2 t i) as [row Hrow].
  { rewrite (proj1 Ht). exact Hi. }
  pose proof (rect_lookup _ _ _ _ _ Ht Hrow) as Hlen.
  rewrite (bind_Return (on_snd (row_at i)) _ _ row (p, t)
             (on_snd_run _ _ _ _ _ (row_at_Some _ _ _ Hrow))).
  rewrite Hlen. unfold Go.for_range.
  destruct (for_from_invariant (fun j s => rand_state draws ft pos n i j s)
              (fun j =>
                 do u <- rand_Float64 draws;
                 on_snd (store i j
                           (F64.add (F64.mul u (F64.sub (snd ft) (fst ft)))
                              (fst ft))))
              n 0 (p, t) Hs)
    as (s' & Hrun & Hp & Hs' & Hc).
  { intros j u Hj Hu. apply rand_state_cell; [exact Hi | lia | exact Hu]. }
  exists s'. split; [exact Hrun|].
  split; [simpl in Hp |- *; lia|]. split; [exact Hs'|].
  intros a b Ha Hb. rewrite (Hc a b Ha Hb). f_equal.
  repeat case_decide; try lia; reflexivity.
Qed.

Lemma rand_state_loops :
  exists s,
    Go.for_from (fun i =>
      do row <- on_snd (row_at i);
      Go.for_range (length row) (fun j =>
        do u <- rand_Float64 draws;
        on_snd (store i j
                  (F64.add (F64.mul u (F64.sub (snd ft) (fst ft)))
                     (fst ft))))) 0 n
      (pos, replicate n (replicate n F64.zero))
    = (Return tt, s) /\
    rand_state draws ft pos n n 0 s.
Proof.
  apply (for_from_invariant (fun i s => rand_state draws ft pos n i 0 s)
           _ n 0 _ rand_state_start).
  intros i s Hi Hs. apply rand_state_row; [lia | exact Hs].
Qed.

Lemma rand_vec_state_start :
  rand_vec_state draws ft pos n 0 (pos, replicate n F64.zero).
Proof.
  split; [cbn [fst]; lia|]. split; [apply length_replicate|].
  intros a Ha. cbn [snd]. rewrite lookup_replicate_2 by exact Ha.
  rewrite decide_False by lia. reflexivity.
Qed.

Lemma rand_vec_state_loop :
  exists s,
    Go.for_from (fun i =>
      do u <- rand_Float64 draws;
      on_snd (store_vec i
                (F64.add (F64.mul u (F64.sub (snd ft) (fst ft))) (fst ft))))
      0 n (pos, replicate n F64.zero)
    = (Return tt, s) /\
    rand_vec_state draws ft pos n n s.
Proof.
  apply (for_from_invariant (fun i s => rand_vec_state draws ft pos n i s)
           _ n 0 _ rand_vec_state_start).
  intros i [p v] Hi (Hp & Hv & Hc). cbn [fst snd] in Hp, Hv, Hc.
  exists (S p, <[i := scaled ft (draws p)]> v). split.
  - rewrite (bind_Return (rand_Float64 draws) _ (p, v) (draws p) (S p, v)
               eq_refl).
    apply on_snd_run, store_vec_lt. lia.
  - split; [cbn [fst]; lia|].
    split; [cbn [snd]; rewrite length_insert; exact Hv|].
    intros a Ha. cbn [snd]. destruct (decide (a = i)) as [->|Hne].
    + rewrite list_lookup_insert_eq by lia.
      rewrite Hp, decide_True by lia. reflexivity.
    + rewrite list_lookup_insert_ne by auto. rewrite (Hc a Ha). f_equal.
      repeat case_decide; try lia; reflexivity.
Qed.
End RandomFill.

(** X23: [RandMat(x, y, args...)] never looks at [x].  With at most two
    range arguments and a count [y >= 0] that the run time accepts, [y]
    slice headers of 24 bytes within its limit of [2^48] bytes, it returns
    a [y] by [y] grid, whose cell [(i, j)] is [u*(to-from) + from] for the
    draw [u] number [i*y + j] from where the source stood, and it takes
    [y*y] draws.  A [y] that is negative or over the limit is the run time's
    allocation panic, whatever the arguments; otherwise more than two range
    arguments give the package's message, and no draw is taken. *)
Theorem RandMat_square (draws : nat -> float64) (x : int)
    (args : list float64) (pos : nat) :
  (forall n,
     (Alloc.slice_size * Z.of_nat n <= Alloc.maxAlloc)%Z ->
     length args <= 2 ->
     exists g,
       RandMat draws x (Z.of_nat n) args pos = (Return g, pos + n * n) /\
       rect g n n /\
       forall i j, i < n -> j < n ->
         at2 g i j
         = Some (scaled (range_of args) (draws (pos + i * n + j)))) /\
  (forall y,
     (y < 0 \/ Alloc.maxAlloc < Alloc.slice_size * y)%Z ->
     RandMat draws x y args pos = (Panicked MakesliceLenOutOfRange, pos)) /\
  (forall n,
     (Alloc.slice_size * Z.of_nat n <= Alloc.maxAlloc)%Z ->
     2 < length args ->
     RandMat draws x (Z.of_nat n) args pos
     = (Panicked (Message (Rand_message "RandMat()" (length args))), pos)).
Proof.
  assert (forall n,
            (Alloc.slice_size * Z.of_nat n <= Alloc.maxAlloc)%Z ->
            Alloc.New [Z.of_nat n; Z.of_nat n]
            = Return (replicate n (replicate n F64.zero))) as Hnew.
  { intros n Hn. apply alloc_New_rows_columns; [exact Hn|].
    unfold Alloc.slice_size, Alloc.float64_size in *. lia. }
  split; [|split].
  - intros n Hn Hargs. unfold RandMat, RandMat_body.
    rewrite (Hnew n Hn).
    rewrite (bind_Return (Go.call _) _ _ _ (pos, []) eq_refl).
    rewrite (bind_Return
               (on_snd (Go.put (replicate n (replicate n F64.zero))))
               _ (pos, []) tt
               (pos, replicate n (replicate n F64.zero)) eq_refl).
    rewrite (bind_Return _ _ _ _ _ (rand_range_short _ _ _ Hargs)).
    rewrite length_replicate. unfold Go.for_range.
    destruct (rand_state_loops draws (range_of args) pos n)
      as ([p t] & Hrun & Hp & Ht & Hc).
    rewrite (bind_Return _ _ _ _ _ Hrun).
    rewrite (bind_Return Go.get _ _ _ _ eq_refl).
    simpl in Hp, Ht, Hc |- *. exists t. split; [f_equal; lia|].
    split; [exact Ht|]. intros i j Hi Hj. rewrite (Hc i j Hi Hj). f_equal.
    case_decide; [reflexivity | lia].
  - intros y Hy. unfold RandMat, RandMat_body.
    rewrite (alloc_New_refused_rows y y Hy). reflexivity.
  - intros n Hn Hargs. unfold RandMat, RandMat_body.
    rewrite (Hnew n Hn).
    rewrite (bind_Return (Go.call _) _ _ _ (pos, []) eq_refl).
    rewrite (bind_Return
               (on_snd (Go.put (replicate n (replicate n F64.zero))))
               _ (pos, []) tt
               (pos, replicate n (replicate n F64.zero)) eq_refl).
    rewrite (bind_Panicked _ _ _ _ _ (rand_range_long _ _ _ Hargs)).
    reflexivity.
Qed.

Lemma RandMat_square_witness :
  (exists g,
     RandMat (fun k => PrimFloat.of_uint63 (Uint63.of_Z (Z.of_nat k)))
       7 (Z.of_nat 2) [2; 4]%float 0
     = (Return g, 0 + 2 * 2) /\ rect g 2 2) /\
  RandMat (fun _ => F64.zero) 7 (-1) [] 0
  = (Panicked MakesliceLenOutOfRange, 0) /\
  RandMat (fun _ => F64.zero) 7 (2 ^ 62) [] 0
  = (Panicked MakesliceLenOutOfRange, 0) /\
  RandMat (fun _ => F64.zero) 7 (Z.of_nat 2) [1; 2; 3]%float 0
  = (Panicked (Message (Rand_message "RandMat()" 3)), 0).
Proof.
  split; [|split; [|split]].
  - destruct (RandMat_square
                (fun k => PrimFloat.of_uint63 (Uint63.of_Z (Z.of_nat k)))
                7 [2; 4]%float 0) as (H & _).
    destruct (H 2 ltac:(vm_compute; discriminate) ltac:(simpl; lia))
      as (g & Hg & Hr & _).
    exists g. split; [exact Hg | exact Hr].
  - destruct (RandMat_square (fun _ => F64.zero) 7 [] 0) as (_ & H & _).
    apply H. lia.
  - destruct (RandMat_square (fun _ => F64.zero) 7 [] 0) as (_ & H & _).
    apply H. right. vm_compute. reflexivity.
  - destruct (RandMat_square (fun _ => F64.zero) 7 [1; 2; 3]%float 0)
      as (_ & _ & H).
    apply (H 2); [vm_compute; discriminate | simpl; lia].
Defined.

(** X24: [RandVec(size, args...)] with at most two range arguments and a
    count [size >= 0] that the run time accepts, [size] values of 8 bytes
    within its limit of [2^48] bytes, returns a vector of [size] values,
    the one at [i] being [u*(to-from) + from] for the draw [u] number [i]
    from where the source stood, and it takes [size] draws.  A [size] that
    is negative or over the limit is the run time's allocation panic,
    whatever the arguments; otherwise more than two range arguments give
    the package's message, and no draw is taken. *)
Theorem RandVec_values (draws : nat -> float64) (args : list float64)
    (pos : nat) :
  (forall n,
     (Alloc.float64_size * Z.of_nat n <= Alloc.maxAlloc)%Z ->
     length args <= 2 ->
     exists v,
       RandVec draws (Z.of_nat n) args pos = (Return v, pos + n) /\
       length v = n /\
       forall i, i < n ->
         v !! i = Some (scaled (range_of args) (draws (pos + i)))) /\
  (forall size,
     (size < 0 \/ Alloc.maxAlloc < Alloc.float64_size * size)%Z ->
     RandVec draws size args pos = (Panicked MakesliceLenOutOfRange, pos)) /\
  (forall n,
     (Alloc.float64_size * Z.of_nat n <= Alloc.maxAlloc)%Z ->
     2 < length args ->
     RandVec draws (Z.of_nat n) args pos
     = (Panicked (Message (Rand_message "RandVec()" (length args))), pos)).
Proof.
  split; [|split].
  - intros n Hn Hargs. unfold RandVec, RandVec_body.
    rewrite (bind_Return _ _ _ _ _ (alloc_make_within _ _ _ _ Hn)).
    rewrite (bind_Return (on_snd (Go.put (replicate n F64.zero)))
               _ (pos, []) tt (pos, replicate n F64.zero) eq_refl).
    rewrite (bind_Return _ _ _ _ _ (rand_range_short _ _ _ Hargs)).
    rewrite length_replicate. unfold Go.for_range.
    destruct (rand_vec_state_loop draws (range_of args) pos n)
      as ([p v] & Hrun & Hp & Hv & Hc).
    rewrite (bind_Return _ _ _ _ _ Hrun).
    rewrite (bind_Return Go.get _ _ _ _ eq_refl).
    cbn [fst snd] in Hp, Hv, Hc. cbn beta iota. exists v.
    split; [f_equal; lia|].
    split; [exact Hv|]. intros i Hi. rewrite (Hc i Hi). f_equal.
    case_decide; [reflexivity | lia].
  - intros size Hsize. unfold RandVec, RandVec_body.
    rewrite (bind_Panicked _ _ _ _ _ (alloc_make_refused _ _ _ _ Hsize)).
    reflexivity.
  - intros n Hn Hargs. unfold RandVec, RandVec_body.
    rewrite (bind_Return _ _ _ _ _ (alloc_make_within _ _ _ _ Hn)).
    rewrite (bind_Return (on_snd (Go.put (replicate n F64.zero)))
               _ (pos, []) tt (pos, replicate n F64.zero) eq_refl).
    rewrite (bind_Panicked _ _ _ _ _ (rand_range_long _ _ _ Hargs)).
    reflexivity.
Qed.

Lemma RandVec_values_witness :
  (exists v,
     RandVec (fun k => PrimFloat.of_uint63 (Uint63.of_Z (Z.of_nat k)))
       (Z.of_nat 3) [2]%float 5
     = (Return v, 5 + 3) /\ length v = 3) /\
  RandVec (fun _ => F64.zero) (-1) [] 0
  = (Panicked MakesliceLenOutOfRange, 0) /\
  RandVec (fun _ => F64.zero) (2 ^ 62) [] 0
  = (Panicked MakesliceLenOutOfRange, 0) /\
  RandVec (fun _ => F64.zero) (Z.of_nat 2) [1; 2; 3]%float 0
  = (Panicked (Message (Rand_message "RandVec()" 3)), 0).
Proof.
  split; [|split; [|split]].
  - destruct (RandVec_values
                (fun k => PrimFloat.of_uint63 (Uint63.of_Z (Z.of_nat k)))
                [2]%float 5) as (H & _).
    destruct (H 3 ltac:(vm_compute; discriminate) ltac:(simpl; lia))
      as (v & Hv & Hl & _).
    exists v. split; [exact Hv | exact Hl].
  - destruct (RandVec_values (fun _ => F64.zero) [] 0) as (_ & H & _).
    apply H. lia.
  - destruct (RandVec_values (fun _ => F64.zero) [] 0) as (_ & H & _).
    apply H. right. vm_compute. reflexivity.
  - destruct (RandVec_values (fun _ => F64.zero) [1; 2; 3]%float 0)
      as (_ & _ & H).
    apply (H 2); [vm_compute; discriminate | simpl; lia].
Defined.

(** ** Matrix product of operands whose inner counts differ *)

Lemma sum_upto_ext (k : nat) (f g : nat -> float64) :
  (forall t, t < k -> f t = g t) -> sum_upto k f = sum_upto k g.
Proof.
  induction k as [|k IH]; intros H; [reflexivity|].
  simpl. rewrite IH by (intros t Ht; apply H; lia).
  rewrite (H k) by lia. reflexivity.
Qed.

(** [Dot] reads no row of its second operand past the column count of the
    first. *)
Lemma Dot_take (A B : Grid) (r k : nat) :
  rect A r k -> 0 < k -> Dot A B = Dot A (take k B).
Proof.
  intros HA Hk. unfold Dot. apply run_ext.
  replace (Go.index (St:=Grid) (take k B) 0)
    with (Go.index (St:=Grid) B 0)
    by (unfold Go.index; rewrite lookup_take_lt by exact Hk; reflexivity).
  apply bind_ext; [reflexivity|]. intros n0 s0 _.
  apply bind_ext; [reflexivity|]. intros res s1 _.
  apply bind_ext; [reflexivity|]. intros [] s2 _.
  apply bind_ext; [|reflexivity].
  unfold Go.for_range. apply for_from_ext. intros i t _.
  apply bind_ext; [reflexivity|]. intros n0' s3 _.
  apply for_from_ext. intros j u _.
  apply bind_ext; [reflexivity|]. intros mi s4 Hmi.
  apply index_inv in Hmi.
  pose proof (rect_lookup _ _ _ _ _ HA Hmi) as Hlen.
  apply for_from_ext. intros kk v Hkk.
  apply bind_ext; [reflexivity|]. intros acc s5 _.
  apply bind_ext; [reflexivity|]. intros x s6 _.
  apply bind_ext; [|reflexivity].
  unfold Go.index. rewrite lookup_take_lt by lia. reflexivity.
Qed.

Lemma dot_cell_take (A B : Grid) (k i j : nat) :
  dot_cell A (take k B) k i j = dot_cell A B k i j.
Proof.
  unfold dot_cell. apply sum_upto_ext. intros t Ht.
  unfold entry, at2. rewrite lookup_take_lt by exact Ht. reflexivity.
Qed.

(** The innermost loop stops at the first row that the second operand does
    not have. *)
Lemma Dot_missing_row (A B : Grid) (r k k' c : nat) :
  rect A r k -> rect B k' c -> 0 < k' < k -> 0 < r -> 0 < c ->
  Dot A B = Panicked IndexOutOfRange.
Proof.
  intros HA HB Hk Hr Hc.
  destruct (lookup_lt_is_Some_2 B 0) as [n0 Hn0].
  { destruct HB as [-> _]. lia. }
  pose proof (rect_lookup _ _ _ _ _ HB Hn0) as Hn0len.
  destruct (lookup_lt_is_Some_2 A 0) as [mi Hmi].
  { destruct HA as [-> _]. lia. }
  pose proof (rect_lookup _ _ _ _ _ HA Hmi) as Hmilen.
  pose proof HA as [Hlen _].
  unfold Dot, Go.run.
  rewrite (bind_Return _ _ _ _ _ (index_Some _ _ _ _ Hn0)).
  unfold Int.len. rewrite Hn0len, Hlen, New_rows_columns.
  rewrite (bind_Return (Go.call _) _ _ _ [] eq_refl).
  rewrite (bind_Return (Go.put _) _ _ tt
             (replicate r (replicate c F64.zero)) eq_refl).
  unfold Go.for_range.
  destruct r as [|r']; [lia|]. destruct c as [|c']; [lia|].
  assert (exists t,
    Go.for_from (fun kk =>
      do acc <- load 0 0;
      do x <- Go.index mi kk;
      do nk <- Go.index B kk;
      do y <- Go.index nk 0;
      store 0 0 (F64.add acc (F64.mul x y))) 0 (length mi)
      (replicate (S r') (replicate (S c') F64.zero))
    = (Panicked IndexOutOfRange, t) /\ True) as (t & Hrun & _).
  { apply (for_from_panics (fun _ t => rect t (S r') (S c')) (fun _ => True)
             _ _ _ 0 k'); [lia | apply rect_replicate | |].
    - intros kk t Hkk Ht.
      destruct (proj2 (rect_at2 t _ _ 0 0 Ht)) as [acc Hacc]; [lia|].
      destruct (lookup_lt_is_Some_2 mi kk) as [x Hx]; [lia|].
      destruct (lookup_lt_is_Some_2 B kk) as [nk Hnk].
      { destruct HB as [-> _]. lia. }
      destruct (lookup_lt_is_Some_2 nk 0) as [y Hy].
      { rewrite (rect_lookup _ _ _ _ _ HB Hnk). lia. }
      eexists. split.
      + rewrite (bind_Return _ _ _ _ _ (load_Some _ _ _ _ Hacc)).
        rewrite (bind_Return _ _ _ _ _ (index_Some _ _ _ _ Hx)).
        rewrite (bind_Return _ _ _ _ _ (index_Some _ _ _ _ Hnk)).
        rewrite (bind_Return _ _ _ _ _ (index_Some _ _ _ _ Hy)).
        eapply store_Some, Hacc.
      + apply rect_upd2, Ht.
    - intros t Ht. exists t. split; [|exact Logic.I].
      destruct (proj2 (rect_at2 t _ _ 0 0 Ht)) as [acc Hacc]; [lia|].
      destruct (lookup_lt_is_Some_2 mi k') as [x Hx]; [lia|].
      rewrite (bind_Return _ _ _ _ _ (load_Some _ _ _ _ Hacc)).
      rewrite (bind_Return _ _ _ _ _ (index_Some _ _ _ _ Hx)).
      apply bind_Panicked, index_None, lookup_ge_None_2.
      destruct HB as [-> _]. lia. }
  erewrite bind_Panicked; [reflexivity|].
  apply for_from_first_panics.
  rewrite (bind_Return _ _ _ _ _ (index_Some _ _ _ _ Hn0)).
  rewrite Hn0len. apply for_from_first_panics.
  rewrite (bind_Return _ _ _ _ _ (index_Some _ _ _ _ Hmi)).
  exact Hrun.
Qed.

(** X25: [Dot] does not compare the column count [k] of its first operand
    with the row count [k'] of the second.  With [k' >= k >= 1] it returns
    without a panic the [r] by [c] product of the first operand and the
    first [k] rows of the second, the rows past [k] being ignored; with
    [1 <= k' < k], and a row and a column to fill, it stops with the run
    time's index panic. *)
Theorem Dot_inner_mismatch (A B : Grid) (r k k' c : nat) :
  rect A r k -> rect B k' c ->
  (0 < k <= k' ->
   exists C,
     Dot A B = Return C /\ rect C r c /\
     (forall i j, i < r -> j < c -> at2 C i j = Some (dot_cell A B k i j)) /\
     Dot A (take k B) = Return C) /\
  (0 < k' < k -> 0 < r -> 0 < c -> Dot A B = Panicked IndexOutOfRange).
Proof.
  intros HA HB. split.
  - intros Hk.
    assert (rect (take k B) k c) as HB'.
    { pose proof (rect_take _ _ _ k HB) as H.
      replace (min k k') with k in H by lia. exact H. }
    destruct (Dot_loops A (take k B) r k c HA HB' (proj1 Hk))
      as (t & Hrun & Ht & Hcells).
    assert (Dot A (take k B) = Return t) as Hdot.
    { destruct (lookup_lt_is_Some_2 (take k B) 0) as [n0 Hn0].
      { destruct HB' as [-> _]. lia. }
      pose proof (rect_lookup _ _ _ _ _ HB' Hn0) as Hn0len.
      pose proof HA as [Hlen _].
      unfold Dot, Go.run.
      rewrite (bind_Return _ _ _ _ _ (index_Some _ _ _ _ Hn0)).
      unfold Int.len. rewrite Hn0len, Hlen, New_rows_columns.
      rewrite (bind_Return (Go.call _) _ _ _ [] eq_refl).
      rewrite (bind_Return (Go.put _) _ _ tt
                 (replicate r (replicate c F64.zero)) eq_refl).
      unfold Go.for_range.
      rewrite (bind_Return _ _ _ _ _ Hrun). reflexivity. }
    exists t. rewrite (Dot_take A B r k HA (proj1 Hk)).
    split; [exact Hdot|]. split; [exact Ht|]. split; [|exact Hdot].
    intros i j Hi Hj. rewrite (Hcells i j Hi Hj). f_equal.
    rewrite <- dot_cell_take.
    unfold dot_progress. repeat case_decide; try lia; reflexivity.
  - intros Hk Hr Hc. exact (Dot_missing_row A B r k k' c HA HB Hk Hr Hc).
Qed.

Lemma Dot_inner_mismatch_witness :
  (exists C,
     Dot [[1; 2]]%float [[3]; [4]; [5]]%float = Return C /\ rect C 1 1) /\
  Dot [[1; 2]]%float [[3]]%float = Panicked IndexOutOfRange.
Proof.
  split.
  - destruct (Dot_inner_mismatch [[1; 2]]%float [[3]; [4]; [5]]%float
                1 2 3 1) as ((C & HC & Hr & _) & _).
    + split; [reflexivity | repeat constructor].
    + split; [reflexivity | repeat constructor].
    + lia.
    + exists C. split; [exact HC | exact Hr].
  - destruct (Dot_inner_mismatch [[1; 2]]%float [[3]]%float 1 2 1 1)
      as (_ & H).
    + split; [reflexivity | repeat constructor].
    + split; [reflexivity | repeat constructor].
    + apply H; lia.
Defined.

(** * Slices over shared storage *)

(** ** Loops that run in step *)

(** Two loops whose iterations end alike, from stores that [R] relates,
    end alike. *)
Lemma for_from_sim {S1 S2} (R : S1 -> S2 -> Prop)
    (b1 : nat -> go S1 unit) (b2 : nat -> go S2 unit) n :
  forall i s t,
    R s t ->
    (forall k s t, i <= k < i + n -> R s t ->
       exists o s' t', b1 k s = (o, s') /\ b2 k t = (o, t') /\ R s' t') ->
    exists o s' t',
      Go.for_from b1 i n s = (o, s') /\
      Go.for_from b2 i n t = (o, t') /\ R s' t'.
Proof.
  induction n as [|n IH]; intros i s t HR Hstep.
  - exists (Return tt), s, t. repeat split; [reflexivity.. | exact HR].
  - destruct (Hstep i s t ltac:(lia) HR) as (o & s1 & t1 & H1 & H2 & HR1).
    destruct o as [[]|p].
    + destruct (IH (S i) s1 t1 HR1) as (o & s' & t' & H1' & H2' & HR').
      { intros k s0 t0 Hk. apply Hstep. lia. }
      exists o, s', t'. cbn [Go.for_from].
      rewrite (bind_Return _ _ _ _ _ H1), (bind_Return _ _ _ _ _ H2).
      auto.
    + exists (Panicked p), s1, t1. cbn [Go.for_from].
      rewrite (bind_Panicked _ _ _ _ _ H1), (bind_Panicked _ _ _ _ _ H2).
      auto.
Qed.

(** ** Cells of a slice *)

Lemma cell_default (h : Mem.heap) a p : default [] (h !! a) !! p = at2 h a p.
Proof. unfold at2. destruct (h !! a); reflexivity. Qed.

Lemma contents_lookup (h : Mem.heap) (s : Mem.slice) j :
  Mem.contents h s !! j
  = if decide (j < Mem.len s)
    then at2 h (Mem.arr s) (Mem.off s + j) else None.
Proof.
  unfold Mem.contents. case_decide.
  - rewrite lookup_take_lt by assumption.
    rewrite lookup_drop. apply cell_default.
  - apply lookup_take_ge. lia.
Qed.

Lemma fits_cell (h : Mem.heap) (s : Mem.slice) j :
  Mem.fits h s -> j < Mem.cap s ->
  is_Some (at2 h (Mem.arr s) (Mem.off s + j)).
Proof.
  intros [_ H] Hj. rewrite <- cell_default.
  apply lookup_lt_is_Some_2. lia.
Qed.

Lemma length_contents (h : Mem.heap) (s : Mem.slice) :
  Mem.fits h s -> length (Mem.contents h s) = Mem.len s.
Proof.
  intros [H1 H2]. unfold Mem.contents.
  rewrite length_take, length_drop. lia.
Qed.

Lemma contents_ext (h h' : Mem.heap) (s : Mem.slice) :
  (forall j, j < Mem.len s ->
     at2 h' (Mem.arr s) (Mem.off s + j) = at2 h (Mem.arr s) (Mem.off s + j)) ->
  Mem.contents h' s = Mem.contents h s.
Proof.
  intros H. apply list_eq. intros j. rewrite !contents_lookup.
  case_decide; [apply H; assumption | reflexivity].
Qed.

Lemma at2_grid_of (h : Mem.heap) (m : list Mem.slice) i j s :
  m !! i = Some s ->
  at2 (Mem.grid_of h m) i j = Mem.contents h s !! j.
Proof.
  intros Hs. unfold at2, Mem.grid_of. rewrite list_lookup_fmap, Hs.
  reflexivity.
Qed.

Lemma array_length_upd2 (h : Mem.heap) a p z a' :
  length (default [] (upd2 h a p z !! a')) = length (default [] (h !! a')).
Proof.
  pose proof (lengths_upd2 h a p z) as H.
  assert ((length <$> upd2 h a p z) !! a' = (length <$> h) !! a') as H'
    by (rewrite H; reflexivity).
  rewrite !list_lookup_fmap in H'.
  destruct (upd2 h a p z !! a'), (h !! a'); simpl in *; congruence.
Qed.

Lemma fits_upd2 (h : Mem.heap) a p z (s : Mem.slice) :
  Mem.fits h s -> Mem.fits (upd2 h a p z) s.
Proof. unfold Mem.fits. rewrite array_length_upd2. auto. Qed.

(** Two cells of parts that are apart are two cells. *)
Lemma apart_cells (s t : Mem.slice) n k i j :
  Mem.apart s n t k -> i < n -> j < k ->
  ~ (Mem.arr s = Mem.arr t /\ Mem.off s + i = Mem.off t + j).
Proof. unfold Mem.apart. intros H Hi Hj [H1 H2]. lia. Qed.

Lemma apart_sym (s t : Mem.slice) n k :
  Mem.apart s n t k -> Mem.apart t k s n.
Proof. unfold Mem.apart. intros H. lia. Qed.

(** A write into the cells of [s] leaves the values of what is apart. *)
Lemma contents_upd2_apart (h : Mem.heap) (s t : Mem.slice) n i z x :
  at2 h (Mem.arr s) (Mem.off s + i) = Some x ->
  Mem.apart s n t (Mem.len t) -> i < n ->
  Mem.contents (upd2 h (Mem.arr s) (Mem.off s + i) z) t = Mem.contents h t.
Proof.
  intros Hx Hap Hi. apply contents_ext. intros j Hj.
  rewrite (at2_upd2 _ _ _ _ _ _ _ Hx).
  case_decide as Heq; [|reflexivity].
  exfalso. apply (apart_cells _ _ _ _ i j Hap Hi Hj).
  destruct Heq as [-> ->]. auto.
Qed.

(** ** The vector kernels over shared storage *)

Section MemVecKernel.
Variable op : float64 -> float64 -> float64.
Variables (m : list Mem.slice) (v : Mem.slice) (vv : Vector).

Let R (h : Mem.heap) (g : Grid) : Prop := held_in Mem.len v vv (h, m) g.

(** [m[i][j] op= v[j]] over the arrays and over the values. *)
Lemma mem_vec_cell i j h g :
  i < length m -> j < Mem.len v -> R h g ->
  exists o h' g',
    (do mi <- Go.index m i;
     do x <- Mem.elem mi j;
     do y <- Mem.elem v j;
     Mem.set_elem mi j (op x y)) h = (o, h') /\
    (do x <- load i j;
     do y <- Go.index vv j;
     store i j (op x y)) g = (o, g') /\
    R h' g'.
Proof.
  intros Hi Hj ((Hv & Hrows & Hpair) & Hg & Hvv). cbn [fst snd] in *.
  destruct (lookup_lt_is_Some_2 m i Hi) as [mi Hmi].
  destruct (Hrows i mi Hmi) as [Hfit Hapv].
  rewrite (bind_Return _ _ _ _ _ (index_Some _ _ _ _ Hmi)).
  assert (at2 g i j = Mem.contents h mi !! j) as Hgij
    by (rewrite <- Hg; apply at2_grid_of, Hmi).
  rewrite contents_lookup in Hgij. unfold Mem.elem at 1.
  destruct (decide (j < Mem.len mi)) as [Hjm|Hjm].
  - destruct (fits_cell h mi j Hfit) as [x Hx]; [destruct Hfit; lia|].
    destruct (fits_cell h v j Hv) as [y Hy]; [destruct Hv; lia|].
    assert (vv !! j = Some y) as Hvj.
    { rewrite <- Hvv, contents_lookup.
      destruct (decide (j < Mem.len v)); [exact Hy | lia]. }
    rewrite Hx in Hgij.
    exists (Return tt), (upd2 h (Mem.arr mi) (Mem.off mi + j) (op x y)),
      (upd2 g i j (op x y)).
    split; [|split].
    + rewrite (bind_Return _ _ _ _ _ (load_Some _ _ _ _ Hx)).
      unfold Mem.elem. destruct (decide (j < Mem.len v)); [|lia].
      rewrite (bind_Return _ _ _ _ _ (load_Some _ _ _ _ Hy)).
      unfold Mem.set_elem. destruct (decide (j < Mem.len mi)); [|lia].
      eapply store_Some, Hx.
    + rewrite (bind_Return _ _ _ _ _ (load_Some _ _ _ _ Hgij)).
      rewrite (bind_Return _ _ _ _ _ (index_Some _ _ _ _ Hvj)).
      eapply store_Some, Hgij.
    + split; [split; [|split]|split]; cbn [fst snd].
      * apply fits_upd2, Hv.
      * intros a s Hs. destruct (Hrows a s Hs). split; [|assumption].
        apply fits_upd2. assumption.
      * exact Hpair.
      * apply grid_ext.
        { rewrite lengths_upd2, <- Hg. unfold Mem.grid_of.
          rewrite <- !list_fmap_compose. apply list_fmap_ext.
          intros a s Hs. simpl.
          destruct (Hrows a s Hs) as [Hfs _].
          rewrite !length_contents; [reflexivity | exact Hfs|].
          apply fits_upd2, Hfs. }
        intros a b. rewrite (at2_upd2 _ _ _ _ _ _ _ Hgij).
        destruct (m !! a) as [s|] eqn:Hs.
        -- rewrite (at2_grid_of _ _ _ _ _ Hs), contents_lookup.
           rewrite (at2_upd2 _ _ _ _ _ _ _ Hx).
           assert (at2 g a b = Mem.contents h s !! b) as Hgab
             by (rewrite <- Hg; apply at2_grid_of, Hs).
           rewrite contents_lookup in Hgab.
           rewrite Hgab.
           destruct (decide (a = i /\ b = j)) as [[-> ->]|Hne].
           ++ assert (s = mi) as -> by congruence.
              rewrite decide_True by assumption.
              rewrite decide_True by auto. reflexivity.
           ++ destruct (decide (b < Mem.len s)) as [Hb|Hb]; [|reflexivity].
              destruct (decide (Mem.arr s = Mem.arr mi /\
                                Mem.off s + b = Mem.off mi + j))
                as [[He1 He2]|_]; [|reflexivity].
              exfalso. destruct (decide (a = i)) as [->|Hai].
              ** assert (s = mi) as -> by congruence.
                 apply Hne. split; [reflexivity | lia].
              ** apply (apart_cells _ _ _ _ b j
                          (Hpair a i s mi Hai Hs Hmi)); auto.
        -- assert (at2 g a b = None) as ->.
           { rewrite <- Hg. unfold at2, Mem.grid_of.
             rewrite list_lookup_fmap, Hs. reflexivity. }
           unfold at2 at 1, Mem.grid_of. rewrite list_lookup_fmap, Hs.
           simpl. destruct (decide (a = i /\ b = j)) as [[-> _]|_];
             [congruence | reflexivity].
      * rewrite <- Hvv.
        apply (contents_upd2_apart _ _ _ (Mem.len mi) _ _ x Hx Hapv Hjm).
  - exists (Panicked IndexOutOfRange), h, g. split; [|split].
    + apply bind_Panicked. reflexivity.
    + apply bind_Panicked, load_None, Hgij.
    + split; [split; [|split]|split]; assumption.
Qed.

(** The kernel over separate slices is the kernel over their values. *)
Lemma mem_vec_kernel_values h :
  Mem.separate Mem.len h m v -> vv = Mem.contents h v ->
  exists o h' g',
    Mem.vec_kernel op m v h = (o, h') /\
    vec_kernel op vv (Mem.grid_of h m) = (o, g') /\
    R h' g'.
Proof.
  intros Hsep Hvv.
  assert (length vv = Mem.len v) as Hlen
    by (rewrite Hvv; apply length_contents, Hsep).
  unfold Mem.vec_kernel, vec_kernel.
  rewrite (bind_Return Go.get _ _ _ _ eq_refl).
  unfold Mem.grid_of at 1. rewrite length_fmap, Hlen.
  unfold Go.for_range.
  apply (for_from_sim R); [unfold R, held_in; cbn [fst snd]; auto|].
  intros i h0 g0 Hi HR.
  apply (for_from_sim R); [exact HR|].
  intros j h1 g1 Hj HR1. apply mem_vec_cell; [lia | lia | exact HR1].
Qed.
End MemVecKernel.

(** C4, as stated, fails for a vector that shares storage with the grid.
    In [AddVec(m, m[0])] on the 2x2 grid [[1 2] [3 4]] the operand is the
    first row itself: it has been doubled when the second row is reached,
    and the second row gets [[2 4]] added where the first got [[1 2]].
    What is left is [[2 4] [5 8]]: neither every row combined with the
    vector as it was at the call, [[2 4] [4 6]], nor every row combined
    with the vector as it is at the end, [[3 6] [5 8]].  [Add(m, m[0])]
    leaves the same. *)
Lemma AddVec_of_own_row :
  rect (Mem.grid_of [[1; 2]; [3; 4]]%float
          [Mem.Slice 0 0 2 2; Mem.Slice 1 0 2 2]) 2 2 /\
  Mem.len (Mem.Slice 0 0 2 2) = 2 /\
  Mem.vector_kernel FAdd [Mem.Slice 0 0 2 2; Mem.Slice 1 0 2 2]
    (Mem.Slice 0 0 2 2) [[1; 2]; [3; 4]]%float
  = (Return tt, [[2; 4]; [5; 8]]%float) /\
  Mem.dispatcher FAdd [Mem.Slice 0 0 2 2; Mem.Slice 1 0 2 2]
    (Mem.OVec (Mem.Slice 0 0 2 2)) [[1; 2]; [3; 4]]%float
  = (Return tt, [[2; 4]; [5; 8]]%float) /\
  Mem.grid_of [[2; 4]; [5; 8]]%float [Mem.Slice 0 0 2 2; Mem.Slice 1 0 2 2]
  = [[2; 4]; [5; 8]]%float /\
  (fun row =>
     zip_with (operator FAdd) row
       (Mem.contents [[1; 2]; [3; 4]]%float (Mem.Slice 0 0 2 2)))
  <$> Mem.grid_of [[1; 2]; [3; 4]]%float
        [Mem.Slice 0 0 2 2; Mem.Slice 1 0 2 2]
  = [[2; 4]; [4; 6]]%float /\
  (fun row =>
     zip_with (operator FAdd) row
       (Mem.contents [[2; 4]; [5; 8]]%float (Mem.Slice 0 0 2 2)))
  <$> Mem.grid_of [[1; 2]; [3; 4]]%float
        [Mem.Slice 0 0 2 2; Mem.Slice 1 0 2 2]
  = [[3; 6]; [5; 8]]%float /\
  [[2; 4]; [5; 8]]%float <> [[2; 4]; [4; 6]]%float /\
  [[2; 4]; [5; 8]]%float <> [[3; 6]; [5; 8]]%float.
Proof.
  split; [split; [reflexivity | repeat constructor]|].
  do 6 (split; [vm_compute; reflexivity|]).
  split.
  - apply (grid_neq _ _ 1 0 5%float); vm_compute; reflexivity.
  - apply (grid_neq _ _ 0 0 2%float); vm_compute; reflexivity.
Qed.

(** C4, amended: on a rectangular grid [m] of [c] columns whose rows lie
    within their arrays and share no cell with each other, and a vector [v]
    of length exactly [c] that lies within its array and shares no cell
    with a row of [m], each of AddVec, SubVec, MultVec and DivVec, and each
    of Add, Sub, Mult and Div called with [v], returns without a panic,
    leaves [v] as it was and every row zipped with [v] under the operator:
    cell [(i, j)] holds [m[i][j] op v[j]], the same [v] for every row.
    This is what the kernel and the dispatcher over values compute. *)
Theorem vector_kernels_broadcast (o : family) (h : Mem.heap)
    (m : list Mem.slice) (v : Mem.slice) (r c : nat) :
  Mem.separate Mem.len h m v ->
  rect (Mem.grid_of h m) r c -> Mem.len v = c ->
  exists h',
    Mem.vector_kernel o m v h = (Return tt, h') /\
    Mem.dispatcher o m (Mem.OVec v) h = (Return tt, h') /\
    Mem.contents h' v = Mem.contents h v /\
    Mem.grid_of h' m
    = (fun row => zip_with (operator o) row (Mem.contents h v))
      <$> Mem.grid_of h m /\
    rect (Mem.grid_of h' m) r c /\
    (forall i j x,
       at2 (Mem.grid_of h m) i j = Some x ->
       exists y,
         Mem.contents h v !! j = Some y /\
         at2 (Mem.grid_of h' m) i j = Some (operator o x y)) /\
    vector_kernel o (Mem.contents h v) (Mem.grid_of h m)
    = (Return tt, Mem.grid_of h' m) /\
    dispatcher o (OVec (Mem.contents h v)) (Mem.grid_of h m)
    = (Return tt, Mem.grid_of h' m).
Proof.
  intros Hsep Hm Hv.
  assert (length (Mem.contents h v) = c) as Hlen
    by (rewrite <- Hv; apply length_contents, Hsep).
  destruct (vector_kernels_zip o _ r c _ Hm Hlen)
    as (m' & Hk & Hd & Hzip & Hrect & Hcells).
  destruct (mem_vec_kernel_values (operator o) m v _ h Hsep eq_refl)
    as (out & h' & g' & Hmem & Hval & _ & Hg' & Hv').
  cbn [fst snd] in Hg', Hv'.
  rewrite vector_kernel_op in Hk. rewrite Hk in Hval.
  injection Hval as <- <-.
  exists h'. unfold Mem.vector_kernel, Mem.dispatcher.
  rewrite Hg', vector_kernel_op, dispatcher_OVec.
  split; [exact Hmem|]. split; [exact Hmem|]. split; [exact Hv'|].
  split; [exact Hzip|]. split; [exact Hrect|]. split; [exact Hcells|].
  split; exact Hk.
Qed.

Lemma vector_kernels_broadcast_witness :
  exists h',
    Mem.vector_kernel FAdd [Mem.Slice 0 0 2 2; Mem.Slice 1 0 2 2]
      (Mem.Slice 2 0 2 2) [[1; 2]; [3; 4]; [10; 20]]%float
    = (Return tt, h') /\
    Mem.grid_of h' [Mem.Slice 0 0 2 2; Mem.Slice 1 0 2 2]
    = [[11; 22]; [13; 24]]%float.
Proof.
  destruct (vector_kernels_broadcast FAdd [[1; 2]; [3; 4]; [10; 20]]%float
              [Mem.Slice 0 0 2 2; Mem.Slice 1 0 2 2] (Mem.Slice 2 0 2 2)
              2 2)
    as (h' & Hk & _ & _ & Hg & _).
  - split; [split; simpl; lia|]. split.
    + intros [|[|i]] s; simpl; intros [= <-];
        (split; [split; simpl; lia | unfold Mem.apart; simpl; lia]).
    + intros [|[|i]] [|[|j]] s t Hne; simpl; intros [= <-] [= <-];
        try (unfold Mem.apart; simpl; lia); contradiction.
  - split; [reflexivity | repeat constructor].
  - reflexivity.
  - exists h'. split; [exact Hk|]. rewrite Hg. vm_compute. reflexivity.
Defined.

(** ** AppendCol over shared storage *)

Lemma on_fst_run {S1 S2 A} (c : go S1 A) (t : S2) s o s' :
  c s = (o, s') -> on_fst c (s, t) = (o, (s', t)).
Proof. intros H. unfold on_fst. simpl. rewrite H. reflexivity. Qed.

Lemma apart_le (s t : Mem.slice) n k n' k' :
  Mem.apart s n t k -> n' <= n -> k' <= k -> Mem.apart s n' t k'.
Proof. unfold Mem.apart. intros H Hn Hk. lia. Qed.

(** A slice with a cell has an array. *)
Lemma fits_array (h : Mem.heap) (s : Mem.slice) :
  Mem.fits h s -> 0 < Mem.cap s -> Mem.arr s < length h.
Proof.
  intros [_ H] Hc. apply lookup_lt_is_Some.
  destruct (h !! Mem.arr s); [eauto|]. simpl in H. lia.
Qed.

Lemma fits_app (h : Mem.heap) (new : list float64) (s : Mem.slice) :
  Mem.fits h s -> Mem.fits (h ++ [new]) s.
Proof.
  intros [H1 H2]. split; [exact H1|].
  destruct (h !! Mem.arr s) as [a|] eqn:Ha.
  - rewrite (lookup_app_l_Some _ _ _ _ Ha). exact H2.
  - simpl in H2. lia.
Qed.

Lemma contents_app (h : Mem.heap) (new : list float64) (s : Mem.slice) :
  Mem.fits h s -> Mem.contents (h ++ [new]) s = Mem.contents h s.
Proof.
  intros Hs. apply contents_ext. intros j Hj.
  rewrite at2_app.
  assert (Mem.arr s < length h) as Hlt
    by (apply fits_array; [exact Hs | destruct Hs; lia]).
  apply Nat.ltb_lt in Hlt. rewrite Hlt. reflexivity.
Qed.

Section MemAppendCol.
Variable room : nat -> nat.
Variables (v : Mem.slice) (vv : Vector).

Let R (s : Mem.heap * list Mem.slice) (g : Grid) : Prop :=
  held_in Mem.cap v vv s g.

(** Row [i] replaced by [t], which holds its values and [y], in arrays
    [h'] that keep what is apart from the capacity of the row. *)
Lemma held_in_update (h h' : Mem.heap) (m : list Mem.slice) (g : Grid) i
    (mi t : Mem.slice) y :
  R (h, m) g -> m !! i = Some mi ->
  (forall s, Mem.fits h s -> Mem.apart mi (Mem.cap mi) s (Mem.len s) ->
     Mem.fits h' s /\ Mem.contents h' s = Mem.contents h s) ->
  Mem.fits h' t ->
  Mem.contents h' t = Mem.contents h mi ++ [y] ->
  (forall s k, Mem.fits h s -> k <= Mem.cap s ->
     Mem.apart mi (Mem.cap mi) s k -> Mem.apart t (Mem.cap t) s k) ->
  R (h', <[i := t]> m) (<[i := Mem.contents h mi ++ [y]]> g).
Proof.
  intros ((Hv & Hrows & Hpair) & Hg & Hvv) Hmi Hframe Hfit Hcont Hap.
  cbn [fst snd] in *.
  pose proof (lookup_lt_Some _ _ _ Hmi) as Hi.
  assert (forall a s, a <> i -> m !! a = Some s ->
            Mem.fits h' s /\ Mem.contents h' s = Mem.contents h s)
    as Hother.
  { intros a s Ha Hs. destruct (Hrows a s Hs) as [Hfs _].
    apply Hframe; [exact Hfs|].
    apply (apart_le _ _ _ _ _ _ (Hpair i a mi s (not_eq_sym Ha) Hmi Hs));
      [lia | destruct Hfs; lia]. }
  destruct (Hrows i mi Hmi) as [Hfmi Hapv].
  destruct (Hframe v Hv Hapv) as [Hv' Hcv].
  split; [split; [exact Hv'|split]|split]; cbn [fst snd].
  - intros a s. destruct (decide (a = i)) as [->|Ha].
    + rewrite list_lookup_insert_eq by exact Hi. intros [= <-].
      split; [exact Hfit|].
      apply Hap; [exact Hv | destruct Hv; lia | exact Hapv].
    + rewrite list_lookup_insert_ne by auto. intros Hs.
      split; [apply (Hother a s Ha Hs) | apply (Hrows a s Hs)].
  - intros a b s u Hab.
    destruct (decide (a = i)) as [->|Ha], (decide (b = i)) as [->|Hb];
      [contradiction|..].
    + rewrite list_lookup_insert_eq by exact Hi.
      rewrite list_lookup_insert_ne by auto. intros [= <-] Hu.
      destruct (Hrows b u Hu) as [Hfu _].
      apply Hap; [exact Hfu | lia | exact (Hpair i b mi u Hab Hmi Hu)].
    + rewrite list_lookup_insert_ne by auto.
      rewrite list_lookup_insert_eq by exact Hi. intros Hs [= <-].
      destruct (Hrows a s Hs) as [Hfs _].
      apply apart_sym, Hap; [exact Hfs | lia|].
      exact (Hpair i a mi s (not_eq_sym Hab) Hmi Hs).
    + rewrite !list_lookup_insert_ne by auto. apply Hpair, Hab.
  - unfold Mem.grid_of. rewrite list_fmap_insert, Hcont.
    apply list_eq. intros a. destruct (decide (a = i)) as [->|Ha].
    + rewrite !list_lookup_insert_eq; [reflexivity | |].
      * rewrite <- Hg. unfold Mem.grid_of. rewrite length_fmap. exact Hi.
      * rewrite length_fmap. exact Hi.
    + rewrite !list_lookup_insert_ne by auto.
      rewrite <- Hg. unfold Mem.grid_of. rewrite !list_lookup_fmap.
      destruct (m !! a) as [s|] eqn:Hs; [|reflexivity]. simpl. f_equal.
      apply (Hother a s Ha Hs).
  - rewrite Hcv. exact Hvv.
Qed.

(** [append] to row [i], in place or into a new array. *)
Lemma mem_append_held (h : Mem.heap) (m : list Mem.slice) (g : Grid) i
    (mi : Mem.slice) y :
  R (h, m) g -> m !! i = Some mi ->
  exists t h',
    Mem.append room mi y h = (Return t, h') /\
    R (h', <[i := t]> m) (<[i := Mem.contents h mi ++ [y]]> g).
Proof.
  intros HR Hmi. pose proof HR as ((Hv & Hrows & _) & _).
  cbn [fst snd] in *. destruct (Hrows i mi Hmi) as [Hfmi _].
  pose proof (length_contents h mi Hfmi) as Hlen.
  unfold Mem.append. destruct (decide (Mem.len mi < Mem.cap mi)) as [Hc|Hc].
  - destruct (fits_cell h mi (Mem.len mi) Hfmi Hc) as [x Hx].
    eexists _, _. split.
    { rewrite (bind_Return _ _ _ _ _ (store_Some _ _ _ _ y Hx)).
      reflexivity. }
    apply (held_in_update h _ m g i mi _ y HR Hmi).
    + intros s Hs Hap. split; [apply fits_upd2, Hs|].
      apply (contents_upd2_apart _ _ _ (Mem.cap mi) _ _ x Hx Hap Hc).
    + destruct Hfmi as [H1 H2]. split; cbn; [lia|].
      rewrite array_length_upd2. exact H2.
    + apply list_eq. intros j. rewrite contents_lookup. cbn.
      rewrite (at2_upd2 _ _ _ _ _ _ _ Hx).
      destruct (decide (j < Mem.len mi)) as [Hj|Hj].
      * rewrite lookup_app_l by lia. rewrite contents_lookup.
        destruct (decide (j < S (Mem.len mi))); [|lia].
        destruct (decide (Mem.arr mi = Mem.arr mi /\
                          Mem.off mi + j = Mem.off mi + Mem.len mi))
          as [[_ He]|_]; [lia|].
        destruct (decide (j < Mem.len mi)); [reflexivity | lia].
      * rewrite lookup_app_r by lia. rewrite Hlen.
        destruct (decide (j = Mem.len mi)) as [->|Hne].
        -- destruct (decide (Mem.len mi < S (Mem.len mi))); [|lia].
           destruct (decide (Mem.arr mi = Mem.arr mi /\
                             Mem.off mi + Mem.len mi
                             = Mem.off mi + Mem.len mi))
             as [_|Hn]; [|exfalso; apply Hn; auto].
           rewrite Nat.sub_diag. reflexivity.
        -- destruct (decide (j < S (Mem.len mi))); [lia|].
           symmetry. apply lookup_ge_None_2. simpl. lia.
    + intros s k _ _ Hap. exact Hap.
  - eexists _, _. split.
    { rewrite (bind_Return Go.get _ _ _ _ eq_refl).
      rewrite (bind_Return (Go.put _) _ _ tt _ eq_refl). reflexivity. }
    apply (held_in_update h _ m g i mi _ y HR Hmi).
    + intros s Hs _. split; [apply fits_app, Hs | apply contents_app, Hs].
    + split; cbn; [lia|].
      rewrite list_lookup_middle by reflexivity. simpl.
      rewrite length_app, Hlen. simpl. rewrite length_replicate. lia.
    + unfold Mem.contents at 1. cbn.
      rewrite list_lookup_middle by reflexivity. simpl.
      replace (S (Mem.len mi)) with (length (Mem.contents h mi) + 1)
        by lia.
      rewrite drop_0, take_app_add. reflexivity.
    + intros s k Hs Hk _. unfold Mem.apart. cbn.
      destruct (decide (k = 0)) as [->|Hk0]; [lia|].
      pose proof (fits_array h s Hs ltac:(lia)). lia.
Qed.

(** [m[i] = append(m[i], v[i])] over the arrays and over the values. *)
Lemma mem_append_row i s g :
  i < Mem.len v -> R s g ->
  exists o s' g',
    (do mi <- on_snd (Mem.header i);
     do y <- on_fst (Mem.elem v i);
     do t <- on_fst (Mem.append room mi y);
     on_snd (Mem.set_header i t)) s = (o, s') /\
    (do mi <- row_at i;
     do y <- Go.index vv i;
     set_row i (mi ++ [y])) g = (o, g') /\
    R s' g'.
Proof.
  destruct s as [h m]. intros Hi HR.
  pose proof HR as ((Hv & Hrows & _) & Hg & Hvv). cbn [fst snd] in *.
  assert (length g = length m) as Hlen
    by (rewrite <- Hg; unfold Mem.grid_of; apply length_fmap).
  destruct (decide (i < length m)) as [Him|Him].
  - destruct (lookup_lt_is_Some_2 m i Him) as [mi Hmi].
    assert (g !! i = Some (Mem.contents h mi)) as Hgi.
    { rewrite <- Hg. unfold Mem.grid_of. rewrite list_lookup_fmap, Hmi.
      reflexivity. }
    destruct (fits_cell h v i Hv) as [y Hy]; [destruct Hv; lia|].
    assert (vv !! i = Some y) as Hvi.
    { rewrite <- Hvv, contents_lookup. rewrite decide_True by exact Hi.
      exact Hy. }
    destruct (mem_append_held h m g i mi y HR Hmi)
      as (t & h' & Happ & HR').
    exists (Return tt), (h', <[i := t]> m),
      (<[i := Mem.contents h mi ++ [y]]> g).
    split; [|split; [|exact HR']].
    + rewrite (bind_Return (on_snd (Mem.header i)) _ (h, m) mi (h, m)
                 (on_snd_run _ _ _ _ _ (index_Some _ _ _ _ Hmi))).
      assert (Mem.elem v i h = (Return y, h)) as He.
      { unfold Mem.elem. rewrite decide_True by exact Hi.
        apply load_Some, Hy. }
      rewrite (bind_Return (on_fst (Mem.elem v i)) _ (h, m) y (h, m)
                 (on_fst_run _ _ _ _ _ He)).
      rewrite (bind_Return (on_fst (Mem.append room mi y)) _ (h, m) t
                 (h', m) (on_fst_run _ _ _ _ _ Happ)).
      apply on_snd_run. unfold Mem.set_header.
      rewrite (bind_Return Go.get _ _ _ _ eq_refl).
      rewrite decide_True by exact Him. reflexivity.
    + rewrite (bind_Return _ _ _ _ _ (row_at_Some _ _ _ Hgi)).
      rewrite (bind_Return _ _ _ _ _ (index_Some _ _ _ _ Hvi)).
      apply set_row_lt. lia.
  - exists (Panicked IndexOutOfRange), (h, m), g.
    split; [|split; [|exact HR]].
    + apply bind_Panicked, on_snd_run, index_None, lookup_ge_None_2. lia.
    + apply bind_Panicked. unfold row_at.
      apply index_None, lookup_ge_None_2. lia.
Qed.

(** [AppendCol] over slices of separate capacity is [AppendCol] over their
    values. *)
Lemma mem_AppendCol_values (h : Mem.heap) (m : list Mem.slice) :
  Mem.separate Mem.cap h m v -> vv = Mem.contents h v ->
  exists o s' g',
    Mem.AppendCol room v (h, m) = (o, s') /\
    AppendCol vv (Mem.grid_of h m) = (o, g') /\
    R s' g'.
Proof.
  intros Hsep Hvv.
  assert (length vv = Mem.len v) as Hlen
    by (rewrite Hvv; apply length_contents, Hsep).
  unfold Mem.AppendCol, AppendCol, Go.for_range. rewrite Hlen.
  apply (for_from_sim R); [unfold R, held_in; cbn [fst snd]; auto|].
  intros i s g Hi HR. apply mem_append_row; [lia | exact HR].
Qed.
End MemAppendCol.

(** X13: [AppendCol] changes its grid in place, through [append].  When
    the rows lie within their arrays and share no cell with each other up
    to their capacities, nor with the vector, it appends [v[i]] to row [i]
    for every [i] that both have, whatever the lengths of the rows and
    whether [append] writes into the spare capacity of a row or moves it:
    with a vector no longer than the grid has rows it returns, the rows
    past the vector being left as they are, and with a longer one it stops
    with the run time's index panic after every row has been extended.
    The vector is left as it was.  This is what [AppendCol] over values
    computes. *)
Theorem AppendCol_rows (room : nat -> nat) (h : Mem.heap) (m : list Mem.slice)
    (v : Mem.slice) :
  Mem.separate Mem.cap h m v ->
  exists h' m',
    Mem.AppendCol room v (h, m)
    = (if decide (Mem.len v <= length m) then Return tt
       else Panicked IndexOutOfRange, (h', m')) /\
    AppendCol (Mem.contents h v) (Mem.grid_of h m)
    = (if decide (Mem.len v <= length m) then Return tt
       else Panicked IndexOutOfRange, Mem.grid_of h' m') /\
    length m' = length m /\
    Mem.contents h' v = Mem.contents h v /\
    (forall i row y,
       Mem.grid_of h m !! i = Some row -> Mem.contents h v !! i = Some y ->
       Mem.grid_of h' m' !! i = Some (row ++ [y])) /\
    (forall i row,
       Mem.grid_of h m !! i = Some row -> Mem.contents h v !! i = None ->
       Mem.grid_of h' m' !! i = Some row).
Proof.
  intros Hsep.
  destruct (mem_AppendCol_values room v _ h m Hsep eq_refl)
    as (o & [h' m'] & g' & Hmem & Hval & _ & Hg' & Hv').
  cbn [fst snd] in Hg', Hv'.
  pose proof Hval as Hval'. rewrite AppendCol_result in Hval'.
  injection Hval' as Ho Hg. rewrite <- Hg' in Hg.
  assert (o = if decide (Mem.len v <= length m) then Return tt
              else Panicked IndexOutOfRange) as ->.
  { pose proof (length_contents h v (proj1 Hsep)) as Hlv.
    assert (length (Mem.grid_of h m) = length m) as Hlm
      by apply length_fmap.
    rewrite <- Ho.
    destruct (decide (length (Mem.contents h v)
                      <= length (Mem.grid_of h m))),
             (decide (Mem.len v <= length m)); try reflexivity; lia. }
  exists h', m'. rewrite Hmem, Hval.
  split; [reflexivity|]. split; [rewrite Hg'; reflexivity|].
  split; [|split; [exact Hv'|]].
  - assert (length (Mem.grid_of h' m') = length (Mem.grid_of h m)) as Hl
      by (rewrite <- Hg; apply length_imap).
    unfold Mem.grid_of in Hl. rewrite !length_fmap in Hl. exact Hl.
  - split.
    + intros i row y Hrow Hy. rewrite <- Hg. unfold append_col_rows.
      rewrite list_lookup_imap, Hrow. simpl. rewrite Hy. reflexivity.
    + intros i row Hrow Hy. rewrite <- Hg. unfold append_col_rows.
      rewrite list_lookup_imap, Hrow. simpl. rewrite Hy. reflexivity.
Qed.

Lemma AppendCol_rows_witness :
  exists h' m',
    Mem.AppendCol (fun n => n) (Mem.Slice 2 0 2 2)
      ([[1; 2; 0]; [3; 4]; [5; 6]]%float,
       [Mem.Slice 0 0 2 3; Mem.Slice 1 0 2 2])
    = (Return tt, (h', m')) /\
    Mem.grid_of h' m' !! 0 = Some [1; 2; 5]%float /\
    Mem.grid_of h' m' !! 1 = Some [3; 4; 6]%float.
Proof.
  destruct (AppendCol_rows (fun n => n) [[1; 2; 0]; [3; 4]; [5; 6]]%float
              [Mem.Slice 0 0 2 3; Mem.Slice 1 0 2 2] (Mem.Slice 2 0 2 2))
    as (h' & m' & Hrun & _ & _ & _ & Hrows & _).
  - split; [split; simpl; lia|]. split.
    + intros [|[|i]] s; simpl; intros [= <-];
        (split; [split; simpl; lia | unfold Mem.apart; simpl; lia]).
    + intros [|[|i]] [|[|j]] s t Hne; simpl; intros [= <-] [= <-];
        try (unfold Mem.apart; simpl; lia); contradiction.
  - exists h', m'. split; [exact Hrun|].
    split; [apply (Hrows 0 [1; 2]%float 5%float); reflexivity|].
    apply (Hrows 1 [3; 4]%float 6%float); reflexivity.
Defined.

(** Where the precondition fails: two rows cut from one array, the first
    with the second in its spare capacity.  [append] to the first row
    writes over the first value of the second, whatever room the run time
    gives to the row that it moves. *)
Lemma AppendCol_of_one_array (room : nat -> nat) :
  Mem.grid_of [[1; 2; 3; 4]; [5; 6]]%float
    [Mem.Slice 0 0 2 4; Mem.Slice 0 2 2 2]
  = [[1; 2]; [3; 4]]%float /\
  exists h' m',
    Mem.AppendCol room (Mem.Slice 1 0 2 2)
      ([[1; 2; 3; 4]; [5; 6]]%float,
       [Mem.Slice 0 0 2 4; Mem.Slice 0 2 2 2])
    = (Return tt, (h', m')) /\
    Mem.grid_of h' m' = [[1; 2; 5]; [5; 4; 6]]%float.
Proof.
  split; [reflexivity|]. eexists _, _. split; reflexivity.
Qed.
